(** * Patent-Text-Extractor: metadata extraction and page pipeline

    A shallow embedding of [patent_text_extractor.py] and of its two legacy
    variants [CVRT3.0.py] and [Patent-anim2.py].

    - A Python [str] is modelled as a list of code points; the development
      covers the code points 0..255, for which the character classes of the
      [re] module ([\s], [\d], [\w], case folding) are written out in full.
    - [re.search] is modelled by a backtracking matcher in
      continuation-passing style over the constructs the patterns use.
    - The page pipeline runs in a state-and-error monad over a file store.
    - PowerPoint is modelled by the part of its object model that
      [modify_active_ppt] reads and writes, and [main] by the files, the
      directories and the presentation it acts on. *)

From Stdlib Require Import Ascii String ZArith QArith Lia DecimalString DecimalNat.
From stdpp Require Import gmap strings list fin_maps.

Local Open Scope list_scope.
Local Open Scope bool_scope.

(* ===================================================================== *)
(** ** Text and character classes *)
(* ===================================================================== *)

Abbreviation text := (list ascii).

Definition str (s : string) : text := list_ascii_of_string s.

(** The newline character, code point 10. *)
Definition nl : ascii := ascii_of_nat 10.

Definition code (c : ascii) : nat := nat_of_ascii c.

Definition between (lo hi n : nat) : bool := (lo <=? n)%nat && (n <=? hi)%nat.

(** [str.isspace] and the class [\s] of a [str] pattern. *)
Definition is_space (c : ascii) : bool :=
  let n := code c in
  between 9 13 n || between 28 32 n || (n =? 133)%nat || (n =? 160)%nat.

(** The class [\d] of a [str] pattern. *)
Definition is_digit (c : ascii) : bool := between 48 57 (code c).

Definition is_upper (c : ascii) : bool := between 65 90 (code c).
Definition is_lower (c : ascii) : bool := between 97 122 (code c).

(** The class [\w] of a [str] pattern: alphanumeric code points and the
    underscore. *)
Definition is_word (c : ascii) : bool :=
  let n := code c in
  is_digit c || is_upper c || is_lower c || (n =? 95)%nat
  || (n =? 170)%nat || (n =? 178)%nat || (n =? 179)%nat || (n =? 181)%nat
  || (n =? 185)%nat || (n =? 186)%nat || between 188 190 n
  || between 192 214 n || between 216 246 n || between 248 255 n.

(** Case folding as [re.IGNORECASE] applies it to a literal of the pattern:
    all literals of the patterns below are ASCII, and among the code points
    0..255 an ASCII letter is matched by its two cases only. *)
Definition fold_case (c : ascii) : ascii :=
  if is_upper c then ascii_of_nat (code c + 32) else c.

(** The 256 code points. *)
Definition all_ascii : list ascii := map ascii_of_nat (seq 0 256).

(** Two characters that are the same up to the case of an ASCII letter. *)
Definition same_letter (c c' : ascii) : Prop := fold_case c = fold_case c'.

(** Whether the character [x] of the text is the literal [c] of a pattern. *)
Definition same_char (icase : bool) (x c : ascii) : bool :=
  if icase then bool_decide (fold_case x = fold_case c)
  else bool_decide (x = c).
Arguments same_char : simpl never.

(* ===================================================================== *)
(** ** Regular expressions and [re.search] *)
(* ===================================================================== *)

Module Re.

(** One-character matchers. *)
Inductive atom : Type :=
| Lit (c : ascii)          (* a literal character *)
| Space                    (* \s *)
| NotSpace                 (* \S *)
| Digit                    (* \d *)
| Word                     (* \w *)
| Or (a b : atom).         (* a two-member set [ab] *)

Inductive regex : Type :=
| Eps
| Atom (a : atom)
| Rep (a : atom) (lo : nat) (hi : option nat) (greedy : bool)
                           (* a{lo,hi}, a{lo,}, and their lazy forms *)
| Seq (r1 r2 : regex)
| Alt (r1 r2 : regex)
| Group (r : regex)        (* the capture group 1 *)
| Look (r : regex)         (* (?=r) *)
| Bound                    (* \b *)
| EndZ.                    (* \Z *)

(** A literal string. *)
Fixpoint lits (s : text) : regex :=
  match s with
  | [] => Eps
  | c :: s' => Seq (Atom (Lit c)) (lits s')
  end.

(** Sequencing of a list of pieces. *)
Fixpoint cat (rs : list regex) : regex :=
  match rs with
  | [] => Eps
  | [r] => r
  | r :: rs' => Seq r (cat rs')
  end.

Definition star (a : atom) : regex := Rep a 0 None true.       (* a*  *)
Definition opt (a : atom) : regex := Rep a 0 (Some 1) true.    (* a?  *)
Definition lazy_plus (a : atom) : regex := Rep a 1 None false. (* a+? *)
Definition times (a : atom) (n : nat) : regex := Rep a n (Some n) true.

(** The matcher's position: the character before it (for [\b]), the text
    from it on, and the current content of group 1. *)
Record mstate : Type := MState {
  prev : option ascii;
  rest : text;
  grp : option text
}.

Section Matcher.

(** [re.IGNORECASE] *)
Variable icase : bool.

Fixpoint atom_match (a : atom) (c : ascii) : bool :=
  match a with
  | Lit x => same_char icase c x
  | Space => is_space c
  | NotSpace => negb (is_space c)
  | Digit => is_digit c
  | Word => is_word c
  | Or a1 a2 => atom_match a1 c || atom_match a2 c
  end.

Definition hi_zero (hi : option nat) : bool :=
  match hi with Some O => true | _ => false end.

Definition hi_pred (hi : option nat) : option nat :=
  match hi with Some n => Some (Nat.pred n) | None => None end.

(** Greedy repetition: one more character first, the continuation after. *)
Fixpoint rep_greedy {R : Type} (a : atom) (lo : nat) (hi : option nat)
    (p : option ascii) (s : text)
    (k : option ascii -> text -> option R) : option R :=
  let stop := if (lo =? 0)%nat then k p s else None in
  if hi_zero hi then stop
  else match s with
       | c :: s' =>
           if atom_match a c then
             match rep_greedy a (Nat.pred lo) (hi_pred hi) (Some c) s' k with
             | Some r => Some r
             | None => stop
             end
           else stop
       | [] => stop
       end.

(** Lazy repetition: the continuation first, one more character after. *)
Fixpoint rep_lazy {R : Type} (a : atom) (lo : nat) (hi : option nat)
    (p : option ascii) (s : text)
    (k : option ascii -> text -> option R) : option R :=
  let more :=
    if hi_zero hi then None
    else match s with
         | c :: s' =>
             if atom_match a c
             then rep_lazy a (Nat.pred lo) (hi_pred hi) (Some c) s' k
             else None
         | [] => None
         end in
  if (lo =? 0)%nat then
    match k p s with
    | Some r => Some r
    | None => more
    end
  else more.

Definition word_opt (o : option ascii) : bool :=
  match o with Some c => is_word c | None => false end.

Definition at_boundary (st : mstate) : bool :=
  xorb (word_opt (prev st)) (word_opt (head (rest st))).

(** [run r st k]: match [r] at [st], then the continuation [k]; when [k]
    fails the next alternative of [r] is tried, in the order of the
    backtracking matcher of [re]. The result is the one of the first
    continuation that succeeds. *)
Fixpoint run {R : Type} (r : regex) (st : mstate)
    (k : mstate -> option R) : option R :=
  match r with
  | Eps => k st
  | Atom a =>
      match rest st with
      | c :: s' =>
          if atom_match a c then k (MState (Some c) s' (grp st)) else None
      | [] => None
      end
  | Rep a lo hi greedy =>
      (if greedy then rep_greedy else rep_lazy) a lo hi (prev st) (rest st)
        (fun p s => k (MState p s (grp st)))
  | Seq r1 r2 => run r1 st (fun st' => run r2 st' k)
  | Alt r1 r2 =>
      match run r1 st k with
      | Some x => Some x
      | None => run r2 st k
      end
  | Group r1 =>
      run r1 st (fun st' =>
        k (MState (prev st') (rest st')
             (Some (firstn (length (rest st) - length (rest st')) (rest st)))))
  | Look r1 =>
      match run r1 st (fun _ => Some tt) with
      | Some _ => k st
      | None => None
      end
  | Bound => if at_boundary st then k st else None
  | EndZ =>
      match rest st with
      | [] => k st
      | _ :: _ => None
      end
  end.

(** The match object: [group(0)] and [group(1)]. *)
Record match_obj : Type := MatchObj {
  group0 : text;
  group1 : option text
}.

(** The match object of a match of [s] that ends in the state [st']. *)
Definition matched (s : text) (st' : mstate) : option match_obj :=
  Some (MatchObj (firstn (length s - length (rest st')) s) (grp st')).

Definition match_at (r : regex) (p : option ascii) (s : text)
    : option match_obj :=
  run r (MState p s None) (matched s).

(** [re.search]: the first start position, from the left, with a match. *)
Fixpoint search_from (r : regex) (p : option ascii) (s : text)
    : option match_obj :=
  match match_at r p s with
  | Some m => Some m
  | None =>
      match s with
      | c :: s' => search_from r (Some c) s'
      | [] => None
      end
  end.

End Matcher.

Definition search (r : regex) (s : text) (ignorecase : bool)
    : option match_obj :=
  search_from ignorecase r None s.

(** [m.group(1)] of a match whose group 1 took part in it. *)
Definition grp1 (m : match_obj) : text := default [] (group1 m).

(** Patterns without [\b]: their matches do not depend on the character
    before the position. *)
Fixpoint bound_free (r : regex) : bool :=
  match r with
  | Bound => false
  | Seq r1 r2 | Alt r1 r2 => bound_free r1 && bound_free r2
  | Group r1 | Look r1 => bound_free r1
  | _ => true
  end.

(** Two positions whose texts and groups are related character by
    character (the characters before them are left free). *)
Definition state_rel (cr : ascii -> ascii -> Prop) (st st' : mstate) : Prop :=
  Forall2 cr (rest st) (rest st')
  /\ option_Forall2 (Forall2 cr) (grp st) (grp st').

Definition match_rel (cr : ascii -> ascii -> Prop) (m m' : match_obj)
    : Prop :=
  Forall2 cr (group0 m) (group0 m')
  /\ option_Forall2 (Forall2 cr) (group1 m) (group1 m').

(** A continuation that does not look at the character before the
    position. *)
Definition pins {R} (k : mstate -> option R) : Prop :=
  forall st st', rest st = rest st' -> grp st = grp st' -> k st = k st'.

(** Patterns that match a fixed number of characters, one test each. *)
Fixpoint fixed (icase : bool) (r : regex) : option (list (ascii -> bool)) :=
  match r with
  | Eps => Some []
  | Atom a => Some [atom_match icase a]
  | Rep a lo (Some hi) _ =>
      if (lo =? hi)%nat then Some (repeat (atom_match icase a) lo) else None
  | Seq r1 r2 =>
      match fixed icase r1, fixed icase r2 with
      | Some sh1, Some sh2 => Some (sh1 ++ sh2)
      | _, _ => None
      end
  | _ => None
  end.

End Re.

Import Re.

(* ===================================================================== *)
(** ** [str] methods *)
(* ===================================================================== *)

(** [s.lstrip()] *)
Fixpoint lstrip_ws (s : text) : text :=
  match s with
  | c :: s' => if is_space c then lstrip_ws s' else s
  | [] => []
  end.

(** [s.strip()] *)
Definition strip (s : text) : text := rev (lstrip_ws (rev (lstrip_ws s))).

(** [s.replace("\n", " ")] *)
Definition replace_nl (s : text) : text :=
  map (fun c => if bool_decide (c = nl) then " "%char else c) s.

(** [s.lstrip(")")] *)
Fixpoint lstrip_paren (s : text) : text :=
  match s with
  | c :: s' => if bool_decide (c = ")"%char) then lstrip_paren s' else s
  | [] => []
  end.

(** A text without whitespace at either end. *)
Definition stripped (s : text) : Prop :=
  (forall c, head s = Some c -> is_space c = false)
  /\ (forall c, last s = Some c -> is_space c = false).

(* ===================================================================== *)
(** ** [parse_patent_info] *)
(* ===================================================================== *)

Record PatentInfo : Type := mkPatentInfo {
  title : text;
  number : text;
  date : text;
  inventors : text;
  abstract : text
}.

Definition any_char : atom := Or Space NotSpace.           (* [\s\S] *)

(** [\(\d{2}\)] *)
Definition section_marker : regex :=
  cat [lits (str "("); times Digit 2; lits (str ")")].

(** [\(\d{2}\)|\n{2,}|\Z] *)
Definition title_stop : regex :=
  Alt section_marker (Alt (Rep (Lit nl) 2 None true) EndZ).

(** [\(\d{2}\)|\n\n|\Z] *)
Definition inventors_stop : regex :=
  Alt section_marker (Alt (lits [nl; nl]) EndZ).

(** [\n\n|\Z] *)
Definition abstract_stop : regex := Alt (lits [nl; nl]) EndZ.

(** [\(54\)\s*([\s\S]+?)(?=\(\d{2}\)|\n{2,}|\Z)] *)
Definition title_re : regex :=
  cat [lits (str "(54)"); star Space; Group (lazy_plus any_char);
       Look title_stop].

(** [US\s\d{1,3},\d{3},\d{3}\s\w\d] *)
Definition number_re : regex :=
  cat [lits (str "US"); Atom Space; Rep Digit 1 (Some 3) true;
       lits (str ","); times Digit 3; lits (str ","); times Digit 3;
       Atom Space; Atom Word; Atom Digit].

Definition months : list string :=
  ["Jan"; "Feb"; "Mar"; "Apr"; "May"; "Jun";
   "Jul"; "Aug"; "Sep"; "Oct"; "Nov"; "Dec"]%string.

(** [(?:Jan|Feb|Mar|Apr|May|Jun|Jul|Aug|Sep|Oct|Nov|Dec)] *)
Fixpoint alts (l : list string) : regex :=
  match l with
  | [] => Eps
  | [s] => lits (str s)
  | s :: l' => Alt (lits (str s)) (alts l')
  end.

(** [\.\s\d{1,2},\s\d{4}\b] *)
Definition date_tail : regex :=
  cat [lits (str "."); Atom Space; Rep Digit 1 (Some 2) true;
       lits (str ","); Atom Space; times Digit 4; Bound].

(** [\(45\)\s*Date of Patent:\s*(\b(?:Jan|...|Dec)\.\s\d{1,2},\s\d{4}\b)] *)
Definition date_re : regex :=
  cat [lits (str "(45)"); star Space; lits (str "Date of Patent:");
       star Space; Group (cat [Bound; alts months; date_tail])].

(** [Inventors?:\s*([\s\S]+?)(?=\(\d{2}\)|\n\n|\Z)] *)
Definition inventors_re : regex :=
  cat [lits (str "Inventor"); opt (Lit "s"%char); lits (str ":");
       star Space; Group (lazy_plus any_char); Look inventors_stop].

(** [Abstract:?\s*([\s\S]+?)(?=\n\n|\Z)] *)
Definition abstract_re : regex :=
  cat [lits (str "Abstract"); opt (Lit ":"%char); star Space;
       Group (lazy_plus any_char); Look abstract_stop].

Definition title_match (t : text) := search title_re t true.
Definition number_match (t : text) := search number_re t false.
Definition date_match (t : text) := search date_re t false.
Definition inventors_match (t : text) := search inventors_re t true.
Definition abstract_match (t : text) := search abstract_re t true.

Definition parse_patent_info (t : text) : PatentInfo :=
  let title :=
    match title_match t with
    | Some m => replace_nl (strip (grp1 m))
    | None => str "Title N/A"
    end in
  let title := lstrip_paren title in
  let number :=
    match number_match t with
    | Some m => group0 m
    | None => str "PATENT # N/A"
    end in
  let date :=
    match date_match t with
    | Some m => grp1 m
    | None => str "Date N/A"
    end in
  let inventors :=
    match inventors_match t with
    | Some m => replace_nl (strip (grp1 m))
    | None => str "Inventors N/A"
    end in
  let abstract :=
    match abstract_match t with
    | Some m => strip (grp1 m)
    | None => str "Abstract N/A"
    end in
  mkPatentInfo title number date inventors abstract.

(* ===================================================================== *)
(** ** Direct descriptions of the rules *)
(* ===================================================================== *)

(** The functions of this part describe the rules without a matcher: a
    rule is tried at every position of the text from the left, and the first
    position where it applies gives the field. They are compared with
    [parse_patent_info] in the second half of the file. *)

(** [split_shape sh s]: [s] cut into a prefix whose characters satisfy the
    tests of [sh], one for one, and the rest. *)
Fixpoint split_shape (sh : list (ascii -> bool)) (s : text)
    : option (text * text) :=
  match sh with
  | [] => Some ([], s)
  | test :: sh' =>
      match s with
      | x :: s' =>
          if test x then
            match split_shape sh' s' with
            | Some (w, r) => Some (x :: w, r)
            | None => None
            end
          else None
      | [] => None
      end
  end.

(** [via sh s k]: [k] on what is left of [s] after a prefix of shape [sh]. *)
Definition via {A} (sh : list (ascii -> bool)) (s : text)
    (k : text -> option A) : option A :=
  match split_shape sh s with
  | Some (_, s') => k s'
  | None => None
  end.

(** The shape of a literal. *)
Definition literal (icase : bool) (w : text) : list (ascii -> bool) :=
  map (fun c x => same_char icase x c) w.

(** The text after the heading [w], when [s] starts with it. *)
Definition after_prefix (icase : bool) (w s : text) : option text :=
  option_map snd (split_shape (literal icase w) s).

(** Whether [w] occurs in [s]. *)
Fixpoint contains (icase : bool) (w s : text) : bool :=
  match after_prefix icase w s with
  | Some _ => true
  | None =>
      match s with
      | _ :: s' => contains icase w s'
      | [] => false
      end
  end.

(** The result of [f] at the first position of [s], from the left, where it
    has one. *)
Fixpoint first_match {A} (f : text -> option A) (s : text) : option A :=
  match f s with
  | Some a => Some a
  | None =>
      match s with
      | _ :: s' => first_match f s'
      | [] => None
      end
  end.

(** Leading whitespace dropped, as long as a character is left after it. *)
Fixpoint skip_ws (s : text) : text :=
  match s with
  | c :: s' =>
      if is_space c then
        match s' with
        | [] => s
        | _ :: _ => skip_ws s'
        end
      else s
  | [] => []
  end.

(** The characters of [s] before the first position where [stop] holds. *)
Fixpoint until (stop : text -> bool) (s : text) : text :=
  if stop s then []
  else match s with
       | c :: s' => c :: until stop s'
       | [] => []
       end.

(** The text from the first position where [stop] holds. *)
Fixpoint from_stop (stop : text -> bool) (s : text) : text :=
  if stop s then s
  else match s with
       | _ :: s' => from_stop stop s'
       | [] => []
       end.

(** The first character of [s], and the following ones up to the first
    position where [stop] holds. *)
Definition span (stop : text -> bool) (s : text) : text :=
  match s with
  | c :: s' => c :: until stop s'
  | [] => []
  end.

(** A numeric section marker [(dd)] starts here. *)
Definition at_marker (s : text) : bool :=
  match s with
  | a :: b :: c :: d :: _ =>
      bool_decide (a = "("%char) && is_digit b && is_digit c
      && bool_decide (d = ")"%char)
  | _ => false
  end.

(** A blank line starts here: two newlines in a row. *)
Definition at_blank_line (s : text) : bool :=
  match s with
  | a :: b :: _ => bool_decide (a = nl) && bool_decide (b = nl)
  | _ => false
  end.

Definition at_end (s : text) : bool :=
  match s with
  | [] => true
  | _ :: _ => false
  end.

(** Where the title and the inventors end. *)
Definition field_end (s : text) : bool :=
  at_marker s || at_blank_line s || at_end s.

(** The captured span, given the text after a heading: there is none when
    nothing follows the heading; otherwise whitespace is skipped and the
    span runs to the first end after its first character. *)
Definition capture (stop : text -> bool) (after : option text)
    : option text :=
  match after with
  | Some (c :: a) => Some (span stop (skip_ws (c :: a)))
  | _ => None
  end.

Definition orelse {A} (o1 o2 : option A) : option A :=
  match o1 with
  | Some a => Some a
  | None => o2
  end.

(** The title rule at one position. *)
Definition title_at (s : text) : option text :=
  capture field_end (after_prefix true (str "(54)") s).

(** The inventors rule at one position. *)
Definition inventors_at (s : text) : option text :=
  orelse (capture field_end (after_prefix true (str "Inventors:") s))
         (capture field_end (after_prefix true (str "Inventor:") s)).

Definition is_char (c : ascii) (x : ascii) : bool := bool_decide (x = c).

(** The shape of a patent number after its leading digits. *)
Definition number_tail : list (ascii -> bool) :=
  [is_char ","] ++ repeat is_digit 3
  ++ [is_char ","] ++ repeat is_digit 3
  ++ [is_space; is_word; is_digit].

(** The shape of a patent number with [n] leading digits. *)
Definition number_shape (n : nat) : list (ascii -> bool) :=
  [is_char "U"; is_char "S"; is_space] ++ repeat is_digit n ++ number_tail.

(** The number rule at one position: a prefix of one of the three shapes. *)
Definition number_at (s : text) : option text :=
  option_map fst
    (orelse (split_shape (number_shape 3) s)
            (orelse (split_shape (number_shape 2) s)
                    (split_shape (number_shape 1) s))).

Definition title_spec (t : text) : text :=
  lstrip_paren
    match first_match title_at t with
    | Some g => replace_nl (strip g)
    | None => str "Title N/A"
    end.

Definition inventors_spec (t : text) : text :=
  match first_match inventors_at t with
  | Some g => replace_nl (strip g)
  | None => str "Inventors N/A"
  end.

Definition number_spec (t : text) : text :=
  match first_match number_at t with
  | Some g => g
  | None => str "PATENT # N/A"
  end.

(** *** The rules as the specification words them *)

(** The text following the first heading, up to the first end. *)
Definition following (heading : text -> option text) (stop : text -> bool)
    (t : text) : option text :=
  option_map (until stop) (first_match heading t).

(** "The text following a (54) section marker, terminated at the next
    numeric section marker, a blank line, or end of text, whichever comes
    first." *)
Definition title_claimed (t : text) : text :=
  lstrip_paren
    match following (after_prefix true (str "(54)")) field_end t with
    | Some g => replace_nl (strip g)
    | None => str "Title N/A"
    end.

(** "The text following Inventor: or Inventors:, terminated at the next
    numeric section marker, a blank line, or end of text." *)
Definition inventors_claimed (t : text) : text :=
  match
    following (fun s => orelse (after_prefix true (str "Inventors:") s)
                               (after_prefix true (str "Inventor:") s))
      field_end t
  with
  | Some g => replace_nl (strip g)
  | None => str "Inventors N/A"
  end.

Definition is_letter (c : ascii) : bool := is_upper c || is_lower c.

(** "US + space + 1-3 digits + , + 3 digits + , + 3 digits + space + one
    letter + one digit." *)
Definition number_shape_claimed (n : nat) : list (ascii -> bool) :=
  [is_char "U"; is_char "S"; is_char " "] ++ repeat is_digit n
  ++ [is_char ","] ++ repeat is_digit 3
  ++ [is_char ","] ++ repeat is_digit 3
  ++ [is_char " "; is_letter; is_digit].

Definition number_claimed (t : text) : text :=
  match
    first_match (fun s =>
      option_map fst
        (orelse (split_shape (number_shape_claimed 3) s)
                (orelse (split_shape (number_shape_claimed 2) s)
                        (split_shape (number_shape_claimed 1) s)))) t
  with
  | Some g => g
  | None => str "PATENT # N/A"
  end.

(** The sample texts of the specification. *)
Definition title_sample : text :=
  str "(54) A Widget Apparatus" ++ [nl; nl] ++ str "(57) Abstract ...".

Definition number_sample : text := str "US 10,123,456 B2".

Definition inventors_sample : text :=
  str "Inventors: Jane Doe; John Smith" ++ [nl; nl] ++ str "(57) Abstract".

(* ===================================================================== *)
(** ** The legacy variants of [parse_patent_info] *)
(* ===================================================================== *)

(** Both legacy files return the five fields as a tuple, and print the title
    match on the way; the printing does not take part in the result. *)

(** [CVRT3.0.py] *)
Module CVRT3_0.

(** [Abstract?\s*([\s\S]+?)(?=\n\n|\Z)] *)
Definition abstract_re : regex :=
  cat [lits (str "Abstrac"); opt (Lit "t"%char); star Space;
       Group (lazy_plus any_char); Look abstract_stop].

Definition parse_patent_info (t : text) : text * text * text * text * text :=
  let title_match := search title_re t true in
  let title :=
    match title_match with
    | Some m => replace_nl (strip (grp1 m))
    | None => str "Title N/A"
    end in
  let title := lstrip_paren title in
  let patent_number :=
    match search number_re t false with
    | Some m => group0 m
    | None => str "PATENT # N/A"
    end in
  let patent_date :=
    match search date_re t false with
    | Some m => grp1 m
    | None => str "Date N/A"
    end in
  let inventors :=
    match search inventors_re t true with
    | Some m => replace_nl (strip (grp1 m))
    | None => str "Inventors N/A"
    end in
  let abstract :=
    match search abstract_re t true with
    | Some m => strip (grp1 m)
    | None => str "Abstract N/A"
    end in
  (title, patent_number, patent_date, inventors, abstract).

End CVRT3_0.

(** [Patent-anim2.py] *)
Module Patent_anim2.

(** [Abstract:?\s*([\s\S]+?)(?=\n\n|\Z)] *)
Definition abstract_re : regex :=
  cat [lits (str "Abstract"); opt (Lit ":"%char); star Space;
       Group (lazy_plus any_char); Look abstract_stop].

Definition parse_patent_info (t : text) : text * text * text * text * text :=
  let title_match := search title_re t true in
  let title :=
    match title_match with
    | Some m => replace_nl (strip (grp1 m))
    | None => str "Title N/A"
    end in
  let title := lstrip_paren title in
  let patent_number :=
    match search number_re t false with
    | Some m => group0 m
    | None => str "PATENT # N/A"
    end in
  let patent_date :=
    match search date_re t false with
    | Some m => grp1 m
    | None => str "Date N/A"
    end in
  let inventors :=
    match search inventors_re t true with
    | Some m => replace_nl (strip (grp1 m))
    | None => str "Inventors N/A"
    end in
  let abstract :=
    match search abstract_re t true with
    | Some m => strip (grp1 m)
    | None => str "Abstract N/A"
    end in
  (title, patent_number, patent_date, inventors, abstract).

End Patent_anim2.

(** The five fields of a [PatentInfo], in the order of the legacy tuples. *)
Definition fields (p : PatentInfo) : text * text * text * text * text :=
  (title p, number p, date p, inventors p, abstract p).

(* ===================================================================== *)
(** ** Images and [split_image] *)
(* ===================================================================== *)

Inductive error : Type :=
| RenderError              (* raised by [convert_from_path] *)
| RecognitionUnavailable   (* raised by [pytesseract.image_to_string] *)
| PersistenceError         (* raised by [Image.save] and [Path.write_text] *)
| ValueError.              (* raised by [Image.crop] on an inverted box and
                              by [Image.save] on an image without pixels *)

Inductive result (A : Type) : Type :=
| Ok (a : A)
| Err (e : error).
Arguments Ok {A} a.
Arguments Err {A} e.

(** A [PIL.Image.Image]: its [size] (width, height) and its pixels. *)
Record Image : Type := mkImage {
  size : Z * Z;
  pixel : Z -> Z -> Z
}.

Definition width (image : Image) : Z := fst (size image).
Definition height (image : Image) : Z := snd (size image).

(** [image.crop((left, upper, right, lower))] *)
Definition crop (image : Image) (box : Z * Z * Z * Z) : result Image :=
  let '(x0, y0, x1, y1) := box in
  if (x1 <? x0)%Z then Err ValueError
  else if (y1 <? y0)%Z then Err ValueError
  else Ok (mkImage (x1 - x0, y1 - y0)%Z
                   (fun x y => pixel image (x0 + x) (y0 + y))%Z).

Definition split_image (image : Image) : result (Image * Image) :=
  let '(width, height) := size image in
  let column_width := (width / 2)%Z in
  let left_bbox := (0, 0, column_width, height)%Z in
  let right_bbox := (column_width, 0, width, height)%Z in
  match crop image left_bbox with
  | Err e => Err e
  | Ok l =>
      match crop image right_bbox with
      | Err e => Err e
      | Ok r => Ok (l, r)
      end
  end.

(* ===================================================================== *)
(** ** The file store and the pipeline monad *)
(* ===================================================================== *)

(** A [pathlib.Path], as its parts. *)
Abbreviation Path := (list string).

(** [path / name] *)
Definition joinpath (p : Path) (name : string) : Path := p ++ [name].

Inductive File : Type :=
| ImageFile (image : Image)
| TextFile (content : text).

(** The file store: what each path holds. A text file is given by the
    string that was written to it in text mode; [written_newlines] gives
    the characters this leaves in the file. The UTF-8 codec, which gives
    back the code points it was given, is left out. *)
Abbreviation FS := (gmap Path File).

(** The carriage return, code point 13. *)
Definition cr : ascii := ascii_of_nat 13.



(** An image without pixels. *)
Definition without_pixels (image : Image) : bool :=
  ((width image =? 0) || (height image =? 0))%Z.

(** Computations that read and write the file store and may raise; the
    store survives a raise, as the files written before an exception do. *)
Definition M (A : Type) : Type := FS -> result A * FS.

Definition ret {A} (a : A) : M A := fun fs => (Ok a, fs).

Definition bind {A B} (c : M A) (f : A -> M B) : M B :=
  fun fs =>
    match c fs with
    | (Ok a, fs') => f a fs'
    | (Err e, fs') => (Err e, fs')
    end.

Definition lift {A} (r : result A) : M A := fun fs => (r, fs).

Declare Scope pipeline_scope.
Delimit Scope pipeline_scope with pipeline.
Notation "'let*' x ':=' c 'in' k" := (bind c (fun x => k))
  (at level 10, x pattern, c at level 100, k at level 200) : pipeline_scope.
Notation "c ';;' k" := (bind c (fun _ => k))
  (at level 100, k at level 200, right associativity) : pipeline_scope.

(** [str(i)] *)
Definition decimal (i : nat) : string :=
  NilEmpty.string_of_uint (Nat.to_uint i).

(** [f"page_{i}{ending}"] *)
Definition page_name (i : nat) (ending : string) : string :=
  ("page_" ++ decimal i ++ ending)%string.

(** [f"page_{i}.png"] and its siblings. *)
Definition page_png (i : nat) : string := page_name i ".png".
Definition page_col1 (i : nat) : string := page_name i "_col1.png".
Definition page_col2 (i : nat) : string := page_name i "_col2.png".
Definition page_txt (i : nat) : string := page_name i ".txt".

(** [enumerate(l, start=i)] *)
Fixpoint enumerate {A} (i : nat) (l : list A) : list (nat * A) :=
  match l with
  | [] => []
  | x :: l' => (i, x) :: enumerate (S i) l'
  end.

Section Pipeline.

(** The external capabilities and the environment. *)

(** [pdf2image.convert_from_path(pdf_path, poppler_path=..., dpi=...)] *)
Variable convert_from_path : Path -> Path -> Z -> result (list Image).

(** [pytesseract.image_to_string] *)
Variable image_to_string : Image -> result text.

(** Whether the environment lets a file be written at a path. *)
Variable writable : Path -> bool.

(** [sys._MEIPASS], when the attribute exists. *)
Variable meipass : option Path.

(** [os.linesep]: a newline, or a carriage return and a newline on
    Windows. *)
Variable linesep : text.

Definition extract_text_from_image (image : Image) : M text :=
  lift (image_to_string image).

Definition write_file (path : Path) (f : File) : M unit :=
  fun fs =>
    if writable path then (Ok tt, <[path := f]> fs)
    else (Err PersistenceError, fs).

(** [image.save(path)]: the file is opened for writing, which the
    environment may refuse, and the image is encoded into it. The encoder
    raises on an image without pixels; the file that was opened for it is
    removed again when it was new, and is left without image data when
    there was one before. *)
Definition save_image (image : Image) (path : Path) : M unit :=
  fun fs =>
    if writable path then
      if without_pixels image then
        (Err ValueError,
         match fs !! path with
         | Some _ => <[path := ImageFile image]> fs
         | None => fs
         end)
      else (Ok tt, <[path := ImageFile image]> fs)
    else (Err PersistenceError, fs).

(** [path.write_text(content, encoding="utf-8")] *)
Definition write_text (path : Path) (content : text) : M unit :=
  write_file path (TextFile content).


(** [show_progress] wraps the iterable in a progress bar and yields its
    items unchanged. *)
Definition show_progress {A} (iterable : list A) (description : string)
    : list A := iterable.

Local Open Scope pipeline_scope.

(** The text of a page: the left column's text, two newlines, the right
    column's text. *)
Definition page_text (image : Image) (t : text) : Prop :=
  exists l r left_text right_text,
    split_image image = Ok (l, r)
    /\ image_to_string l = Ok left_text
    /\ image_to_string r = Ok right_text
    /\ t = left_text ++ [nl; nl] ++ right_text.

(** The body of the loop of [convert_pdf_to_images]. *)
Definition process_page (output_dir : Path) (i : nat) (image : Image)
    : M (Path * text) :=
  let full_image_path := joinpath output_dir (page_png i) in
  save_image image full_image_path ;;
  let* (left_column, right_column) := lift (split_image image) in
  save_image left_column (joinpath output_dir (page_col1 i)) ;;
  save_image right_column (joinpath output_dir (page_col2 i)) ;;
  let* left_text := extract_text_from_image left_column in
  let* right_text := extract_text_from_image right_column in
  let combined_text := left_text ++ [nl; nl] ++ right_text in
  write_text (joinpath output_dir (page_txt i)) combined_text ;;
  ret (full_image_path, combined_text).

Fixpoint convert_loop (output_dir : Path) (items : list (nat * Image))
    (image_paths : list Path) (texts : list text)
    : M (list Path * list text) :=
  match items with
  | [] => ret (image_paths, texts)
  | (i, image) :: items' =>
      let* (full_image_path, combined_text) :=
        process_page output_dir i image in
      convert_loop output_dir items'
        (image_paths ++ [full_image_path]) (texts ++ [combined_text])
  end.

(** The poppler location handed to the renderer. *)
Definition poppler_path : Path :=
  match meipass with
  | Some p => joinpath p "poppler"
  | None => ["path"; "to"; "your"; "poppler"]%string
  end.

Definition convert_pdf_to_images (pdf_path output_dir : Path)
    : M (list Path * list text) :=
  let dpi_value := 600%Z in
  let* images :=
    lift (convert_from_path pdf_path poppler_path dpi_value) in
  convert_loop output_dir
    (show_progress (enumerate 1 images) "Converting PDF") [] [].

End Pipeline.

(** A small environment on which the pipeline can be run: a two-page
    document, a recognizer that reads the width of a crop, a store that
    accepts every write. *)
Module Sample.

Definition page (w : Z) : Image := mkImage (w, 2%Z) (fun x y => (x + y)%Z).

Definition render (pdf_path poppler : Path) (dpi : Z)
    : result (list Image) := Ok [page 4; page 7].

Definition broken_render (pdf_path poppler : Path) (dpi : Z)
    : result (list Image) := Err RenderError.

Definition recognize (image : Image) : result text :=
  Ok (if (width image <=? 2)%Z then str "ab" else str "cde").

Definition store_accepts (path : Path) : bool := true.


End Sample.

(* ===================================================================== *)
(** ** The date and abstract rules, described directly *)
(* ===================================================================== *)

(** The result of [f] at the first member of [l] where it has one. *)
Fixpoint first_some {A B} (f : A -> option B) (l : list A) : option B :=
  match l with
  | [] => None
  | a :: l' => orelse (f a) (first_some f l')
  end.

(** The shape of a date with the month [mon] and [n] digits for the day:
    the month, [.], a whitespace character, the day, [,], a whitespace
    character, four digits. *)
Definition date_shape (mon : string) (n : nat) : list (ascii -> bool) :=
  literal false (str mon) ++ [is_char "."; is_space] ++ repeat is_digit n
  ++ [is_char ","; is_space] ++ repeat is_digit 4.

(** A date of this shape at the start of [s], with no word character
    directly after it. *)
Definition date_try (mon : string) (n : nat) (s : text) : option text :=
  match split_shape (date_shape mon n) s with
  | Some (w, r) => if word_opt (head r) then None else Some w
  | None => None
  end.

(** A date at the start of [s]. *)
Definition date_body (s : text) : option text :=
  first_some (fun mon => orelse (date_try mon 2 s) (date_try mon 1 s)) months.

(** The date rule at one position: the marker [(45)], whitespace, the
    heading [Date of Patent:], whitespace, a date. *)
Definition date_at (s : text) : option text :=
  match after_prefix false (str "(45)") s with
  | Some a =>
      match after_prefix false (str "Date of Patent:") (lstrip_ws a) with
      | Some b => date_body (lstrip_ws b)
      | None => None
      end
  | None => None
  end.

Definition date_spec (t : text) : text :=
  match first_match date_at t with
  | Some g => g
  | None => str "Date N/A"
  end.

(** Where the abstract ends. *)
Definition abstract_end (s : text) : bool := at_blank_line s || at_end s.

(** The abstract rule at one position: the heading with its colon, when
    something follows the colon; the heading alone otherwise. *)
Definition abstract_at (s : text) : option text :=
  orelse (capture abstract_end (after_prefix true (str "Abstract:") s))
         (capture abstract_end (after_prefix true (str "Abstract") s)).

Definition abstract_spec (t : text) : text :=
  match first_match abstract_at t with
  | Some g => strip g
  | None => str "Abstract N/A"
  end.

(** The abstract rule of [CVRT3.0.py] at one position: the heading
    [Abstract], or [Abstrac] when nothing follows the [t]; a colon after
    the heading is not part of it. *)
Definition cvrt3_abstract_at (s : text) : option text :=
  orelse (capture abstract_end (after_prefix true (str "Abstract") s))
         (capture abstract_end (after_prefix true (str "Abstrac") s)).

Definition cvrt3_abstract_spec (t : text) : text :=
  match first_match cvrt3_abstract_at t with
  | Some g => strip g
  | None => str "Abstract N/A"
  end.

(** The abstract of the tuple of a legacy extractor. *)
Definition abstract_of (fields : text * text * text * text * text) : text :=
  snd fields.

(** The sample date line of a patent front page. *)
Definition date_sample : text := str "(45) Date of Patent: Jan. 5, 2021".

(* ===================================================================== *)
(** ** The legacy variant of [convert_pdf_to_images] *)
(* ===================================================================== *)

(** [CVRT3.0.py] and [Patent-anim2.py] have one and the same converter: the
    pages are counted with [enumerate(images)] and named with [i + 1], the
    paths are built with [os.path.join], and the text of a page is appended
    to [text_data] before its file is written. *)
Module Legacy.

Section Pipeline.

Variable convert_from_path : Path -> Path -> Z -> result (list Image).
Variable image_to_string : Image -> result text.
Variable writable : Path -> bool.
Variable meipass : option Path.

Local Open Scope pipeline_scope.

Fixpoint convert_loop (output_folder : Path) (items : list (nat * Image))
    (image_paths : list Path) (text_data : list text)
    : M (list Path * list text) :=
  match items with
  | [] => ret (image_paths, text_data)
  | (i, image) :: items' =>
      let full_image_path := joinpath output_folder (page_png (i + 1)) in
      save_image writable image full_image_path ;;
      let* (left_column, right_column) := lift (split_image image) in
      let left_image_path := joinpath output_folder (page_col1 (i + 1)) in
      let right_image_path := joinpath output_folder (page_col2 (i + 1)) in
      save_image writable left_column left_image_path ;;
      save_image writable right_column right_image_path ;;
      let* left_text := extract_text_from_image image_to_string left_column in
      let* right_text :=
        extract_text_from_image image_to_string right_column in
      let combined_text := left_text ++ [nl; nl] ++ right_text in
      let text_data := text_data ++ [combined_text] in
      let text_filename := page_txt (i + 1) in
      let text_path := joinpath output_folder text_filename in
      write_text writable text_path combined_text ;;
      let image_paths := image_paths ++ [full_image_path] in
      convert_loop output_folder items' image_paths text_data
  end.

(** [os.path.join(sys._MEIPASS, 'poppler')], or the placeholder. *)
Definition poppler_path : Path :=
  match meipass with
  | Some p => joinpath p "poppler"
  | None => ["path"; "to"; "your"; "poppler"]%string
  end.

Definition convert_pdf_to_images (pdf_path output_folder : Path)
    : M (list Path * list text) :=
  let dpi_value := 600%Z in
  let* images :=
    lift (convert_from_path pdf_path poppler_path dpi_value) in
  let image_paths := [] in
  let text_data := [] in
  convert_loop output_folder
    (show_progress (enumerate 0 images) "Converting PDF Pages to Images")
    image_paths text_data.

End Pipeline.

End Legacy.

(** The left half of an image, and what is left of it: the two columns of a
    page. *)
Definition left_crop (image : Image) : Image :=
  mkImage (width image / 2, height image)%Z (fun x y => pixel image x y).

Definition right_crop (image : Image) : Image :=
  mkImage (width image - width image / 2, height image)%Z
          (fun x y => pixel image (width image / 2 + x) y)%Z.

(** The endings of the four files of a page, and the four files of page
    [i] in [output_dir]. *)
Definition endings : list string :=
  [".png"; "_col1.png"; "_col2.png"; ".txt"]%string.

Definition artifacts (output_dir : Path) (i : nat) : list Path :=
  map (fun ending => joinpath output_dir (page_name i ending)) endings.

(* ===================================================================== *)
(** ** PowerPoint and [modify_active_ppt] *)
(* ===================================================================== *)

(** [modify_active_ppt] drives PowerPoint through COM. The model keeps the
    part of the object model that the code reads and writes: a presentation
    is its list of slides and the list of slides of its last [Save]; a slide
    is its layout, its background and its shapes; a shape holds what the
    code gives it. An attribute that the code does not set is [None]: the
    application's default. The calls fail where the object model says so
    (a slide index out of range, no active presentation) or where the
    environment says so (a picture that cannot be loaded); all other calls
    are taken to succeed. *)

(** [s.find(sub)]: the lowest index at which [sub] occurs in [s], or -1. *)
Fixpoint find_from (i : Z) (sub s : text) : Z :=
  match after_prefix false sub s with
  | Some _ => i
  | None =>
      match s with
      | _ :: s' => find_from (i + 1) sub s'
      | [] => (-1)%Z
      end
  end.

Definition find (s sub : text) : Z := find_from 0 sub s.

(** [len(s)] *)
Definition len (s : text) : Z := Z.of_nat (length s).

(** The exceptions of [modify_active_ppt] and [main]. *)
Inductive exn : Type :=
| RuntimeError (message : string)
| com_error                     (* raised by a COM call *)
| NotADirectoryError            (* raised by [shutil.rmtree] *)
| OSError                       (* raised by [shutil.rmtree] on a refusal *)
| FileExistsError               (* raised by [Path.mkdir] *)
| PipelineError (e : error).    (* raised in [convert_pdf_to_images] *)

Inductive outcome (A : Type) : Type :=
| Returned (a : A)
| Raised (e : exn).
Arguments Returned {A} a.
Arguments Raised {A} e.

(** A [TextRange]: its text, the font attributes of the whole range, and
    the sub-ranges [Characters(start, length)] that were made bold. *)
Record TextRange : Type := mkTextRange {
  Text : text;
  FontBold : option bool;
  FontSize : option Q;
  FontName : option string;
  FontColorRGB : option Z;
  BoldCharacters : list (Z * Z)
}.

(** Left, Top, Width, Height *)
Abbreviation Box := (Q * Q * Q * Q)%type.

Inductive Shape : Type :=
| Picture (FileName : Path) (LinkToFile SaveWithDocument : bool) (box : Box)
          (name : string)
| Textbox (Orientation : Z) (box : Box) (TextFrame : TextRange)
| Line (BeginX BeginY EndX EndY : Q) (ForeColorRGB : Z) (Weight : Q).

Record Slide : Type := mkSlide {
  Layout : Z;
  FollowMasterBackground : bool;
  BackgroundSolid : bool;
  BackgroundRGB : option Z;
  Shapes : list Shape
}.

Record Presentation : Type := mkPresentation {
  Slides : list Slide;
  SavedSlides : option (list Slide)
}.

(** A slide as [Slides.Add] creates it. *)
Definition new_slide (layout : Z) : Slide := mkSlide layout true false None [].

(** Code that reads and writes a state and may raise; the state survives
    a raise. *)
Definition St (S A : Type) : Type := S -> outcome A * S.

Definition retD {S A} (a : A) : St S A := fun st => (Returned a, st).

Definition bindD {S A B} (c : St S A) (f : A -> St S B) : St S B :=
  fun st =>
    match c st with
    | (Returned a, st') => f a st'
    | (Raised e, st') => (Raised e, st')
    end.

Declare Scope ppt_scope.
Delimit Scope ppt_scope with ppt.
Notation "'let*' x ':=' c 'in' k" := (bindD c (fun x => k))
  (at level 10, x pattern, c at level 100, k at level 200) : ppt_scope.
Notation "c ';;' k" := (bindD c (fun _ => k))
  (at level 100, k at level 200, right associativity) : ppt_scope.

(** Calls on the presentation. *)
Abbreviation D := (St Presentation).

(** [for x in l: body(x)] *)
Fixpoint for_each {A} (l : list A) (body : A -> D unit) : D unit :=
  match l with
  | [] => retD tt
  | a :: l' => bindD (body a) (fun _ => for_each l' body)
  end.

(** [range(start, stop, -1)] *)
Definition range_down (start stop : nat) : list nat :=
  rev (seq (stop + 1) (start - stop)).

(** [presentation.Slides.Count] *)
Definition Count : D nat := fun pres => (Returned (length (Slides pres)), pres).

(** [presentation.Slides(index).Delete()], with indices from 1. *)
Definition Delete (index : nat) : D unit :=
  fun pres =>
    if (1 <=? index)%nat && (index <=? length (Slides pres))%nat then
      (Returned tt,
       mkPresentation (delete (index - 1) (Slides pres)) (SavedSlides pres))
    else (Raised com_error, pres).

(** [presentation.Slides.Add(index, layout)]: the new slide is at [index];
    the result stands for the slide object. *)
Definition Add (index : nat) (layout : Z) : D nat :=
  fun pres =>
    if (1 <=? index)%nat && (index <=? length (Slides pres) + 1)%nat then
      (Returned index,
       mkPresentation
         (take (index - 1) (Slides pres) ++ new_slide layout
          :: drop (index - 1) (Slides pres))
         (SavedSlides pres))
    else (Raised com_error, pres).

(** An assignment to, or a call on, the slide object [slide]. *)
Definition on_slide (slide : nat) (f : Slide -> Slide) : D unit :=
  fun pres =>
    match Slides pres !! (slide - 1) with
    | Some sl =>
        (Returned tt,
         mkPresentation (<[slide - 1 := f sl]> (Slides pres))
           (SavedSlides pres))
    | None => (Raised com_error, pres)
    end.

Definition set_FollowMasterBackground (b : bool) (sl : Slide) : Slide :=
  mkSlide (Layout sl) b (BackgroundSolid sl) (BackgroundRGB sl) (Shapes sl).

Definition Solid (sl : Slide) : Slide :=
  mkSlide (Layout sl) (FollowMasterBackground sl) true (BackgroundRGB sl)
    (Shapes sl).

Definition set_BackgroundRGB (rgb : Z) (sl : Slide) : Slide :=
  mkSlide (Layout sl) (FollowMasterBackground sl) (BackgroundSolid sl)
    (Some rgb) (Shapes sl).

Definition add_shape (shape : Shape) (sl : Slide) : Slide :=
  mkSlide (Layout sl) (FollowMasterBackground sl) (BackgroundSolid sl)
    (BackgroundRGB sl) (Shapes sl ++ [shape]).

(** [presentation.Save()] *)
Definition Save : D unit :=
  fun pres => (Returned tt, mkPresentation (Slides pres) (Some (Slides pres))).

Section PowerPoint.

(** Whether [import win32com.client] succeeded. *)
Variable win32 : bool.

(** Whether PowerPoint can load a picture from a path. *)
Variable picture_loads : Path -> bool.

(** The text that PowerPoint returns for a text that was assigned to a
    [TextRange]. *)
Variable Text_read_back : text -> text.

(** The [Top] and the [Height] that PowerPoint returns for a shape. *)
Variable Top_read_back Height_read_back : Shape -> Q.

Local Open Scope ppt_scope.

(** [slide.Shapes.AddPicture(...)], with the name given to the picture. *)
Definition AddPicture (slide : nat) (FileName : Path)
    (LinkToFile SaveWithDocument : bool) (box : Box) (name : string)
    : D unit :=
  if picture_loads FileName then
    on_slide slide
      (add_shape (Picture FileName LinkToFile SaveWithDocument box name))
  else fun pres => (Raised com_error, pres).

(** The title box, with its text and font. *)
Definition title_shape (info : PatentInfo) : Shape :=
  Textbox 1 (50, 40, 400, 50)%Q
    (mkTextRange (title info) (Some true) (Some 16%Q) (Some "Calibri"%string)
       (Some 0xFFFFFF%Z) []).

(** [f"PATENT #: {info.number}     {info.date}"] *)
Definition patent_line (info : PatentInfo) : text :=
  str "PATENT #: " ++ number info ++ str "     " ++ date info.

(** The ranges of the patent line that are made bold. *)
Definition patent_bold (info : PatentInfo) : list (Z * Z) :=
  let start_pos := find (Text_read_back (patent_line info)) (number info) in
  if (start_pos =? -1)%Z then []
  else [((start_pos + 1)%Z, len (number info))].

Definition patent_shape (info : PatentInfo) : Shape :=
  Textbox 1 (50, 120, 400, 30)%Q
    (mkTextRange (patent_line info) None (Some 16%Q) (Some "Calibri"%string)
       (Some 0xD3D3D3%Z) (patent_bold info)).

(** [f"INVENTORS: {info.inventors}"] *)
Definition inventors_line (info : PatentInfo) : text :=
  str "INVENTORS: " ++ inventors info.

Definition inventors_bold (info : PatentInfo) : list (Z * Z) :=
  let inventors_start := (len (str "INVENTORS: ") + 1)%Z in
  [(inventors_start, len (inventors info))].

Definition inventors_shape (info : PatentInfo) : Shape :=
  Textbox 1 (50, 160, 400, 60)%Q
    (mkTextRange (inventors_line info) None (Some 14%Q)
       (Some "Calibri"%string) (Some 0xD3D3D3%Z) (inventors_bold info)).

Definition line_shape (info : PatentInfo) : Shape :=
  let line_top :=
    (Top_read_back (inventors_shape info)
     + Height_read_back (inventors_shape info) + 10)%Q in
  Line 50 line_top 450 line_top 0x888888%Z 0.75%Q.

(** The slide of a page once the body of the second loop is through, and
    the slide as it is when the picture is about to be added. *)
Definition bare_slide : Slide := mkSlide 12 false true (Some 0x1C1C1C%Z) [].

Definition patent_slide (image_path : Path) (t : text) : Slide :=
  let info := parse_patent_info t in
  mkSlide 12 false true (Some 0x1C1C1C%Z)
    [Picture image_path false true (500, 50, 374.4, 459.6)%Q "patent_image";
     title_shape info; patent_shape info; inventors_shape info;
     line_shape info].

(** The body of the second loop of [modify_active_ppt]. *)
Definition add_patent_slide (image_path : Path) (t : text) : D unit :=
  let* count := Count in
  let* slide := Add (count + 1) 12 in
  on_slide slide (set_FollowMasterBackground false) ;;
  on_slide slide Solid ;;
  on_slide slide (set_BackgroundRGB 0x1C1C1C) ;;
  let info := parse_patent_info t in
  AddPicture slide image_path false true (500, 50, 374.4, 459.6)%Q
    "patent_image" ;;
  on_slide slide (add_shape (title_shape info)) ;;
  on_slide slide (add_shape (patent_shape info)) ;;
  on_slide slide (add_shape (inventors_shape info)) ;;
  on_slide slide (add_shape (line_shape info)).

(** [modify_active_ppt], on the active presentation. *)
Definition update_presentation (images : list Path) (texts : list text)
    : D unit :=
  let* count := Count in
  for_each (range_down count 1) (fun slide_index => Delete slide_index) ;;
  for_each (show_progress (zip images texts) "Updating slides")
    (fun '(image_path, t) => add_patent_slide image_path t) ;;
  Save.

(** [modify_active_ppt]: the state is PowerPoint's active presentation,
    [None] when there is none. *)
Definition modify_active_ppt (images : list Path) (texts : list text)
    (app : option Presentation) : outcome unit * option Presentation :=
  if negb win32 then
    (Raised (RuntimeError "win32com is required for PowerPoint automation"),
     app)
  else
    match app with
    | None => (Raised com_error, app)
    | Some presentation =>
        let '(r, presentation') :=
          update_presentation images texts presentation in
        (r, Some presentation')
    end.

End PowerPoint.

(** The files that a slide shows, and the texts of its boxes, in the order
    of the shapes. *)
Definition pictures (sl : Slide) : list Path :=
  omap (fun shape => match shape with
                     | Picture file _ _ _ _ => Some file
                     | _ => None
                     end) (Shapes sl).

Definition box_texts (sl : Slide) : list text :=
  omap (fun shape => match shape with
                     | Textbox _ _ range => Some (Text range)
                     | _ => None
                     end) (Shapes sl).

(** The characters [start .. start + length - 1] of a text, counted from 1
    as [TextRange.Characters] counts them. *)
Definition characters (start length : Z) (s : text) : text :=
  take (Z.to_nat length) (drop (Z.to_nat (start - 1)) s).

(* ===================================================================== *)
(** ** The abstract box of [Patent-anim2.py] *)
(* ===================================================================== *)

(** [Patent-anim2.py] adds a box for the abstract, with the font size 14 and
    automatic sizing, and then reduces the font size while the box is higher
    than 200 points and the size is above 8. *)
Module Patent_anim2_slides.

Section Fit.

(** The height that PowerPoint gives the abstract box when its text has a
    font size. *)
Variable Height_at : Z -> Q.

(** [abstract_shape.Height > max_height and
    abstract_shape.TextFrame.TextRange.Font.Size > 8] *)
Definition overflows (size : Z) : bool :=
  let max_height := 200%Q in
  negb (Qle_bool (Height_at size) max_height) && (8 <? size)%Z.

(** The [while] loop, from the font size [size]: [fuel] bounds the number
    of its rounds. *)
Fixpoint shrink (fuel : nat) (size : Z) : option Z :=
  if overflows size then
    match fuel with
    | O => None
    | S fuel' => shrink fuel' (size - 1)
    end
  else Some size.

End Fit.

End Patent_anim2_slides.

(* ===================================================================== *)
(** ** [main] *)
(* ===================================================================== *)

(** What [main] acts on: the files and the directories of the file system,
    PowerPoint's active presentation ([None] when there is none) and the
    lines printed. *)
Record World : Type := mkWorld {
  files : FS;
  directories : gset Path;
  powerpoint : option Presentation;
  stdout : list string
}.

(** [path.exists()] *)
Definition path_exists (path : Path) : St World bool :=
  fun w =>
    (Returned (bool_decide (path ∈ directories w)
               || bool_decide (is_Some (files w !! path))), w).

(** An entry of the tree under [path] that [shutil.rmtree] does not get
    removed: [survives] is the answer of the operating system, for a file in
    use, a file or a directory that may not be removed, a symbolic link in
    the place of the directory (then nothing under it is removed), and for
    what [rmtree] had not reached when it raised. *)
Definition stuck (survives : Path -> bool) (path entry : Path) : Prop :=
  path `prefix_of` entry /\ survives entry = true.

(** [shutil.rmtree(path)]: a path that is no directory raises. Else the
    directory goes with all that is under it, unless an entry survives: then
    [rmtree] raises, and the directory stays with the entries that
    survive. *)
Definition rmtree (survives : Path -> bool) (path : Path) : St World unit :=
  fun w =>
    if bool_decide (path ∈ directories w) then
      if bool_decide
           (filter (fun entry => stuck survives path (fst entry)) (files w) = ∅
            /\ filter (stuck survives path) (directories w) = ∅)
      then
        (Returned tt,
         mkWorld (filter (fun entry => ~ path `prefix_of` fst entry) (files w))
                 (filter (fun d => ~ path `prefix_of` d) (directories w))
                 (powerpoint w) (stdout w))
      else
        (Raised OSError,
         mkWorld
           (filter (fun entry => ~ path `prefix_of` fst entry
                                 \/ survives (fst entry) = true) (files w))
           (filter (fun d => ~ path `prefix_of` d \/ survives d = true
                             \/ d = path) (directories w))
           (powerpoint w) (stdout w))
    else (Raised NotADirectoryError, w).

(** [path.mkdir()], for a path in an existing directory. *)
Definition mkdir (path : Path) : St World unit :=
  fun w =>
    if bool_decide (path ∈ directories w)
       || bool_decide (is_Some (files w !! path))
    then (Raised FileExistsError, w)
    else (Returned tt,
          mkWorld (files w) ({[path]} ∪ directories w) (powerpoint w)
            (stdout w)).

(** [print(line)] *)
Definition print (line : string) : St World unit :=
  fun w =>
    (Returned tt,
     mkWorld (files w) (directories w) (powerpoint w) (stdout w ++ [line])).

Section Main.

Variable convert_from_path : Path -> Path -> Z -> result (list Image).
Variable image_to_string : Image -> result text.
Variable writable : Path -> bool.
Variable meipass : option Path.
Variable win32 : bool.
Variable picture_loads : Path -> bool.
Variable Text_read_back : text -> text.
Variable Top_read_back Height_read_back : Shape -> Q.

(** The answer of the file dialog: the empty string when it is cancelled. *)
Variable askopenfilename : string.

(** [Path(filename)] *)
Variable Path_of : string -> Path.

(** What the operating system does not let [shutil.rmtree] remove. *)
Variable survives : Path -> bool.

Local Open Scope ppt_scope.

Definition select_pdf_file : St World (option Path) :=
  let filename := askopenfilename in
  retD (if (filename =? "")%string then None else Some (Path_of filename)).

(** [convert_pdf_to_images] on the files of the world. *)
Definition call_convert_pdf_to_images (pdf_path output_dir : Path)
    : St World (list Path * list text) :=
  fun w =>
    match convert_pdf_to_images convert_from_path image_to_string writable
            meipass pdf_path output_dir (files w) with
    | (Ok a, fs) =>
        (Returned a, mkWorld fs (directories w) (powerpoint w) (stdout w))
    | (Err e, fs) =>
        (Raised (PipelineError e),
         mkWorld fs (directories w) (powerpoint w) (stdout w))
    end.

(** [modify_active_ppt] on the presentation of the world. *)
Definition call_modify_active_ppt (images : list Path) (texts : list text)
    : St World unit :=
  fun w =>
    let '(r, app) :=
      modify_active_ppt win32 picture_loads Text_read_back Top_read_back
        Height_read_back images texts (powerpoint w) in
    (r, mkWorld (files w) (directories w) app (stdout w)).

Definition main : St World unit :=
  let output_dir := ["images"%string] in
  let* there := path_exists output_dir in
  (if there then rmtree survives output_dir else retD tt) ;;
  mkdir output_dir ;;
  let* pdf_path := select_pdf_file in
  match pdf_path with
  | None => print "No file selected. Exiting."
  | Some pdf_path =>
      let* (image_paths, texts) :=
        call_convert_pdf_to_images pdf_path output_dir in
      call_modify_active_ppt image_paths texts
  end.

End Main.

(** The world once the output directory is set up: [output_dir] is a
    directory, and what was under it is gone. *)
Definition cleared (output_dir : Path) (w : World) : World :=
  if bool_decide (output_dir ∈ directories w) then
    mkWorld
      (filter (fun entry => ~ output_dir `prefix_of` fst entry) (files w))
      ({[output_dir]}
       ∪ filter (fun d => ~ output_dir `prefix_of` d) (directories w))
      (powerpoint w) (stdout w)
  else
    mkWorld (files w) ({[output_dir]} ∪ directories w) (powerpoint w)
      (stdout w).

(** A world on which [main] can be run: the directory [images] with a file
    of an earlier run, a file elsewhere, and a presentation of three
    slides; an operating system that refuses no removal, and one that keeps
    the file of the earlier run. *)
Module Desk.

Definition old_slide (n : Z) : Slide := mkSlide n true false None [].

Definition deck : Presentation :=
  mkPresentation [old_slide 1; old_slide 2; old_slide 3] None.

Definition world : World :=
  mkWorld
    (<[ ["images"; "page_9.txt"]%string := TextFile (str "stale") ]>
       {[ ["notes"; "todo.txt"]%string := TextFile (str "keep") ]})
    {[ ["images"%string]; ["notes"%string] ]}
    (Some deck) [].

Definition loads (path : Path) : bool := true.

Definition as_assigned (t : text) : text := t.

Definition top_of (shape : Shape) : Q :=
  match shape with
  | Picture _ _ _ (_, y, _, _) _ | Textbox _ (_, y, _, _) _ => y
  | Line _ y _ _ _ _ => y
  end.

Definition height_of (shape : Shape) : Q :=
  match shape with
  | Picture _ _ _ (_, _, _, h) _ | Textbox _ (_, _, _, h) _ => h
  | Line _ _ _ _ _ _ => 0
  end.

Definition parts (filename : string) : Path := [filename].

Definition removes_all (path : Path) : bool := false.

Definition keeps_page_9 (path : Path) : bool :=
  bool_decide (path = ["images"; "page_9.txt"]%string).

End Desk.

(* ===================================================================== *)
(** * Properties *)
(* ===================================================================== *)

(* ===================================================================== *)
(** ** Characters *)
(* ===================================================================== *)

Lemma all_ascii_complete (c : ascii) : In c all_ascii.
Proof.
  unfold all_ascii. rewrite <- (ascii_nat_embedding c).
  apply in_map, in_seq. pose proof (nat_ascii_bounded c). lia.
Qed.

(** A test that holds on the 256 code points holds on every character. *)
Lemma ascii_forall (P : ascii -> bool) :
  forallb P all_ascii = true -> forall c, P c = true.
Proof.
  intros H c. rewrite forallb_forall in H. apply H, all_ascii_complete.
Qed.

Lemma ascii_forall_eq (f g : ascii -> bool) :
  forallb (fun c => Bool.eqb (f c) (g c)) all_ascii = true ->
  forall c, f c = g c.
Proof.
  intros H c. apply Bool.eqb_prop.
  apply (ascii_forall (fun c => Bool.eqb (f c) (g c)) H).
Qed.

(** Case folding moves no character into or out of a class. *)
Lemma is_space_fold (c : ascii) : is_space (fold_case c) = is_space c.
Proof. revert c. apply ascii_forall_eq. vm_compute. reflexivity. Qed.

Lemma is_digit_fold (c : ascii) : is_digit (fold_case c) = is_digit c.
Proof. revert c. apply ascii_forall_eq. vm_compute. reflexivity. Qed.

Lemma is_word_fold (c : ascii) : is_word (fold_case c) = is_word c.
Proof. revert c. apply ascii_forall_eq. vm_compute. reflexivity. Qed.

(** The literals of the patterns that are not letters match themselves
    only, with or without [re.IGNORECASE]. *)
Lemma same_char_lparen (x : ascii) :
  same_char true x "("%char = bool_decide (x = "("%char).
Proof. revert x. apply ascii_forall_eq. vm_compute. reflexivity. Qed.

Lemma same_char_rparen (x : ascii) :
  same_char true x ")"%char = bool_decide (x = ")"%char).
Proof. revert x. apply ascii_forall_eq. vm_compute. reflexivity. Qed.

Lemma same_char_nl (x : ascii) :
  same_char true x nl = bool_decide (x = nl).
Proof. revert x. apply ascii_forall_eq. vm_compute. reflexivity. Qed.

(* ===================================================================== *)
(** ** The column segmenter *)
(* ===================================================================== *)



(** The two crops of an image that has a size. *)
Lemma split_image_defined (image : Image) :
  (0 <= width image)%Z -> (0 <= height image)%Z ->
  split_image image = Ok (left_crop image, right_crop image).
Proof.
  destruct image as [[w h] px];
    unfold width, height, split_image, left_crop, right_crop; simpl.
  intros Hw Hh.
  assert (Hhalf : (0 <= w / 2 <= w)%Z).
  { split; [apply Z.div_pos; lia | apply Z.div_le_upper_bound; lia]. }
  destruct (Z.ltb_spec (w / 2) 0) as [Hneg | _]; [lia |].
  destruct (Z.ltb_spec h 0) as [Hneg | _]; [lia |].
  destruct (Z.ltb_spec w (w / 2)) as [Hneg | _]; [lia |].
  rewrite !Z.sub_0_r. reflexivity.
Qed.

(** What the crops of a page show of its size. *)
Lemma split_image_sizes (image l r : Image) :
  split_image image = Ok (l, r) ->
  (0 <= width image / 2)%Z /\ (0 <= height image)%Z
  /\ width l = (width image / 2)%Z.
Proof.
  destruct image as [[w h] px]. unfold split_image, crop, width, height; simpl.
  destruct (Z.ltb_spec (w / 2) 0) as [| Hhalf]; [discriminate |].
  destruct (Z.ltb_spec h 0) as [| Hh]; [discriminate |].
  destruct (Z.ltb_spec w (w / 2)); [discriminate |].
  intros [= <- <-]. simpl. repeat split; lia.
Qed.

(** A page of two pixels across and one down has pixels, and so have its
    two columns. *)
Lemma columns_have_pixels (image : Image) :
  (2 <= width image)%Z -> (1 <= height image)%Z ->
  without_pixels image = false
  /\ without_pixels (left_crop image) = false
  /\ without_pixels (right_crop image) = false.
Proof.
  destruct image as [[w h] px].
  unfold without_pixels, left_crop, right_crop, width, height; simpl.
  intros Hw Hh.
  assert (Hhalf : (1 <= w / 2)%Z) by (apply Z.div_le_lower_bound; lia).
  assert (Hrest : (w / 2 < w)%Z) by (apply Z.div_lt; lia).
  repeat split; apply orb_false_intro; apply Z.eqb_neq; lia.
Qed.

(* ===================================================================== *)
(** ** Artifact names *)
(* ===================================================================== *)

Lemma str_app (a b : string) : str (a ++ b)%string = str a ++ str b.
Proof. induction a as [| c a IH]; simpl; [reflexivity | now rewrite IH]. Qed.

Lemma str_inj (a b : string) : str a = str b -> a = b.
Proof.
  intros H. rewrite <- (string_of_list_ascii_of_string a).
  rewrite <- (string_of_list_ascii_of_string b). unfold str in H. now rewrite H.
Qed.

Lemma decimal_inj (i j : nat) : decimal i = decimal j -> i = j.
Proof.
  unfold decimal. intros H. apply DecimalNat.Unsigned.to_uint_inj.
  assert (E : Some (Nat.to_uint i) = Some (Nat.to_uint j)).
  { rewrite <- !NilEmpty.usu. now rewrite H. }
  now injection E.
Qed.

Lemma page_name_inj (i j : nat) (ending : string) :
  page_name i ending = page_name j ending -> i = j.
Proof.
  unfold page_name. intros H. apply (f_equal str) in H.
  rewrite !str_app in H.
  apply app_inv_head, app_inv_tail in H.
  now apply decimal_inj, str_inj.
Qed.

Lemma page_name_last (i j : nat) (e1 e2 : string) (c1 c2 : ascii) :
  c1 <> c2 ->
  page_name i (e1 ++ String c1 "") <> page_name j (e2 ++ String c2 "").
Proof.
  intros Hne H. unfold page_name in H. apply (f_equal str) in H.
  rewrite !str_app in H. apply app_inv_head in H.
  change (str (String c1 "")) with [c1] in H.
  change (str (String c2 "")) with [c2] in H.
  rewrite !app_assoc in H.
  apply app_inj_tail in H. destruct H as [_ H]. congruence.
Qed.

Lemma joinpath_inj (p : Path) (a b : string) :
  joinpath p a = joinpath p b -> a = b.
Proof. unfold joinpath. intros H. apply app_inv_head in H. congruence. Qed.

Lemma txt_ne_png (i j : nat) : page_txt i <> page_png j.
Proof. apply (page_name_last i j ".tx" ".pn"); discriminate. Qed.

Lemma txt_ne_col1 (i j : nat) : page_txt i <> page_col1 j.
Proof. apply (page_name_last i j ".tx" "_col1.pn"); discriminate. Qed.

Lemma txt_ne_col2 (i j : nat) : page_txt i <> page_col2 j.
Proof. apply (page_name_last i j ".tx" "_col2.pn"); discriminate. Qed.

Lemma page_txt_inj (i j : nat) : page_txt i = page_txt j -> i = j.
Proof. apply (page_name_inj i j ".txt"). Qed.

(* ===================================================================== *)
(** ** The page pipeline *)
(* ===================================================================== *)

Section PipelineFacts.

Variable convert_from_path : Path -> Path -> Z -> result (list Image).
Variable image_to_string : Image -> result text.
Variable writable : Path -> bool.
Variable meipass : option Path.

Local Abbreviation run_page := (process_page image_to_string writable).
Local Abbreviation run_loop := (convert_loop image_to_string writable).
Local Abbreviation run_convert :=
  (convert_pdf_to_images convert_from_path image_to_string writable meipass).
Local Abbreviation text_of := (page_text image_to_string).

Lemma write_file_ok path f fs u fs' :
  write_file writable path f fs = (Ok u, fs') -> fs' = <[path := f]> fs.
Proof.
  unfold write_file. destruct (writable path); intros H; now inversion H.
Qed.

Lemma save_image_ok image path fs u fs' :
  save_image writable image path fs = (Ok u, fs') ->
  fs' = <[path := ImageFile image]> fs /\ without_pixels image = false.
Proof.
  unfold save_image.
  destruct (writable path); [| discriminate].
  destruct (without_pixels image); [discriminate |].
  intros H; now inversion H.
Qed.

(** A successful page: its results, and the four files it leaves. *)
Lemma process_page_ok output_dir i image fs p t fs' :
  run_page output_dir i image fs = (Ok (p, t), fs') ->
  p = joinpath output_dir (page_png i)
  /\ text_of image t
  /\ fs' !! joinpath output_dir (page_txt i) = Some (TextFile t)
  /\ forall j, j <> i ->
       fs' !! joinpath output_dir (page_txt j)
       = fs !! joinpath output_dir (page_txt j).
Proof.
  unfold process_page, bind, write_text,
    extract_text_from_image, lift, ret. cbv zeta.
  destruct (save_image writable image (joinpath output_dir (page_png i)) fs)
    as [[[] | e] fs1] eqn:W1; [| discriminate].
  destruct (split_image image) as [[l r] | e] eqn:Hs; [| discriminate].
  destruct (save_image writable l (joinpath output_dir (page_col1 i)) fs1)
    as [[[] | e] fs2] eqn:W2; [| discriminate].
  destruct (save_image writable r (joinpath output_dir (page_col2 i)) fs2)
    as [[[] | e] fs3] eqn:W3; [| discriminate].
  destruct (image_to_string l) as [lt | e] eqn:Hl; [| discriminate].
  destruct (image_to_string r) as [rt | e] eqn:Hr; [| discriminate].
  destruct (write_file writable (joinpath output_dir (page_txt i))
              (TextFile (lt ++ [nl; nl] ++ rt)) fs3)
    as [[[] | e] fs4] eqn:W4; [| discriminate].
  intros H; inversion H; subst; clear H.
  apply save_image_ok in W1, W2, W3. apply write_file_ok in W4.
  destruct W1 as [-> _], W2 as [-> _], W3 as [-> _]. subst.
  split; [reflexivity |]. split; [now exists l, r, lt, rt |].
  split; [apply lookup_insert_eq |].
  intros j Hj.
  rewrite lookup_insert_ne
    by (intros E; apply joinpath_inj, page_txt_inj in E; congruence).
  rewrite lookup_insert_ne
    by (intros E; apply joinpath_inj in E; symmetry in E;
        now apply txt_ne_col2 in E).
  rewrite lookup_insert_ne
    by (intros E; apply joinpath_inj in E; symmetry in E;
        now apply txt_ne_col1 in E).
  rewrite lookup_insert_ne
    by (intros E; apply joinpath_inj in E; symmetry in E;
        now apply txt_ne_png in E).
  reflexivity.
Qed.

(** A successful page is at least two pixels wide and one pixel high: the
    page and its left column were saved. *)
Lemma process_page_sized output_dir i image fs r fs' :
  run_page output_dir i image fs = (Ok r, fs') ->
  (2 <= width image)%Z /\ (1 <= height image)%Z.
Proof.
  unfold process_page, bind, lift. cbv zeta.
  destruct (save_image writable image (joinpath output_dir (page_png i)) fs)
    as [[[] | e] fs1] eqn:W1; [| discriminate].
  destruct (split_image image) as [[l rr] | e] eqn:Hs; [| discriminate].
  destruct (save_image writable l (joinpath output_dir (page_col1 i)) fs1)
    as [[[] | e] fs2] eqn:W2; [| discriminate].
  intros _.
  apply save_image_ok in W1, W2. destruct W1 as [_ W1], W2 as [_ W2].
  apply split_image_sizes in Hs. destruct Hs as (Hhalf & Hh & Hl).
  unfold without_pixels in W1, W2. rewrite Hl in W2.
  apply orb_false_elim in W1, W2.
  destruct W1 as [_ Hh0%Z.eqb_neq], W2 as [Hl0%Z.eqb_neq _].
  split; [| lia].
  pose proof (Z.div_mod (width image) 2 ltac:(lia)) as E.
  pose proof (Z.mod_pos_bound (width image) 2 ltac:(lia)) as B.
  lia.
Qed.

(** The loop invariant: the accumulators grow by one entry per page, in
    the order of the pages, and every page's text file stays as written. *)
Lemma convert_loop_ok output_dir images :
  forall i image_paths texts fs ps ts fs',
    run_loop output_dir (enumerate i images) image_paths texts fs
    = (Ok (ps, ts), fs') ->
    exists new_texts,
      ps = image_paths
           ++ map (fun j => joinpath output_dir (page_png j))
                  (seq i (length images))
      /\ ts = texts ++ new_texts
      /\ Forall2 text_of images new_texts
      /\ (forall k t, new_texts !! k = Some t ->
            fs' !! joinpath output_dir (page_txt (i + k))
            = Some (TextFile t))
      /\ (forall j, j < i ->
            fs' !! joinpath output_dir (page_txt j)
            = fs !! joinpath output_dir (page_txt j)).
Proof.
  induction images as [| image images IH]; intros i paths texts fs ps ts fs'.
  - simpl. unfold ret. intros H; inversion H; subst; clear H.
    exists []. rewrite !app_nil_r. repeat split; try constructor.
    intros k t Hk. now rewrite lookup_nil in Hk.
  - simpl. unfold bind at 1.
    destruct (run_page output_dir i image fs)
      as [[[p t] | e] fs1] eqn:Hp; [| discriminate].
    intros H. apply IH in H.
    destruct H as (new_texts & -> & -> & HF & Hfiles & Hframe).
    apply process_page_ok in Hp. destruct Hp as (-> & Ht & Htxt & Hothers).
    exists (t :: new_texts). rewrite <- !app_assoc. simpl.
    split; [reflexivity |]. split; [reflexivity |].
    split; [now constructor |]. split.
    + intros [| k] t' Hk.
      * simpl in Hk. inversion Hk; subst.
        rewrite Nat.add_0_r, Hframe by lia. exact Htxt.
      * simpl in Hk. replace (i + S k) with (S i + k) by lia.
        now apply Hfiles.
    + intros j Hj. rewrite Hframe by lia. apply Hothers. lia.
Qed.

Lemma convert_pdf_to_images_ok pdf_path output_dir fs ps ts fs' :
  run_convert pdf_path output_dir fs = (Ok (ps, ts), fs') ->
  exists images,
    convert_from_path pdf_path (poppler_path meipass) 600%Z = Ok images
    /\ ps = map (fun j => joinpath output_dir (page_png j))
                (seq 1 (length images))
    /\ Forall2 text_of images ts
    /\ (forall k t, ts !! k = Some t ->
          fs' !! joinpath output_dir (page_txt (S k)) = Some (TextFile t)).
Proof.
  unfold convert_pdf_to_images, bind at 1, lift, show_progress.
  destruct (convert_from_path pdf_path (poppler_path meipass) 600%Z)
    as [images | e]; [| discriminate].
  intros H. apply convert_loop_ok in H.
  destruct H as (new_texts & -> & -> & HF & Hfiles & _).
  exists images. simpl. repeat split; auto.
Qed.

(** A run succeeds when the document is rendered, every page is at least
    two pixels wide and one pixel high, so that the page and its two columns
    have pixels, the recognizer answers and the store accepts the writes. *)
Lemma convert_loop_succeeds output_dir images :
  (forall path, writable path = true) ->
  (forall image, exists t, image_to_string image = Ok t) ->
  Forall (fun image => (2 <= width image)%Z /\ (1 <= height image)%Z) images ->
  forall i image_paths texts fs,
    exists ps ts fs',
      run_loop output_dir (enumerate i images) image_paths texts fs
      = (Ok (ps, ts), fs').
Proof.
  intros Hw Hocr Hsize.
  induction Hsize as [| image images [Hwd Hht] _ IH];
    intros i image_paths texts fs.
  - simpl. unfold ret. eauto.
  - pose proof (split_image_defined image ltac:(lia) ltac:(lia)) as Hs.
    destruct (columns_have_pixels image Hwd Hht) as (Hp & Hpl & Hpr).
    destruct (Hocr (left_crop image)) as [lt Hl].
    destruct (Hocr (right_crop image)) as [rt Hr].
    simpl. unfold bind at 1.
    unfold process_page, bind, save_image, write_text, write_file,
      extract_text_from_image, lift, ret. cbv zeta.
    rewrite !Hw, Hp, Hs, Hpl, Hpr, Hl, Hr. apply IH.
Qed.

Lemma convert_loop_sized output_dir images :
  forall i image_paths texts fs r fs',
    run_loop output_dir (enumerate i images) image_paths texts fs
    = (Ok r, fs') ->
    Forall (fun image => (2 <= width image)%Z /\ (1 <= height image)%Z) images.
Proof.
  induction images as [| image images IH]; intros i ps ts fs r fs';
    [constructor |].
  simpl. unfold bind at 1.
  destruct (run_page output_dir i image fs)
    as [[[p t] | e] fs1] eqn:Hp; [| discriminate].
  intros H. constructor; [eapply process_page_sized; exact Hp |].
  eapply IH; exact H.
Qed.

Lemma convert_pdf_to_images_sized pdf_path output_dir images fs r fs' :
  convert_from_path pdf_path (poppler_path meipass) 600%Z = Ok images ->
  run_convert pdf_path output_dir fs = (Ok r, fs') ->
  Forall (fun image => (2 <= width image)%Z /\ (1 <= height image)%Z) images.
Proof.
  intros Hr.
  unfold convert_pdf_to_images, bind at 1, lift, show_progress. rewrite Hr.
  apply convert_loop_sized.
Qed.

Lemma convert_pdf_to_images_succeeds pdf_path output_dir images fs :
  convert_from_path pdf_path (poppler_path meipass) 600%Z = Ok images ->
  (forall path, writable path = true) ->
  (forall image, exists t, image_to_string image = Ok t) ->
  Forall (fun image => (2 <= width image)%Z /\ (1 <= height image)%Z) images ->
  exists ps ts fs',
    run_convert pdf_path output_dir fs = (Ok (ps, ts), fs').
Proof.
  intros Hr Hw Hocr Hsize.
  unfold convert_pdf_to_images, bind at 1, lift, show_progress. rewrite Hr.
  now apply convert_loop_succeeds.
Qed.

End PipelineFacts.

(** C1. A successful run of [convert_pdf_to_images] on a document that the
    renderer turns into N pages returns N image paths and N texts; the i-th
    path is [output_dir / page_{i}.png], for i = 1..N in increasing order,
    and the i-th text is the text of the i-th page of the document. *)
Theorem convert_pdf_to_images_page_order
    (convert_from_path : Path -> Path -> Z -> result (list Image))
    (image_to_string : Image -> result text)
    (writable : Path -> bool) (meipass : option Path)
    (pdf_path output_dir : Path) (fs fs' : FS)
    (image_paths : list Path) (texts : list text) :
  convert_pdf_to_images convert_from_path image_to_string writable meipass
    pdf_path output_dir fs = (Ok (image_paths, texts), fs') ->
  exists images,
    convert_from_path pdf_path (poppler_path meipass) 600%Z = Ok images
    /\ length image_paths = length images
    /\ length texts = length images
    /\ image_paths = map (fun i => joinpath output_dir (page_png i))
                         (seq 1 (length images))
    /\ (forall i, 1 <= i <= length images ->
          image_paths !! (i - 1) = Some (joinpath output_dir (page_png i)))
    /\ Forall2 (page_text image_to_string) images texts.
Proof.
  intros H. apply convert_pdf_to_images_ok in H.
  destruct H as (images & Hr & -> & HF & _).
  exists images. split; [exact Hr |].
  split; [now rewrite length_map, length_seq |].
  split; [symmetry; eapply Forall2_length; exact HF |].
  split; [reflexivity |]. split; [| exact HF].
  intros i Hi. rewrite list_lookup_fmap, lookup_seq_lt by lia.
  simpl. do 3 f_equal. lia.
Qed.

Lemma convert_pdf_to_images_page_order_witness :
  let run :=
    convert_pdf_to_images Sample.render Sample.recognize Sample.store_accepts
      None ["doc.pdf"%string] ["images"%string] ∅ in
  run = (Ok ([["images"; "page_1.png"]; ["images"; "page_2.png"]]%string,
             [str "ab" ++ [nl; nl] ++ str "ab";
              str "cde" ++ [nl; nl] ++ str "cde"]), snd run)
  /\ exists images,
       Sample.render ["doc.pdf"%string] (poppler_path None) 600%Z = Ok images
       /\ length images = 2.
Proof.
  intros run.
  assert (H1 : fst run
               = Ok ([["images"; "page_1.png"]; ["images"; "page_2.png"]]%string,
                     [str "ab" ++ [nl; nl] ++ str "ab";
                      str "cde" ++ [nl; nl] ++ str "cde"])).
  { lazy. reflexivity. }
  pose proof (surjective_pairing run) as H. rewrite H1 in H.
  split; [exact H |].
  destruct (convert_pdf_to_images_page_order _ _ _ _ _ _ _ _ _ _ H)
    as (images & Hr & Hlen & _).
  exists images. split; [exact Hr | now rewrite <- Hlen].
Defined.













(** C8. When rendering the document fails, [convert_pdf_to_images] raises the
    renderer's error before any page is processed: the file store is left as
    it was, and no page results are returned. *)
Theorem render_failure_aborts
    (convert_from_path : Path -> Path -> Z -> result (list Image))
    (image_to_string : Image -> result text)
    (writable : Path -> bool) (meipass : option Path)
    (pdf_path output_dir : Path) (fs : FS) (e : error) :
  convert_from_path pdf_path (poppler_path meipass) 600%Z = Err e ->
  convert_pdf_to_images convert_from_path image_to_string writable meipass
    pdf_path output_dir fs = (Err e, fs).
Proof.
  intros H. unfold convert_pdf_to_images, bind, lift. now rewrite H.
Qed.

Lemma render_failure_aborts_witness :
  Sample.broken_render ["doc.pdf"%string] (poppler_path None) 600%Z
  = Err RenderError
  /\ convert_pdf_to_images Sample.broken_render Sample.recognize
       Sample.store_accepts None ["doc.pdf"%string] ["images"%string] ∅
     = (Err RenderError, ∅).
Proof.
  split; [reflexivity |].
  apply (render_failure_aborts Sample.broken_render); reflexivity.
Defined.

(* ===================================================================== *)
(** ** Shapes, prefixes and spans *)
(* ===================================================================== *)

Lemma split_shape_app (sh : list (ascii -> bool)) (s w r : text) :
  split_shape sh s = Some (w, r) -> s = w ++ r /\ length w = length sh.
Proof.
  revert s w r. induction sh as [| test sh IH]; intros s w r; simpl.
  - intros [= <- <-]. split; reflexivity.
  - destruct s as [| x s]; [discriminate |].
    destruct (test x); [| discriminate].
    destruct (split_shape sh s) as [[w' r'] |] eqn:E; [| discriminate].
    intros [= <- <-]. destruct (IH _ _ _ E) as [-> Hl].
    split; [reflexivity | simpl; now rewrite Hl].
Qed.

(** Cutting by two shapes in a row. *)
Lemma split_shape_cat (sh1 sh2 : list (ascii -> bool)) (s : text) :
  split_shape (sh1 ++ sh2) s =
  match split_shape sh1 s with
  | Some (w1, r1) =>
      match split_shape sh2 r1 with
      | Some (w2, r2) => Some (w1 ++ w2, r2)
      | None => None
      end
  | None => None
  end.
Proof.
  revert s. induction sh1 as [| test sh1 IH]; intros s; simpl.
  - now destruct (split_shape sh2 s) as [[w2 r2] |].
  - destruct s as [| x s]; [reflexivity |].
    destruct (test x); [| reflexivity]. rewrite IH.
    destruct (split_shape sh1 s) as [[w1 r1] |]; [| reflexivity].
    now destruct (split_shape sh2 r1) as [[w2 r2] |].
Qed.

(** The matched prefix, recovered from the lengths as [re] does. *)
Lemma take_consumed (s w r : text) :
  s = w ++ r -> firstn (length s - length r) s = w.
Proof.
  intros ->. rewrite length_app.
  replace (length w + length r - length r) with (length w) by lia.
  apply take_app_length.
Qed.

Lemma after_prefix_nil (ic : bool) (s : text) : after_prefix ic [] s = Some s.
Proof. reflexivity. Qed.

Lemma after_prefix_cons (ic : bool) (c : ascii) (w : text) (x : ascii)
    (s : text) :
  after_prefix ic (c :: w) (x :: s)
  = if same_char ic x c then after_prefix ic w s else None.
Proof.
  unfold after_prefix. simpl. destruct (same_char ic x c); [| reflexivity].
  now destruct (split_shape (literal ic w) s) as [[w' r'] |].
Qed.

Lemma after_prefix_cons_nil (ic : bool) (c : ascii) (w : text) :
  after_prefix ic (c :: w) [] = None.
Proof. reflexivity. Qed.

Lemma after_prefix_cat (ic : bool) (w1 w2 s : text) :
  after_prefix ic (w1 ++ w2) s
  = match after_prefix ic w1 s with
    | Some r => after_prefix ic w2 r
    | None => None
    end.
Proof.
  unfold after_prefix, literal. rewrite map_app, split_shape_cat.
  destruct (split_shape _ s) as [[u1 r1] |]; [| reflexivity]. simpl.
  now destruct (split_shape _ r1) as [[u2 r2] |].
Qed.

Lemma after_prefix_suffix (ic : bool) (w s r : text) :
  after_prefix ic w s = Some r -> r `suffix_of` s.
Proof.
  unfold after_prefix.
  destruct (split_shape (literal ic w) s) as [[u r'] |] eqn:E; [| discriminate].
  intros [= <-]. apply split_shape_app in E. destruct E as [-> _].
  now exists u.
Qed.

(** Without [re.IGNORECASE] a heading is matched letter for letter. *)
Lemma after_prefix_exact (w s r : text) :
  after_prefix false w s = Some r <-> s = w ++ r.
Proof.
  revert s. induction w as [| c w IH]; intros s.
  - rewrite after_prefix_nil. simpl. split; [now intros [= ->] | now intros ->].
  - destruct s as [| x s]; [rewrite after_prefix_cons_nil; split; discriminate |].
    rewrite after_prefix_cons. unfold same_char. simpl.
    destruct (bool_decide_reflect (x = c)) as [-> | Hne].
    + rewrite IH. split; [now intros -> | now intros [= ->]].
    + split; [discriminate | intros [= -> _]; contradiction].
Qed.

Lemma contains_occurs (ic : bool) (w s : text) :
  contains ic w s = true <->
  exists u v, u ++ v = s /\ is_Some (after_prefix ic w v).
Proof.
  induction s as [| x s IH]; simpl.
  - destruct (after_prefix ic w []) eqn:E.
    + split; [| reflexivity]. intros _. exists [], []. rewrite E. eauto.
    + split; [discriminate |]. intros (u & v & Huv & Hs).
      apply app_eq_nil in Huv. destruct Huv as [-> ->].
      rewrite E in Hs. now destruct Hs.
  - destruct (after_prefix ic w (x :: s)) eqn:E.
    + split; [| reflexivity]. intros _. exists [], (x :: s). rewrite E. eauto.
    + rewrite IH. split.
      * intros (u & v & <- & Hs). exists (x :: u), v. eauto.
      * intros (u & v & Huv & Hs). destruct u as [| y u].
        -- simpl in Huv. subst v. rewrite E in Hs. now destruct Hs.
        -- injection Huv as -> <-. eauto.
Qed.

(** A text with the exact heading [w] somewhere in it. *)
Lemma contains_exact (w s : text) :
  contains false w s = true <-> exists u v, s = u ++ w ++ v.
Proof.
  rewrite contains_occurs. split.
  - intros (u & v & <- & [r Hr]). apply after_prefix_exact in Hr.
    subst v. now exists u, r.
  - intros (u & v & ->). exists u, (w ++ v). split; [reflexivity |].
    exists v. now apply after_prefix_exact.
Qed.

Lemma first_match_none {A} (f : text -> option A) (s : text) :
  (forall u v, u ++ v = s -> f v = None) -> first_match f s = None.
Proof.
  induction s as [| x s IH]; intros H; simpl.
  - now rewrite (H [] []).
  - rewrite (H [] (x :: s)) by reflexivity. apply IH.
    intros u v <-. now apply (H (x :: u) v).
Qed.

(** The positions before the first one where the rule applies are skipped. *)
Lemma first_match_skip {A} (f : text -> option A) (pre s : text) :
  (forall u v, u ++ v = pre -> v <> [] -> f (v ++ s) = None) ->
  first_match f (pre ++ s) = first_match f s.
Proof.
  induction pre as [| x pre IH]; intros H; [reflexivity |].
  pose proof (H [] (x :: pre) eq_refl ltac:(discriminate)) as H0.
  simpl in *. rewrite H0.
  apply IH. intros u v <- Hv. now apply (H (x :: u) v).
Qed.

Lemma skip_ws_nonempty (s : text) : s <> [] -> skip_ws s <> [].
Proof.
  induction s as [| c s IH]; [contradiction |]. intros _. simpl.
  destruct (is_space c); [| discriminate].
  destruct s as [| d s]; [discriminate |]. now apply IH.
Qed.

Lemma until_from_stop (stop : text -> bool) (s : text) :
  s = until stop s ++ from_stop stop s.
Proof.
  induction s as [| c s IH]; simpl.
  - now destruct (stop []).
  - destruct (stop (c :: s)); [reflexivity |]. simpl. now rewrite <- IH.
Qed.

Lemma span_from_stop (stop : text -> bool) (c : ascii) (s : text) :
  c :: s = span stop (c :: s) ++ from_stop stop s.
Proof. simpl. now rewrite <- until_from_stop. Qed.


(* ===================================================================== *)
(** ** The matcher on related texts *)
(* ===================================================================== *)

Section Related.

(** A relation on characters that no test of the matcher tells apart. *)
Variable ic : bool.
Variable cr : ascii -> ascii -> Prop.
Hypothesis cr_atom :
  forall a c c', cr c c' -> atom_match ic a c = atom_match ic a c'.

Lemma rep_greedy_rel {R R'} (RR : R -> R' -> Prop) (a : atom)
    (k : option ascii -> text -> option R)
    (k' : option ascii -> text -> option R') :
  (forall q q' u u', Forall2 cr u u' -> option_Forall2 RR (k q u) (k' q' u')) ->
  forall s s', Forall2 cr s s' ->
  forall lo hi p p',
    option_Forall2 RR (rep_greedy ic a lo hi p s k)
                      (rep_greedy ic a lo hi p' s' k').
Proof.
  intros Hk s s' Hs.
  induction Hs as [| c c' s s' Hc Hs IH]; intros lo hi p p'; simpl.
  - destruct (lo =? 0)%nat, (hi_zero hi); try constructor; now apply Hk.
  - assert (Hstop : option_Forall2 RR
                      (if (lo =? 0)%nat then k p (c :: s) else None)
                      (if (lo =? 0)%nat then k' p' (c' :: s') else None)).
    { destruct (lo =? 0)%nat; [apply Hk; now constructor | constructor]. }
    destruct (hi_zero hi); [exact Hstop |].
    rewrite (cr_atom a c c' Hc).
    destruct (atom_match ic a c'); [| exact Hstop].
    specialize (IH (Nat.pred lo) (hi_pred hi) (Some c) (Some c')).
    destruct IH; [now constructor | exact Hstop].
Qed.

Lemma rep_lazy_rel {R R'} (RR : R -> R' -> Prop) (a : atom)
    (k : option ascii -> text -> option R)
    (k' : option ascii -> text -> option R') :
  (forall q q' u u', Forall2 cr u u' -> option_Forall2 RR (k q u) (k' q' u')) ->
  forall s s', Forall2 cr s s' ->
  forall lo hi p p',
    option_Forall2 RR (rep_lazy ic a lo hi p s k)
                      (rep_lazy ic a lo hi p' s' k').
Proof.
  intros Hk s s' Hs.
  induction Hs as [| c c' s s' Hc Hs IH]; intros lo hi p p'; simpl.
  - destruct (lo =? 0)%nat.
    + pose proof (Hk p p' [] [] ltac:(constructor)) as H0.
      destruct H0; [now constructor |].
      destruct (hi_zero hi); constructor.
    + destruct (hi_zero hi); constructor.
  - assert (Hmore : option_Forall2 RR
      (if hi_zero hi then None
       else if atom_match ic a c
            then rep_lazy ic a (Nat.pred lo) (hi_pred hi) (Some c) s k
            else None)
      (if hi_zero hi then None
       else if atom_match ic a c'
            then rep_lazy ic a (Nat.pred lo) (hi_pred hi) (Some c') s' k'
            else None)).
    { destruct (hi_zero hi); [constructor |].
      rewrite (cr_atom a c c' Hc).
      destruct (atom_match ic a c'); [apply IH | constructor]. }
    destruct (lo =? 0)%nat; [| exact Hmore].
    pose proof (Hk p p' (c :: s) (c' :: s') ltac:(now constructor)) as H0.
    destruct H0; [now constructor | exact Hmore].
Qed.

(** Related positions and related continuations give related results. *)
Lemma run_rel (r : regex) :
  bound_free r = true ->
  forall {R R'} (RR : R -> R' -> Prop)
         (k : mstate -> option R) (k' : mstate -> option R') st st',
    state_rel cr st st' ->
    (forall st1 st1', state_rel cr st1 st1' ->
                      option_Forall2 RR (k st1) (k' st1')) ->
    option_Forall2 RR (run ic r st k) (run ic r st' k').
Proof.
  induction r as [| a | a lo hi g | r1 IH1 r2 IH2 | r1 IH1 r2 IH2
                  | r1 IH1 | r1 IH1 | |];
    intros Hb R R' RR k k' st st' Hst Hk; simpl in *.
  - now apply Hk.
  - destruct st as [q s g], st' as [q' s' g'], Hst as [Hs Hg]; simpl in *.
    destruct Hs as [| c c' s s' Hc Hs]; [constructor |].
    rewrite (cr_atom a c c' Hc).
    destruct (atom_match ic a c'); [| constructor].
    apply Hk. split; assumption.
  - destruct Hst as [Hs Hg].
    destruct g.
    + apply rep_greedy_rel; [| exact Hs].
      intros q q' u u' Hu. apply Hk. split; assumption.
    + apply rep_lazy_rel; [| exact Hs].
      intros q q' u u' Hu. apply Hk. split; assumption.
  - apply andb_prop in Hb. destruct Hb as [Hb1 Hb2].
    apply IH1; [assumption .. |].
    intros st1 st1' H1. now apply IH2.
  - apply andb_prop in Hb. destruct Hb as [Hb1 Hb2].
    pose proof (IH1 Hb1 _ _ RR k k' st st' Hst Hk) as H1.
    destruct H1; [now constructor |]. now apply IH2.
  - apply IH1; [assumption .. |].
    intros st1 st1' [Hs1 Hg1]. apply Hk. split; [exact Hs1 |]. simpl.
    constructor. destruct Hst as [Hs Hg].
    rewrite <- (Forall2_length _ _ _ Hs), <- (Forall2_length _ _ _ Hs1).
    now apply Forall2_take.
  - pose proof (IH1 Hb _ _ (fun _ _ : unit => True)
                  (fun _ => Some tt) (fun _ => Some tt) st st' Hst) as H1.
    destruct H1 as [x y _ |]; [| now apply Hk | constructor].
    intros; now constructor.
  - discriminate.
  - destruct st as [q s g], st' as [q' s' g'], Hst as [Hs Hg]; simpl in *.
    destruct Hs as [| c c' s s' Hc Hs]; [| constructor].
    apply Hk. split; [constructor | assumption].
Qed.

Lemma matched_rel (s s' : text) (st st' : mstate) :
  Forall2 cr s s' -> state_rel cr st st' ->
  option_Forall2 (match_rel cr) (matched s st) (matched s' st').
Proof.
  intros Hs [Hr Hg]. constructor. split; simpl; [| exact Hg].
  rewrite <- (Forall2_length _ _ _ Hs), <- (Forall2_length _ _ _ Hr).
  now apply Forall2_take.
Qed.

Lemma match_at_rel (r : regex) (p p' : option ascii) (s s' : text) :
  bound_free r = true -> Forall2 cr s s' ->
  option_Forall2 (match_rel cr) (match_at ic r p s) (match_at ic r p' s').
Proof.
  intros Hb Hs. unfold match_at. apply run_rel; [exact Hb | |].
  - split; [exact Hs | constructor].
  - intros st1 st1' H1. now apply matched_rel.
Qed.

Lemma search_from_rel (r : regex) (s s' : text) :
  bound_free r = true -> Forall2 cr s s' ->
  forall p p',
    option_Forall2 (match_rel cr) (search_from ic r p s)
                                  (search_from ic r p' s').
Proof.
  intros Hb Hs. induction Hs as [| c c' s s' Hc Hs IH]; intros p p'; simpl.
  - pose proof (match_at_rel r p p' [] [] Hb ltac:(constructor)) as H0.
    destruct H0; constructor; assumption.
  - pose proof (match_at_rel r p p' (c :: s) (c' :: s') Hb
                  ltac:(now constructor)) as H0.
    destruct H0; [now constructor | apply IH].
Qed.

End Related.

(* ===================================================================== *)
(** ** The pieces of the patterns *)
(* ===================================================================== *)

Lemma state_rel_eq (st st' : mstate) :
  rest st = rest st' -> grp st = grp st' -> state_rel eq st st'.
Proof.
  intros Hr Hg. split.
  - now apply list_eq_Forall2.
  - rewrite Hg. destruct (grp st'); constructor. now apply list_eq_Forall2.
Qed.

Lemma state_rel_eq_inv (st st' : mstate) :
  state_rel eq st st' -> rest st = rest st' /\ grp st = grp st'.
Proof.
  intros [Hr Hg]. split; [now apply list_eq_Forall2 |].
  destruct Hg as [x y H |]; [| reflexivity]. f_equal. now apply list_eq_Forall2.
Qed.

(** A pattern without [\b], followed by a continuation that does not look at
    the character before the position, does not look at it either. *)
Lemma pins_run {R} (ic : bool) (r : regex) (k : mstate -> option R) :
  bound_free r = true -> pins k -> pins (fun st => run ic r st k).
Proof.
  intros Hb Hk st st' Hr Hg.
  apply option_eq_Forall2.
  apply (run_rel ic eq); [congruence | exact Hb | now apply state_rel_eq |].
  intros st1 st1' H1. apply state_rel_eq_inv in H1. destruct H1 as [H1 H2].
  apply option_eq_Forall2. now apply Hk.
Qed.

Lemma pins_matched (s : text) : pins (matched s).
Proof. intros st st' Hr Hg. unfold matched. now rewrite Hr, Hg. Qed.

Lemma pins_at {R} (k : mstate -> option R) (p : option ascii) (s : text)
    (g : option text) :
  pins k -> k (MState p s g) = k (MState None s g).
Proof. intros Hk. now apply Hk. Qed.

Section Pieces.

Variable ic : bool.
Context {R : Type}.

Lemma run_seq (r1 r2 : regex) (st : mstate) (k : mstate -> option R) :
  run ic (Seq r1 r2) st k = run ic r1 st (fun st' => run ic r2 st' k).
Proof. reflexivity. Qed.

Lemma run_group (r1 : regex) (st : mstate) (k : mstate -> option R) :
  run ic (Group r1) st k =
  run ic r1 st (fun st' =>
    k (MState (prev st') (rest st')
         (Some (firstn (length (rest st) - length (rest st')) (rest st))))).
Proof. reflexivity. Qed.

Lemma run_rep_lazy (a : atom) (lo : nat) (hi : option nat) (st : mstate)
    (k : mstate -> option R) :
  run ic (Rep a lo hi false) st k =
  rep_lazy ic a lo hi (prev st) (rest st)
    (fun p s => k (MState p s (grp st))).
Proof. reflexivity. Qed.

(** A literal. *)
Lemma run_lits (w : text) (st : mstate) (k : mstate -> option R) :
  pins k ->
  run ic (lits w) st k =
  match after_prefix ic w (rest st) with
  | Some s' => k (MState None s' (grp st))
  | None => None
  end.
Proof.
  intros Hk. revert st. induction w as [| c w IH]; intros [p s g]; simpl.
  - now apply Hk.
  - destruct s as [| x s]; [reflexivity |].
    rewrite after_prefix_cons. destruct (same_char ic x c); [| reflexivity].
    now rewrite IH.
Qed.

(** A pattern of fixed shape. *)
Lemma rep_greedy_exact (a : atom) (n : nat) (p : option ascii) (s : text)
    (k : option ascii -> text -> option R) :
  (forall q q' u, k q u = k q' u) ->
  rep_greedy ic a n (Some n) p s k =
  match split_shape (repeat (atom_match ic a) n) s with
  | Some (_, s') => k None s'
  | None => None
  end.
Proof.
  intros Hk. revert p s. induction n as [| n IH]; intros p s.
  - destruct s; simpl; apply Hk.
  - destruct s as [| x s]; [reflexivity |]. simpl.
    destruct (atom_match ic a x); [| reflexivity].
    rewrite IH.
    destruct (split_shape (repeat (atom_match ic a) n) s) as [[w r] |];
      [| reflexivity].
    now destruct (k None r).
Qed.

Lemma rep_lazy_exact (a : atom) (n : nat) (p : option ascii) (s : text)
    (k : option ascii -> text -> option R) :
  (forall q q' u, k q u = k q' u) ->
  rep_lazy ic a n (Some n) p s k =
  match split_shape (repeat (atom_match ic a) n) s with
  | Some (_, s') => k None s'
  | None => None
  end.
Proof.
  intros Hk. revert p s. induction n as [| n IH]; intros p s.
  - destruct s; simpl; rewrite (Hk p None); now destruct (k None _).
  - destruct s as [| x s]; [reflexivity |]. simpl.
    destruct (atom_match ic a x); [| reflexivity].
    rewrite IH.
    destruct (split_shape (repeat (atom_match ic a) n) s) as [[w r] |];
      [| reflexivity].
    now destruct (k None r).
Qed.

Lemma run_fixed (r : regex) :
  forall (sh : list (ascii -> bool)) (st : mstate) (k : mstate -> option R),
    fixed ic r = Some sh -> pins k ->
    run ic r st k =
    match split_shape sh (rest st) with
    | Some (_, s') => k (MState None s' (grp st))
    | None => None
    end.
Proof.
  induction r as [| a | a lo hi g | r1 IH1 r2 IH2 | | | | |];
    intros sh [p s g0] k Hsh Hk; simpl in Hsh; try discriminate.
  - injection Hsh as <-. simpl. now apply Hk.
  - injection Hsh as <-. simpl. destruct s as [| x s]; [reflexivity |].
    destruct (atom_match ic a x); [| reflexivity]. now apply Hk.
  - destruct hi as [hi |]; [| discriminate].
    destruct (Nat.eqb_spec lo hi) as [<- |]; [| discriminate].
    injection Hsh as <-. simpl.
    destruct g; [apply rep_greedy_exact | apply rep_lazy_exact];
      intros q q' u; now apply Hk.
  - destruct (fixed ic r1) as [sh1 |] eqn:E1; [| discriminate].
    destruct (fixed ic r2) as [sh2 |] eqn:E2; [| discriminate].
    injection Hsh as <-. simpl.
    rewrite (IH1 sh1 _ _ eq_refl).
    + rewrite split_shape_cat. simpl.
      destruct (split_shape sh1 s) as [[w1 r1'] |]; [| reflexivity].
      rewrite (IH2 sh2 _ _ eq_refl Hk). simpl.
      now destruct (split_shape sh2 r1') as [[w2 r2'] |].
    + intros st st' Hr Hg.
      rewrite !(IH2 sh2 _ _ eq_refl Hk). now rewrite Hr, Hg.
Qed.

(** An optional character. *)
Lemma run_opt (a : atom) (st : mstate) (k : mstate -> option R) :
  run ic (opt a) st k = orelse (run ic (Atom a) st k) (k st).
Proof.
  destruct st as [p s g]. destruct s as [| x s]; [reflexivity |]. simpl.
  destruct (atom_match ic a x); [| reflexivity].
  destruct s as [| y s]; simpl; now destruct (k _).
Qed.

(** [\s*] before a continuation that succeeds exactly when a character is
    left: whitespace is skipped as long as one is. *)
Lemma run_star_space (st : mstate) (k : mstate -> option R) :
  pins k ->
  (forall st', rest st' = [] -> k st' = None) ->
  (forall st', rest st' <> [] -> is_Some (k st')) ->
  run ic (star Space) st k = k (MState None (skip_ws (rest st)) (grp st)).
Proof.
  intros Hk Hnil Hcons. destruct st as [p s g]. simpl.
  revert p. induction s as [| c s IH]; intros p.
  - simpl. now apply Hk.
  - cbn [rep_greedy hi_zero Nat.eqb atom_match skip_ws].
    destruct (is_space c); [| now apply Hk].
    cbn [hi_pred Nat.pred]. rewrite IH.
    destruct s as [| d s].
    + cbn [skip_ws]. rewrite (Hnil (MState None [] g) eq_refl). now apply Hk.
    + destruct (Hcons (MState None (skip_ws (d :: s)) g)) as [x Hx].
      { now apply skip_ws_nonempty. }
      now rewrite Hx.
Qed.

Lemma any_char_matches (c : ascii) : atom_match ic any_char c = true.
Proof. simpl. now destruct (is_space c). Qed.

(** [[\s\S]*?] before a continuation that succeeds exactly where [stop]
    holds: the scan ends at the first such position. *)
Lemma rep_lazy_scan (stop : text -> bool) (kk : text -> option R)
    (k : option ascii -> text -> option R) :
  stop [] = true ->
  (forall q u, k q u = if stop u then kk u else None) ->
  (forall u, stop u = true -> is_Some (kk u)) ->
  forall s p, rep_lazy ic any_char 0 None p s k = kk (from_stop stop s).
Proof.
  intros Hnil Hk Hsome s. induction s as [| c s IH]; intros p.
  - simpl. rewrite Hk, Hnil. destruct (Hsome [] Hnil) as [x Hx].
    now rewrite Hx.
  - cbn [rep_lazy hi_zero Nat.eqb from_stop]. rewrite Hk.
    destruct (stop (c :: s)) eqn:E.
    + destruct (Hsome _ E) as [x Hx]. now rewrite Hx.
    + rewrite any_char_matches. apply IH.
Qed.

(** The capture group [([\s\S]+?)] before a lookahead that holds exactly
    where [stop] does: the group takes the span of the text. *)
Lemma run_group_span (look : regex) (stop : text -> bool) (st : mstate)
    (k : mstate -> option R) :
  stop [] = true ->
  (forall st' (k' : mstate -> option R),
      run ic (Look look) st' k' = if stop (rest st') then k' st' else None) ->
  pins k -> (forall st', is_Some (k st')) ->
  run ic (Seq (Group (lazy_plus any_char)) (Look look)) st k =
  match rest st with
  | [] => None
  | c :: s =>
      k (MState None (from_stop stop s) (Some (span stop (c :: s))))
  end.
Proof.
  intros Hnil Hlook Hk Hsome. destruct st as [p s g].
  unfold lazy_plus. rewrite run_seq, run_group, run_rep_lazy.
  cbn [rest prev grp]. destruct s as [| c s]; [reflexivity |].
  cbn [rep_lazy hi_zero Nat.eqb hi_pred Nat.pred].
  rewrite any_char_matches.
  rewrite (rep_lazy_scan stop
             (fun u => k (MState None u
                            (Some (firstn (length (c :: s) - length u)
                                          (c :: s)))))).
  - now rewrite (take_consumed _ _ _ (span_from_stop stop c s)).
  - exact Hnil.
  - intros q u. rewrite Hlook. cbn [rest prev].
    destruct (stop u) eqn:E; [| reflexivity]. now apply Hk.
  - intros u _. apply Hsome.
Qed.

End Pieces.


(* ===================================================================== *)
(** ** The lookaheads *)
(* ===================================================================== *)

Lemma pins_const {R} (x : option R) : pins (fun _ => x).
Proof. intros st st' _ _. reflexivity. Qed.

Lemma rep_greedy_total {R} (ic : bool) (a : atom) (hi : option nat)
    (k : option ascii -> text -> option R) :
  (forall q u, is_Some (k q u)) ->
  forall s p, is_Some (rep_greedy ic a 0 hi p s k).
Proof.
  intros Hk s. revert hi. induction s as [| c s IH]; intros hi p; simpl.
  - destruct (hi_zero hi); apply Hk.
  - destruct (hi_zero hi); [apply Hk |].
    destruct (atom_match ic a c); [| apply Hk].
    destruct (IH (hi_pred hi) (Some c)) as [x ->]. eauto.
Qed.

Lemma unit_option (o : option unit) : is_Some o -> o = Some tt.
Proof. intros [[] ->]. reflexivity. Qed.

Lemma look_marker (st : mstate) :
  run true section_marker st (fun _ => Some tt)
  = if at_marker (rest st) then Some tt else None.
Proof.
  rewrite (run_fixed true section_marker _ st _ eq_refl (pins_const _)).
  destruct st as [p s g]. cbn [rest].
  destruct s as [| a [| b [| c [| d s]]]]; simpl;
    rewrite ?same_char_lparen, ?same_char_rparen;
    repeat match goal with
           | |- context [if ?b then _ else _] => destruct b; simpl
           end; reflexivity.
Qed.

Lemma look_newlines (st : mstate) :
  run true (Rep (Lit nl) 2 None true) st (fun _ => Some tt)
  = if at_blank_line (rest st) then Some tt else None.
Proof.
  destruct st as [p s g]. cbn [run rest prev grp].
  destruct s as [| a [| b s]]; simpl; rewrite ?same_char_nl;
    [reflexivity | now destruct (bool_decide (a = nl)) |].
  destruct (bool_decide (a = nl)); [| reflexivity].
  destruct (bool_decide (b = nl)); [| reflexivity]. simpl.
  rewrite (unit_option (rep_greedy true (Lit nl) 0 None (Some b) s _));
    [reflexivity |].
  apply rep_greedy_total. eauto.
Qed.

Lemma look_two_newlines (st : mstate) :
  run true (lits [nl; nl]) st (fun _ => Some tt)
  = if at_blank_line (rest st) then Some tt else None.
Proof.
  destruct st as [p s g].
  destruct s as [| a [| b s]]; simpl; rewrite ?same_char_nl;
    repeat match goal with
           | |- context [if ?b then _ else _] => destruct b; simpl
           end; reflexivity.
Qed.

Lemma look_end (ic : bool) (st : mstate) :
  run ic EndZ st (fun _ => Some tt)
  = if at_end (rest st) then Some tt else None.
Proof. destruct st as [p [| c s] g]; reflexivity. Qed.

Lemma run_look {R} (ic : bool) (r : regex) (st : mstate)
    (k : mstate -> option R) :
  run ic (Look r) st k =
  match run ic r st (fun _ => Some tt) with
  | Some _ => k st
  | None => None
  end.
Proof. reflexivity. Qed.

Lemma run_alt {R} (ic : bool) (r1 r2 : regex) (st : mstate)
    (k : mstate -> option R) :
  run ic (Alt r1 r2) st k = orelse (run ic r1 st k) (run ic r2 st k).
Proof. reflexivity. Qed.

(** The lookaheads of the title and of the inventors hold exactly at the
    ends of the fields. *)
Lemma look_title_stop {R} (st : mstate) (k : mstate -> option R) :
  run true (Look title_stop) st k
  = if field_end (rest st) then k st else None.
Proof.
  rewrite run_look. unfold title_stop, field_end.
  rewrite !run_alt, look_marker, look_newlines, look_end.
  destruct (at_marker (rest st)), (at_blank_line (rest st)),
    (at_end (rest st)); reflexivity.
Qed.

Lemma look_inventors_stop {R} (st : mstate) (k : mstate -> option R) :
  run true (Look inventors_stop) st k
  = if field_end (rest st) then k st else None.
Proof.
  rewrite run_look. unfold inventors_stop, field_end.
  rewrite !run_alt, look_marker, look_two_newlines, look_end.
  destruct (at_marker (rest st)), (at_blank_line (rest st)),
    (at_end (rest st)); reflexivity.
Qed.

(* ===================================================================== *)
(** ** The title and inventors rules *)
(* ===================================================================== *)

Lemma option_map_orelse {A B} (f : A -> B) (o1 o2 : option A) :
  option_map f (orelse o1 o2) = orelse (option_map f o1) (option_map f o2).
Proof. now destruct o1. Qed.

Lemma search_first_match {A} (ic : bool) (r : regex) (f : text -> option A)
    (proj : match_obj -> A) :
  (forall p s, option_map proj (match_at ic r p s) = f s) ->
  forall p s, option_map proj (search_from ic r p s) = first_match f s.
Proof.
  intros H p s. revert p. induction s as [| c s IH]; intros p; simpl.
  - rewrite <- (H p []). now destruct (match_at ic r p []).
  - rewrite <- (H p (c :: s)).
    destruct (match_at ic r p (c :: s)); [reflexivity | apply IH].
Qed.

(** What follows a heading: [\s*([\s\S]+?)(?=stop)], at the end of a
    pattern. *)
Lemma run_field_body (look : regex) (stop : text -> bool) (s0 : text)
    (st : mstate) :
  bound_free look = true -> stop [] = true ->
  (forall st' (k' : mstate -> option match_obj),
      run true (Look look) st' k'
      = if stop (rest st') then k' st' else None) ->
  run true (Seq (star Space) (Seq (Group (lazy_plus any_char)) (Look look)))
    st (matched s0) =
  match skip_ws (rest st) with
  | [] => None
  | c :: s =>
      matched s0 (MState None (from_stop stop s) (Some (span stop (c :: s))))
  end.
Proof.
  intros Hb Hnil Hlook.
  assert (Hbody : forall st',
    run true (Seq (Group (lazy_plus any_char)) (Look look)) st' (matched s0) =
    match rest st' with
    | [] => None
    | c :: s =>
        matched s0 (MState None (from_stop stop s) (Some (span stop (c :: s))))
    end).
  { intros st'. apply run_group_span; auto using pins_matched.
    all: try (intros st''; unfold matched; eauto). }
  rewrite run_seq, run_star_space.
  - rewrite Hbody. reflexivity.
  - apply pins_run; [simpl; exact Hb | apply pins_matched].
  - intros st' H. now rewrite Hbody, H.
  - intros st' H. rewrite Hbody. destruct (rest st'); [contradiction |].
    unfold matched. eauto.
Qed.

Lemma field_body_group (stop : text -> bool) (s0 a : text) :
  option_map grp1
    match skip_ws a with
    | [] => None
    | c :: s =>
        matched s0 (MState None (from_stop stop s) (Some (span stop (c :: s))))
    end
  = capture stop (Some a).
Proof.
  destruct a as [| c a]; [reflexivity |]. unfold capture.
  pose proof (skip_ws_nonempty (c :: a) ltac:(discriminate)) as Hne.
  destruct (skip_ws (c :: a)) as [| c' s]; [contradiction | reflexivity].
Qed.

(** The title rule at one position of the text. *)
Lemma title_match_at (p : option ascii) (s : text) :
  option_map grp1 (match_at true title_re p s) = title_at s.
Proof.
  unfold match_at, title_re, title_at. cbn [cat].
  rewrite run_seq, run_lits.
  - cbn [rest grp]. destruct (after_prefix true (str "(54)") s) as [a |];
      [| reflexivity].
    rewrite (run_field_body title_stop field_end); try reflexivity.
    + apply field_body_group.
    + intros st' k'. apply look_title_stop.
  - apply pins_run; [reflexivity | apply pins_matched].
Qed.

Lemma title_match_first (t : text) :
  option_map grp1 (title_match t) = first_match title_at t.
Proof. apply search_first_match, title_match_at. Qed.

(** The inventors rule at one position of the text. *)
Lemma inventors_match_at (p : option ascii) (s : text) :
  option_map grp1 (match_at true inventors_re p s) = inventors_at s.
Proof.
  unfold match_at, inventors_re, inventors_at. cbn [cat].
  set (body := Seq (star Space)
                 (Seq (Group (lazy_plus any_char)) (Look inventors_stop))).
  assert (Hbody : forall a,
    option_map grp1 (run true body (MState None a None) (matched s))
    = capture field_end (Some a)).
  { intros a. unfold body.
    rewrite (run_field_body inventors_stop field_end); try reflexivity.
    - apply field_body_group.
    - intros st' k'. apply look_inventors_stop. }
  assert (Hpins : pins (fun st => run true body st (matched s))).
  { apply pins_run; [reflexivity | apply pins_matched]. }
  assert (Hcolon : forall a,
    option_map grp1
      (run true (Seq (lits (str ":")) body) (MState None a None) (matched s))
    = capture field_end (after_prefix true (str ":") a)).
  { intros a. rewrite run_seq, run_lits by exact Hpins. cbn [rest grp].
    destruct (after_prefix true (str ":") a) as [b |]; [apply Hbody |].
    reflexivity. }
  assert (Hpins' : pins (fun st =>
            run true (Seq (lits (str ":")) body) st (matched s))).
  { apply pins_run; [reflexivity | apply pins_matched]. }
  change (str "Inventors:") with (str "Inventor" ++ ["s"%char] ++ str ":").
  change (str "Inventor:") with (str "Inventor" ++ str ":").
  rewrite !after_prefix_cat.
  rewrite run_seq, run_lits.
  - cbn [rest grp].
    destruct (after_prefix true (str "Inventor") s) as [a |]; [| reflexivity].
    rewrite run_seq, run_opt, option_map_orelse, Hcolon.
    f_equal. destruct a as [| x a]; [reflexivity |].
    cbn [run rest grp atom_match].
    change (["s"%char] ++ str ":") with ("s"%char :: str ":").
    rewrite after_prefix_cons.
    destruct (same_char true x "s"); [| reflexivity].
    rewrite <- run_seq, (pins_at _ _ _ _ Hpins'). apply Hcolon.
  - apply pins_run; [reflexivity | apply pins_matched].
Qed.

Lemma inventors_match_first (t : text) :
  option_map grp1 (inventors_match t) = first_match inventors_at t.
Proof. apply search_first_match, inventors_match_at. Qed.


(* ===================================================================== *)
(** ** The number rule *)
(* ===================================================================== *)

Lemma via_cat {A} (sh1 sh2 : list (ascii -> bool)) (s : text)
    (k : text -> option A) :
  via (sh1 ++ sh2) s k = via sh1 s (fun s1 => via sh2 s1 k).
Proof.
  unfold via. rewrite split_shape_cat.
  destruct (split_shape sh1 s) as [[w1 r1] |]; [| reflexivity].
  now destruct (split_shape sh2 r1) as [[w2 r2] |].
Qed.

Lemma via_orelse {A} (sh : list (ascii -> bool)) (s : text)
    (f g : text -> option A) :
  via sh s (fun s' => orelse (f s') (g s')) = orelse (via sh s f) (via sh s g).
Proof. unfold via. now destruct (split_shape sh s) as [[w r] |]. Qed.

Lemma via_ext {A} (sh : list (ascii -> bool)) (s : text)
    (f g : text -> option A) :
  (forall s', f s' = g s') -> via sh s f = via sh s g.
Proof.
  intros H. unfold via. now destruct (split_shape sh s) as [[w r] |].
Qed.

(** The matched text is the prefix that was cut off. *)
Lemma via_matched (sh : list (ascii -> bool)) (s : text) :
  option_map group0 (via sh s (fun s' => matched s (MState None s' None)))
  = option_map fst (split_shape sh s).
Proof.
  unfold via. destruct (split_shape sh s) as [[w r] |] eqn:E; [| reflexivity].
  apply split_shape_app in E. destruct E as [E _]. simpl.
  now rewrite (take_consumed s w r E).
Qed.

Lemma run_via {R} (ic : bool) (r : regex) (sh : list (ascii -> bool))
    (st : mstate) (k : mstate -> option R) :
  fixed ic r = Some sh -> pins k ->
  run ic r st k = via sh (rest st) (fun s' => k (MState None s' (grp st))).
Proof. intros Hsh Hk. now apply run_fixed. Qed.

Lemma rep_greedy_done {R} (ic : bool) (a : atom) (p : option ascii)
    (s : text) (k : option ascii -> text -> option R) :
  rep_greedy ic a 0 (Some 0) p s k = k p s.
Proof. destruct s; reflexivity. Qed.

(** One to three characters, the longest run first. *)
Lemma run_rep_1_3 {R} (ic : bool) (a : atom) (st : mstate)
    (k : mstate -> option R) :
  pins k ->
  let f n := via (repeat (atom_match ic a) n) (rest st)
               (fun s' => k (MState None s' (grp st))) in
  run ic (Rep a 1 (Some 3) true) st k = orelse (f 3) (orelse (f 2) (f 1)).
Proof.
  intros Hk f. subst f. destruct st as [p s g]. unfold via. cbn [run rest grp prev].
  destruct s as [| x [| y [| z s]]]; simpl;
    repeat match goal with
           | |- context [if atom_match ic a ?c then _ else _] =>
               destruct (atom_match ic a c); simpl
           end;
    rewrite ?rep_greedy_done;
    rewrite ?(pins_at k (Some x)), ?(pins_at k (Some y)),
      ?(pins_at k (Some z)) by exact Hk;
    repeat match goal with
           | |- context [match k ?st with _ => _ end] => destruct (k st); simpl
           end;
    reflexivity.
Qed.

(** The number rule at one position of the text. *)
Lemma number_match_at (p : option ascii) (s : text) :
  option_map group0 (match_at false number_re p s) = number_at s.
Proof.
  unfold match_at, number_re, number_at. cbn [cat].
  set (tail := Seq (lits (str ",")) _).
  assert (Htail : fixed false tail = Some number_tail) by reflexivity.
  assert (P3 : pins (fun st => run false tail st (matched s))).
  { apply pins_run; [reflexivity | apply pins_matched]. }
  assert (P2 : pins (fun st =>
            run false (Seq (Rep Digit 1 (Some 3) true) tail) st (matched s))).
  { apply pins_run; [reflexivity | apply pins_matched]. }
  assert (P1 : pins (fun st =>
            run false (Seq (Atom Space) (Seq (Rep Digit 1 (Some 3) true) tail))
              st (matched s))).
  { apply pins_run; [reflexivity | apply pins_matched]. }
  rewrite run_seq.
  rewrite (run_via false (lits (str "US")) [is_char "U"; is_char "S"]
             _ _ eq_refl P1).
  cbn [rest grp].
  erewrite via_ext.
  2:{ intros s1. rewrite run_seq.
      rewrite (run_via false (Atom Space) [is_space] _ _ eq_refl P2).
      cbn [rest grp]. erewrite via_ext.
      2:{ intros s2. rewrite run_seq, (run_rep_1_3 false Digit _ _ P3).
          cbn [rest grp].
          erewrite (via_ext (repeat _ 3)), (via_ext (repeat _ 2)),
            (via_ext (repeat _ 1)).
          - reflexivity.
          - intros s3. apply (run_via false tail number_tail _ _ Htail).
            apply pins_matched.
          - intros s3. apply (run_via false tail number_tail _ _ Htail).
            apply pins_matched.
          - intros s3. apply (run_via false tail number_tail _ _ Htail).
            apply pins_matched. }
      reflexivity. }
  cbn [rest grp].
  rewrite <- via_cat. rewrite !via_orelse.
  rewrite !option_map_orelse.
  rewrite <- !via_cat.
  rewrite !via_matched. unfold number_shape.
  change (repeat (atom_match false Digit)) with (repeat is_digit).
  now rewrite <- !app_assoc.
Qed.

Lemma number_match_first (t : text) :
  option_map group0 (number_match t) = first_match number_at t.
Proof. apply search_first_match, number_match_at. Qed.


(* ===================================================================== *)
(** ** Headings before the first match *)
(* ===================================================================== *)

(** A heading that is matched across the end of [v] is matched in [v], when
    the character after [v] matches none of the heading's characters. *)
Lemma after_prefix_inside (ic : bool) (x : ascii) (r : text) (w : text) :
  Forall (fun c => same_char ic x c = false) w ->
  forall v, is_Some (after_prefix ic w (v ++ x :: r)) ->
            is_Some (after_prefix ic w v).
Proof.
  intros Hw. induction Hw as [| c w Hc Hw IH]; intros v Hv.
  - rewrite after_prefix_nil. eauto.
  - destruct v as [| y v].
    + simpl in Hv. rewrite after_prefix_cons, Hc in Hv. now destruct Hv.
    + simpl in Hv. rewrite after_prefix_cons in *.
      destruct (same_char ic y c); [now apply IH | exact Hv].
Qed.

Lemma after_prefix_straddle (ic : bool) (x : ascii) (r : text) (w v : text) :
  Forall (fun c => same_char ic x c = false) (tail w) -> v <> [] ->
  is_Some (after_prefix ic w (v ++ x :: r)) -> is_Some (after_prefix ic w v).
Proof.
  intros Hw Hv H. destruct w as [| c w]; [rewrite after_prefix_nil; eauto |].
  destruct v as [| y v]; [contradiction |].
  simpl in H. rewrite after_prefix_cons in *.
  destruct (same_char ic y c); [| exact H].
  now apply (after_prefix_inside ic x r w).
Qed.

(** No heading starts in [pre], when [pre] does not contain the heading and
    the text after [pre] starts with a character that occurs in the heading
    at its first place only. *)
Lemma no_heading_before (ic : bool) (w pre : text) (x : ascii) (r : text) :
  contains ic w pre = false ->
  Forall (fun c => same_char ic x c = false) (tail w) ->
  forall u v, u ++ v = pre -> v <> [] ->
              after_prefix ic w (v ++ x :: r) = None.
Proof.
  intros Hc Hw u v Huv Hv.
  destruct (after_prefix ic w (v ++ x :: r)) as [a |] eqn:E; [| reflexivity].
  assert (Hs : is_Some (after_prefix ic w v)).
  { apply (after_prefix_straddle ic x r); auto. }
  assert (Ht : contains ic w pre = true).
  { apply contains_occurs. now exists u, v. }
  congruence.
Qed.

Lemma no_heading_anywhere (ic : bool) (w t : text) :
  contains ic w t = false ->
  forall u v, u ++ v = t -> after_prefix ic w v = None.
Proof.
  intros Hc u v Huv.
  destruct (after_prefix ic w v) as [a |] eqn:E; [| reflexivity].
  assert (Ht : contains ic w t = true).
  { apply contains_occurs. exists u, v. rewrite E. eauto. }
  congruence.
Qed.

(* ===================================================================== *)
(** ** The fields of [parse_patent_info] and the rules *)
(* ===================================================================== *)

Lemma title_is_spec (t : text) : title (parse_patent_info t) = title_spec t.
Proof.
  unfold parse_patent_info, title_spec. cbn [title].
  rewrite <- title_match_first. now destruct (title_match t).
Qed.

Lemma inventors_is_spec (t : text) :
  inventors (parse_patent_info t) = inventors_spec t.
Proof.
  unfold parse_patent_info, inventors_spec. cbn [inventors].
  rewrite <- inventors_match_first. now destruct (inventors_match t).
Qed.

Lemma number_is_spec (t : text) :
  number (parse_patent_info t) = number_spec t.
Proof.
  unfold parse_patent_info, number_spec. cbn [number].
  rewrite <- number_match_first. now destruct (number_match t).
Qed.

(* ===================================================================== *)
(** ** The title *)
(* ===================================================================== *)

(** On the sample of the specification the words of the claim give the
    title that [parse_patent_info] returns. *)
Lemma title_claimed_sample :
  title_claimed title_sample = str "A Widget Apparatus"
  /\ title (parse_patent_info title_sample) = str "A Widget Apparatus".
Proof. vm_compute. split; reflexivity. Qed.

(** C3, at a text on which the claim fails: the text contains the sample
    of the claim, but its first [(54)] marker is an earlier one, followed by
    a blank line. The title is [Foo]: the blank line after the marker is
    skipped, not taken as the end of the title (which would leave it empty),
    and the sample's title is not reached. *)
Lemma title_claim_counterexample :
  let t := str "(54)" ++ [nl; nl] ++ str "Foo" ++ [nl; nl] ++ title_sample in
  contains false title_sample t = true
  /\ title (parse_patent_info t) = str "Foo"
  /\ title (parse_patent_info t) <> str "A Widget Apparatus"
  /\ title_claimed t = [].
Proof. vm_compute. repeat split; discriminate. Qed.

(** C3, amended. The title is the span captured at the first position, from
    the left, where [(54)] is followed by at least one character: whitespace
    after the marker is skipped as long as a character is left, and the span
    runs from there to the first position after its first character where a
    marker [(dd)] or two newlines start or the text ends; the span is then
    stripped, its newlines replaced by spaces and its leading [)] removed.
    When the first [(54)] of a text starts the sample, the title is
    [A Widget Apparatus]; without any [(54)] it is [Title N/A]. *)
Theorem title_rule :
  (forall t, title (parse_patent_info t) = title_spec t)
  /\ (forall pre post,
        contains true (str "(54)") pre = false ->
        title (parse_patent_info (pre ++ title_sample ++ post))
        = str "A Widget Apparatus")
  /\ (forall t,
        contains true (str "(54)") t = false ->
        title (parse_patent_info t) = str "Title N/A").
Proof.
  split; [exact title_is_spec |]. split.
  - intros pre post Hpre. rewrite title_is_spec. unfold title_spec.
    rewrite first_match_skip.
    + vm_compute. reflexivity.
    + intros u v Huv Hv. unfold title_at.
      change (title_sample ++ post)
        with ("("%char :: (str "54) A Widget Apparatus" ++ [nl; nl]
                           ++ str "(57) Abstract ...") ++ post).
      now rewrite (no_heading_before true (str "(54)") pre "(" _ Hpre
                     ltac:(repeat constructor) u v Huv Hv).
  - intros t Ht. rewrite title_is_spec. unfold title_spec.
    rewrite first_match_none; [reflexivity |].
    intros u v Huv. unfold title_at.
    now rewrite (no_heading_anywhere true _ t Ht u v Huv).
Qed.

Lemma title_rule_witness :
  (contains true (str "(54)") (str "United States Patent ") = false
   /\ title (parse_patent_info
               (str "United States Patent " ++ title_sample ++ str " text"))
      = str "A Widget Apparatus")
  /\ (contains true (str "(54)") (str "no marker here") = false
      /\ title (parse_patent_info (str "no marker here")) = str "Title N/A").
Proof.
  destruct title_rule as (_ & Hsample & Hnone).
  split; (split; [reflexivity |]).
  - apply Hsample. reflexivity.
  - apply Hnone. reflexivity.
Defined.

(* ===================================================================== *)
(** ** The inventors *)
(* ===================================================================== *)

(** On the sample of the specification the words of the claim give the
    inventors that [parse_patent_info] returns. *)
Lemma inventors_claimed_sample :
  inventors_claimed inventors_sample = str "Jane Doe; John Smith"
  /\ inventors (parse_patent_info inventors_sample)
     = str "Jane Doe; John Smith".
Proof. vm_compute. split; reflexivity. Qed.

(** C5, at a text on which the claim fails: the text contains the sample
    of the claim, but its first heading is an earlier one, followed by a
    blank line. The field is [A. Person]: the blank line after the heading
    is skipped, not taken as the end of the field (which would leave it
    empty), and the sample's inventors are not reached. *)
Lemma inventors_claim_counterexample :
  let t := str "Inventors:" ++ [nl; nl] ++ str "A. Person" ++ [nl; nl]
           ++ inventors_sample in
  contains false inventors_sample t = true
  /\ inventors (parse_patent_info t) = str "A. Person"
  /\ inventors (parse_patent_info t) <> str "Jane Doe; John Smith"
  /\ inventors_claimed t = [].
Proof. vm_compute. repeat split; discriminate. Qed.

(** C5, amended. The inventors field is the span captured at the first
    position, from the left, where [Inventors:] or [Inventor:] (in any
    case of the letters) is followed by at least one character: whitespace
    after the heading is skipped as long as a character is left, and the
    span runs from there to the first position after its first character
    where a marker [(dd)] or two newlines start or the text ends; the span
    is then stripped and its newlines replaced by spaces. When the first
    heading of a text starts the sample, the field is
    [Jane Doe; John Smith]; without any heading it is [Inventors N/A]. *)
Theorem inventors_rule :
  (forall t, inventors (parse_patent_info t) = inventors_spec t)
  /\ (forall pre post,
        contains true (str "Inventor:") pre = false ->
        contains true (str "Inventors:") pre = false ->
        inventors (parse_patent_info (pre ++ inventors_sample ++ post))
        = str "Jane Doe; John Smith")
  /\ (forall t,
        contains true (str "Inventor:") t = false ->
        contains true (str "Inventors:") t = false ->
        inventors (parse_patent_info t) = str "Inventors N/A").
Proof.
  split; [exact inventors_is_spec |]. split.
  - intros pre post H1 H2. rewrite inventors_is_spec. unfold inventors_spec.
    rewrite first_match_skip.
    + vm_compute. reflexivity.
    + intros u v Huv Hv. unfold inventors_at.
      change (inventors_sample ++ post)
        with ("I"%char :: (str "nventors: Jane Doe; John Smith" ++ [nl; nl]
                           ++ str "(57) Abstract") ++ post).
      rewrite (no_heading_before true (str "Inventors:") pre "I" _ H2
                 ltac:(repeat constructor) u v Huv Hv).
      now rewrite (no_heading_before true (str "Inventor:") pre "I" _ H1
                     ltac:(repeat constructor) u v Huv Hv).
  - intros t H1 H2. rewrite inventors_is_spec. unfold inventors_spec.
    rewrite first_match_none; [reflexivity |].
    intros u v Huv. unfold inventors_at.
    rewrite (no_heading_anywhere true _ t H2 u v Huv).
    now rewrite (no_heading_anywhere true _ t H1 u v Huv).
Qed.

Lemma inventors_rule_witness :
  (contains true (str "Inventor:") (str "(72) ") = false
   /\ contains true (str "Inventors:") (str "(72) ") = false
   /\ inventors (parse_patent_info
                   (str "(72) " ++ inventors_sample ++ str ": text"))
      = str "Jane Doe; John Smith")
  /\ (contains true (str "Inventor:") (str "no heading here") = false
      /\ contains true (str "Inventors:") (str "no heading here") = false
      /\ inventors (parse_patent_info (str "no heading here"))
         = str "Inventors N/A").
Proof.
  destruct inventors_rule as (_ & Hsample & Hnone).
  split; (split; [reflexivity |]); (split; [reflexivity |]).
  - apply Hsample; reflexivity.
  - apply Hnone; reflexivity.
Defined.

(* ===================================================================== *)
(** ** The patent number *)
(* ===================================================================== *)

Lemma number_at_prefix (s w : text) :
  number_at s = Some w -> exists r, s = w ++ r.
Proof.
  unfold number_at.
  destruct (split_shape (number_shape 3) s) as [[w3 r3] |] eqn:E3;
    [intros [= <-]; apply split_shape_app in E3; destruct E3; eauto |].
  destruct (split_shape (number_shape 2) s) as [[w2 r2] |] eqn:E2;
    [intros [= <-]; apply split_shape_app in E2; destruct E2; eauto |].
  destruct (split_shape (number_shape 1) s) as [[w1 r1] |] eqn:E1;
    [intros [= <-]; apply split_shape_app in E1; destruct E1; eauto |].
  discriminate.
Qed.

Lemma number_shape_heading (n : nat) (s : text) :
  is_Some (split_shape (number_shape n) s) ->
  is_Some (after_prefix false (str "US") s).
Proof.
  unfold number_shape, after_prefix.
  change [is_char "U"; is_char "S"; is_space]
    with (literal false (str "US") ++ [is_space]).
  rewrite <- app_assoc, split_shape_cat.
  destruct (split_shape (literal false (str "US")) s) as [[w r] |];
    [simpl; eauto | intros [x Hx]; discriminate].
Qed.

Lemma number_at_heading (s : text) :
  is_Some (number_at s) -> is_Some (after_prefix false (str "US") s).
Proof.
  unfold number_at. intros [w Hw].
  destruct (split_shape (number_shape 3) s) eqn:E3;
    [apply (number_shape_heading 3); rewrite E3; eauto |].
  destruct (split_shape (number_shape 2) s) eqn:E2;
    [apply (number_shape_heading 2); rewrite E2; eauto |].
  destruct (split_shape (number_shape 1) s) eqn:E1;
    [apply (number_shape_heading 1); rewrite E1; eauto |].
  discriminate.
Qed.

Lemma first_match_substring (t w : text) :
  first_match number_at t = Some w -> exists u v, t = u ++ w ++ v.
Proof.
  induction t as [| c t IH].
  - discriminate.
  - cbn [first_match]. destruct (number_at (c :: t)) eqn:E.
    + intros [= ->]. apply number_at_prefix in E. destruct E as [r ->].
      now exists [], r.
    + intros H. destruct (IH H) as (u & v & ->). now exists (c :: u), v.
Qed.

(** On the sample of the specification the words of the claim give the
    number that [parse_patent_info] returns. *)
Lemma number_claimed_sample :
  number_claimed number_sample = number_sample
  /\ number (parse_patent_info number_sample) = number_sample.
Proof. vm_compute. split; reflexivity. Qed.

(** C4, at a text on which the claim fails: there is a digit where the
    claim has a letter, so the pattern of the claim does not occur, and the
    number is the text all the same. *)
Lemma number_claim_counterexample :
  let t := str "US 10,123,456 12" in
  number (parse_patent_info t) = t
  /\ number_claimed t = str "PATENT # N/A".
Proof. vm_compute. split; reflexivity. Qed.

(** C4, amended. The number is the text matched at the first position, from
    the left, where the text reads [US], one whitespace character, one to
    three digits, a comma, three digits, a comma, three digits, one
    whitespace character, one word character (a letter, a digit or an
    underscore) and one digit; it is a part of the text, as it stands
    there. When no [US] comes before the sample in a text, the number is
    the sample; where the pattern does not occur, it is [PATENT # N/A]. *)
Theorem number_rule :
  (forall t, number (parse_patent_info t) = number_spec t)
  /\ (forall t w, first_match number_at t = Some w ->
        number (parse_patent_info t) = w /\ exists u v, t = u ++ w ++ v)
  /\ (forall pre post,
        contains false (str "US") pre = false ->
        number (parse_patent_info (pre ++ number_sample ++ post))
        = number_sample)
  /\ (forall t,
        first_match number_at t = None ->
        number (parse_patent_info t) = str "PATENT # N/A").
Proof.
  split; [exact number_is_spec |]. split; [| split].
  - intros t w H. rewrite number_is_spec. unfold number_spec. rewrite H.
    split; [reflexivity | now apply first_match_substring].
  - intros pre post Hpre. rewrite number_is_spec. unfold number_spec.
    rewrite first_match_skip.
    + vm_compute. reflexivity.
    + intros u v Huv Hv.
      destruct (number_at (v ++ number_sample ++ post)) as [w |] eqn:E;
        [| reflexivity].
      assert (Hs : is_Some (after_prefix false (str "US")
                              (v ++ number_sample ++ post))).
      { apply number_at_heading. rewrite E. eauto. }
      change (number_sample ++ post)
        with ("U"%char :: str "S 10,123,456 B2" ++ post) in Hs.
      rewrite (no_heading_before false (str "US") pre "U" _ Hpre
                 ltac:(repeat constructor) u v Huv Hv) in Hs.
      now destruct Hs.
  - intros t H. rewrite number_is_spec. unfold number_spec. now rewrite H.
Qed.

Lemma number_rule_witness :
  (first_match number_at (str "Patent US 10,123,456 B2, granted")
   = Some number_sample
   /\ number (parse_patent_info (str "Patent US 10,123,456 B2, granted"))
      = number_sample)
  /\ (contains false (str "US") (str "Patent No.: ") = false
      /\ number (parse_patent_info
                   (str "Patent No.: " ++ number_sample ++ str " text"))
         = number_sample)
  /\ (first_match number_at (str "us 10,123,456 B2") = None
      /\ number (parse_patent_info (str "us 10,123,456 B2"))
         = str "PATENT # N/A").
Proof.
  destruct number_rule as (_ & Hsub & Hsample & Hnone).
  split; [| split]; (split; [reflexivity |]).
  - apply Hsub. reflexivity.
  - apply Hsample. reflexivity.
  - apply Hnone. reflexivity.
Defined.


(* ===================================================================== *)
(** ** The post-processing of the captured spans *)
(* ===================================================================== *)

Lemma lstrip_ws_head (s : text) (c : ascii) :
  head (lstrip_ws s) = Some c -> is_space c = false.
Proof.
  induction s as [| x s IH]; simpl; [discriminate |].
  destruct (is_space x) eqn:E; [exact IH |]. simpl. now intros [= <-].
Qed.

Lemma lstrip_ws_suffix (s : text) : lstrip_ws s `suffix_of` s.
Proof.
  induction s as [| x s IH]; simpl; [reflexivity |].
  destruct (is_space x); [now apply suffix_cons_r | reflexivity].
Qed.

Lemma head_rev {A} (l : list A) : head (rev l) = last l.
Proof.
  induction l as [| x l IH] using rev_ind; [reflexivity |].
  now rewrite rev_app_distr, last_snoc.
Qed.

Lemma last_rev {A} (l : list A) : last (rev l) = head l.
Proof. now rewrite <- head_rev, rev_involutive. Qed.

Lemma head_prefix {A} (l1 l2 : list A) (x : A) :
  l1 `prefix_of` l2 -> head l1 = Some x -> head l2 = Some x.
Proof. intros [k ->]. now destruct l1. Qed.

(** [strip] leaves no whitespace at either end. *)
Lemma strip_stripped (s : text) : stripped (strip s).
Proof.
  unfold strip. split; intros c Hc.
  - apply (lstrip_ws_head s). rewrite head_rev in Hc.
    destruct (lstrip_ws_suffix (rev (lstrip_ws s))) as [k Hk].
    apply (f_equal (@rev ascii)) in Hk.
    rewrite rev_involutive, rev_app_distr in Hk.
    apply (head_prefix (rev (lstrip_ws (rev (lstrip_ws s)))) (lstrip_ws s));
      [now exists (rev k) | now rewrite head_rev].
  - rewrite last_rev in Hc. now apply lstrip_ws_head in Hc.
Qed.

Lemma is_space_nl : is_space nl = true.
Proof. reflexivity. Qed.

Lemma replace_nl_no_newline (s : text) : ~ In nl (replace_nl s).
Proof.
  unfold replace_nl. rewrite in_map_iff. intros (c & Hc & _).
  destruct (bool_decide_reflect (c = nl)); [discriminate | congruence].
Qed.

Lemma replace_nl_stripped (s : text) : stripped s -> stripped (replace_nl s).
Proof.
  assert (Hf : forall c d,
    (if bool_decide (c = nl) then " "%char else c) = d ->
    is_space c = false -> is_space d = false).
  { intros c d <- Hc. destruct (bool_decide_reflect (c = nl)) as [-> |];
      [now rewrite is_space_nl in Hc | exact Hc]. }
  intros [Hh Hl]. unfold replace_nl. split; intros d Hd.
  - destruct s as [| c s]; [discriminate |]. simpl in Hd.
    injection Hd as Hd. apply (Hf c d Hd), Hh. reflexivity.
  - rewrite fmap_last in Hd. destruct (last s) as [c |] eqn:E; [| discriminate].
    injection Hd as Hd. apply (Hf c d Hd), Hl. reflexivity.
Qed.

Lemma lstrip_paren_suffix (s : text) : lstrip_paren s `suffix_of` s.
Proof.
  induction s as [| x s IH]; simpl; [reflexivity |].
  destruct (bool_decide (x = ")"%char)); [now apply suffix_cons_r | reflexivity].
Qed.

Lemma lstrip_paren_head (s : text) : head (lstrip_paren s) <> Some ")"%char.
Proof.
  induction s as [| x s IH]; simpl; [discriminate |].
  destruct (bool_decide_reflect (x = ")"%char)); [exact IH |].
  simpl. congruence.
Qed.

Lemma last_suffix {A} (l1 l2 : list A) (x : A) :
  l1 `suffix_of` l2 -> last l1 = Some x -> last l2 = Some x.
Proof.
  intros [k ->] H. destruct l1 as [| y l1] using rev_ind; [discriminate |].
  rewrite app_assoc, last_snoc. now rewrite last_snoc in H.
Qed.

(** C2, at a text on which the claim fails: the newline inside the abstract
    is kept. *)
Lemma abstract_newline_counterexample :
  let t := str "Abstract: line one" ++ [nl] ++ str "line two" in
  exists m,
    abstract_match t = Some m
    /\ abstract (parse_patent_info t)
       = str "line one" ++ [nl] ++ str "line two"
    /\ abstract (parse_patent_info t) <> replace_nl (strip (grp1 m)).
Proof.
  eexists. split; [vm_compute; reflexivity |].
  split; [vm_compute; reflexivity | vm_compute; discriminate].
Qed.

(** C2, amended. Where the title rule matches, the title is the captured
    span stripped of leading and trailing whitespace, with every newline
    replaced by a space and then every leading [)] removed: it has no
    newline, does not start with [)] and does not end in whitespace. Where
    the inventors rule matches, the field is the span stripped, with every
    newline replaced by a space: it has no newline and no whitespace at
    either end. Where the abstract rule matches, the abstract is the span
    stripped, and its newlines are kept. *)
Theorem fields_post_processed (t : text) :
  (forall m, title_match t = Some m ->
     title (parse_patent_info t)
     = lstrip_paren (replace_nl (strip (grp1 m)))
     /\ ~ In nl (title (parse_patent_info t))
     /\ head (title (parse_patent_info t)) <> Some ")"%char
     /\ (forall c, last (title (parse_patent_info t)) = Some c ->
                   is_space c = false))
  /\ (forall m, inventors_match t = Some m ->
        inventors (parse_patent_info t) = replace_nl (strip (grp1 m))
        /\ ~ In nl (inventors (parse_patent_info t))
        /\ stripped (inventors (parse_patent_info t)))
  /\ (forall m, abstract_match t = Some m ->
        abstract (parse_patent_info t) = strip (grp1 m)
        /\ stripped (abstract (parse_patent_info t))).
Proof.
  unfold parse_patent_info. cbn [title inventors abstract].
  split; [| split]; intros m ->.
  - split; [reflexivity |]. split; [| split].
    + intros Hin. apply (replace_nl_no_newline (strip (grp1 m))).
      destruct (lstrip_paren_suffix (replace_nl (strip (grp1 m)))) as [k Hk].
      rewrite Hk. apply in_or_app. now right.
    + apply lstrip_paren_head.
    + intros c Hc.
      apply (replace_nl_stripped _ (strip_stripped (grp1 m))).
      exact (last_suffix _ _ _ (lstrip_paren_suffix _) Hc).
  - split; [reflexivity |]. split.
    + apply replace_nl_no_newline.
    + apply replace_nl_stripped, strip_stripped.
  - split; [reflexivity | apply strip_stripped].
Qed.

Lemma fields_post_processed_witness :
  let t := str "(54)) A Gear" ++ [nl] ++ str "Train " ++ [nl; nl]
           ++ str "Inventor: Ann" ++ [nl] ++ str "Lee " ++ [nl; nl]
           ++ str "Abstract: line one" ++ [nl] ++ str "line two " in
  (exists m, title_match t = Some m
             /\ title (parse_patent_info t) = str " A Gear Train")
  /\ (exists m, inventors_match t = Some m
                /\ inventors (parse_patent_info t) = str "Ann Lee")
  /\ (exists m, abstract_match t = Some m
                /\ abstract (parse_patent_info t)
                   = str "line one" ++ [nl] ++ str "line two").
Proof.
  intros t. destruct (fields_post_processed t) as (Ht & Hi & Ha).
  split; [| split].
  - destruct (title_match t) as [m |] eqn:E; [| vm_compute in E; discriminate].
    exists m. split; [reflexivity |].
    destruct (Ht m eq_refl) as [-> _].
    vm_compute in E. injection E as <-. vm_compute. reflexivity.
  - destruct (inventors_match t) as [m |] eqn:E;
      [| vm_compute in E; discriminate].
    exists m. split; [reflexivity |].
    destruct (Hi m eq_refl) as [-> _].
    vm_compute in E. injection E as <-. vm_compute. reflexivity.
  - destruct (abstract_match t) as [m |] eqn:E;
      [| vm_compute in E; discriminate].
    exists m. split; [reflexivity |].
    destruct (Ha m eq_refl) as [-> _].
    vm_compute in E. injection E as <-. vm_compute. reflexivity.
Defined.

(* ===================================================================== *)
(** ** The legacy extractors *)
(* ===================================================================== *)

(** [Patent-anim2.py] returns the five fields of [patent_text_extractor.py]
    on every text. *)
Lemma patent_anim2_agrees (t : text) :
  Patent_anim2.parse_patent_info t = fields (parse_patent_info t).
Proof. reflexivity. Qed.

(** [CVRT3.0.py] returns the first four fields of
    [patent_text_extractor.py] on every text. *)
Lemma cvrt3_agrees_on_four (t : text) :
  let '(title', number', date', inventors', _) :=
    CVRT3_0.parse_patent_info t in
  (title', number', date', inventors')
  = (title (parse_patent_info t), number (parse_patent_info t),
     date (parse_patent_info t), inventors (parse_patent_info t)).
Proof. reflexivity. Qed.

(** C9, at a text on which the three extractors do not agree: after the
    heading [Abstract:] the abstract of [CVRT3.0.py] starts with the colon,
    which its pattern [Abstract?] does not take, where the two other files
    return the text after the colon. *)
Theorem cvrt3_abstract_diverges :
  let t := str "Abstract: A gear train." in
  CVRT3_0.parse_patent_info t
  = (str "Title N/A", str "PATENT # N/A", str "Date N/A",
     str "Inventors N/A", str ": A gear train.")
  /\ Patent_anim2.parse_patent_info t
     = (str "Title N/A", str "PATENT # N/A", str "Date N/A",
        str "Inventors N/A", str "A gear train.")
  /\ fields (parse_patent_info t)
     = (str "Title N/A", str "PATENT # N/A", str "Date N/A",
        str "Inventors N/A", str "A gear train.")
  /\ CVRT3_0.parse_patent_info t <> fields (parse_patent_info t).
Proof. vm_compute. repeat split; discriminate. Qed.

(* ===================================================================== *)
(** ** Case *)
(* ===================================================================== *)

(** With [re.IGNORECASE] no test of the matcher tells two characters apart
    that differ by the case of a letter. *)
Lemma atom_match_fold (a : atom) (c c' : ascii) :
  same_letter c c' -> atom_match true a c = atom_match true a c'.
Proof.
  unfold same_letter. intros H. induction a as [x | | | | | a1 IH1 a2 IH2]; simpl.
  - unfold same_char. now rewrite H.
  - now rewrite <- (is_space_fold c), H, is_space_fold.
  - now rewrite <- (is_space_fold c), H, is_space_fold.
  - now rewrite <- (is_digit_fold c), H, is_digit_fold.
  - now rewrite <- (is_word_fold c), H, is_word_fold.
  - now rewrite IH1, IH2.
Qed.

(** A rule with [re.IGNORECASE] and without [\b] matches two texts that
    differ by the case of letters at the same places. *)
Lemma search_ignores_case (r : regex) (t t' : text) :
  bound_free r = true -> Forall2 same_letter t t' ->
  option_Forall2 (match_rel same_letter) (search r t true) (search r t' true).
Proof.
  intros Hb Ht. unfold search.
  apply (search_from_rel true same_letter atom_match_fold); assumption.
Qed.

Section Reaches.

Variable ic : bool.

Lemma rep_greedy_reaches {R} (a : atom) (k : option ascii -> text -> option R)
    (x : R) (s : text) :
  forall lo hi p,
    rep_greedy ic a lo hi p s k = Some x ->
    exists p' s', s' `suffix_of` s /\ k p' s' = Some x.
Proof.
  induction s as [| c s IH]; intros lo hi p; simpl.
  - destruct (hi_zero hi), (lo =? 0)%nat; try discriminate;
      intros H; exists p, []; auto.
  - assert (Hstop : (if (lo =? 0)%nat then k p (c :: s) else None) = Some x ->
                    exists p' s', s' `suffix_of` c :: s /\ k p' s' = Some x).
    { destruct (lo =? 0)%nat; [| discriminate]. intros H.
      exists p, (c :: s). auto. }
    destruct (hi_zero hi); [exact Hstop |].
    destruct (atom_match ic a c); [| exact Hstop].
    destruct (rep_greedy ic a (Nat.pred lo) (hi_pred hi) (Some c) s k)
      as [y |] eqn:E; [| exact Hstop].
    intros [= ->]. destruct (IH _ _ _ E) as (p' & s' & Hs & Hk).
    exists p', s'. split; [now apply suffix_cons_r | exact Hk].
Qed.

Lemma rep_lazy_reaches {R} (a : atom) (k : option ascii -> text -> option R)
    (x : R) (s : text) :
  forall lo hi p,
    rep_lazy ic a lo hi p s k = Some x ->
    exists p' s', s' `suffix_of` s /\ k p' s' = Some x.
Proof.
  induction s as [| c s IH]; intros lo hi p; simpl.
  - destruct (lo =? 0)%nat.
    + destruct (k p []) as [y |] eqn:E.
      * intros [= ->]. exists p, []. auto.
      * destruct (hi_zero hi); discriminate.
    + destruct (hi_zero hi); discriminate.
  - assert (Hmore :
      (if hi_zero hi then None
       else if atom_match ic a c
            then rep_lazy ic a (Nat.pred lo) (hi_pred hi) (Some c) s k
            else None) = Some x ->
      exists p' s', s' `suffix_of` c :: s /\ k p' s' = Some x).
    { destruct (hi_zero hi); [discriminate |].
      destruct (atom_match ic a c); [| discriminate].
      intros H. destruct (IH _ _ _ H) as (p' & s' & Hs & Hk).
      exists p', s'. split; [now apply suffix_cons_r | exact Hk]. }
    destruct (lo =? 0)%nat; [| exact Hmore].
    destruct (k p (c :: s)) as [y |] eqn:E; [| exact Hmore].
    intros [= ->]. exists p, (c :: s). auto.
Qed.

(** A successful run ends in a continuation called at a later position. *)
Lemma run_reaches (r : regex) :
  forall {R} (k : mstate -> option R) (st : mstate) (x : R),
    run ic r st k = Some x ->
    exists st', rest st' `suffix_of` rest st /\ k st' = Some x.
Proof.
  induction r as [| a | a lo hi g | r1 IH1 r2 IH2 | r1 IH1 r2 IH2
                  | r1 IH1 | r1 IH1 | |];
    intros R k st x; simpl.
  - intros H. exists st. auto.
  - destruct st as [p [| c s] g]; simpl; [discriminate |].
    destruct (atom_match ic a c); [| discriminate].
    intros H. eexists. split; [| exact H]. simpl. now apply suffix_cons_r.
  - intros H.
    assert (Hr : exists p' s', s' `suffix_of` rest st
                   /\ k (MState p' s' (grp st)) = Some x).
    { destruct g; [eapply rep_greedy_reaches | eapply rep_lazy_reaches];
        exact H. }
    destruct Hr as (p' & s' & Hs & Hk). eexists. split; [| exact Hk]. exact Hs.
  - intros H. destruct (IH1 _ _ _ _ H) as (st1 & Hs1 & H1).
    destruct (IH2 _ _ _ _ H1) as (st2 & Hs2 & H2).
    exists st2. split; [now transitivity (rest st1) | exact H2].
  - destruct (run ic r1 st k) as [y |] eqn:E.
    + intros [= ->]. now apply IH1.
    + apply IH2.
  - intros H. destruct (IH1 _ _ _ _ H) as (st1 & Hs1 & H1).
    eexists. split; [| exact H1]. exact Hs1.
  - destruct (run ic r1 st (fun _ => Some tt)); [| discriminate].
    intros H. exists st. auto.
  - destruct (at_boundary st); [| discriminate]. intros H. exists st. auto.
  - destruct (rest st) eqn:E; [| discriminate]. intros H. exists st.
    rewrite E. auto.
Qed.

(** A successful literal has matched its text. *)
Lemma run_lits_sound {R} (w : text) (k : mstate -> option R) (x : R) :
  forall st,
    run ic (lits w) st k = Some x ->
    exists p' s', after_prefix ic w (rest st) = Some s'
                  /\ k (MState p' s' (grp st)) = Some x.
Proof.
  induction w as [| c w IH]; intros [p s g]; simpl.
  - intros H. exists p, s. auto.
  - destruct s as [| y s]; [discriminate |]. rewrite after_prefix_cons.
    destruct (same_char ic y c); [| discriminate].
    intros H. apply IH in H. exact H.
Qed.

Lemma run_alts_sound {R} (l : list string) (r : regex)
    (k : mstate -> option R) (x : R) (st : mstate) :
  l <> [] ->
  run ic (Seq (alts l) r) st k = Some x ->
  exists mon, In mon l /\ run ic (Seq (lits (str mon)) r) st k = Some x.
Proof.
  induction l as [| mon l IH]; [contradiction |]. intros _.
  destruct l as [| mon' l].
  - intros H. exists mon. split; [now left | exact H].
  - change (alts (mon :: mon' :: l))
      with (Alt (lits (str mon)) (alts (mon' :: l))).
    rewrite run_seq, run_alt.
    destruct (run ic (lits (str mon)) st (fun st' => run ic r st' k))
      as [y |] eqn:E.
    + intros [= ->]. exists mon. split; [now left | exact E].
    + intros H. destruct (IH ltac:(discriminate) H) as (m & Hm & Hr).
      exists m. split; [now right | exact Hr].
Qed.

Lemma search_from_sound (r : regex) (s : text) (m : match_obj) :
  forall p, search_from ic r p s = Some m ->
            exists p' s', s' `suffix_of` s /\ match_at ic r p' s' = Some m.
Proof.
  induction s as [| c s IH]; intros p; simpl.
  - destruct (match_at ic r p []) eqn:E; [| discriminate].
    intros [= ->]. exists p, []. auto.
  - destruct (match_at ic r p (c :: s)) eqn:E.
    + intros [= ->]. exists p, (c :: s). auto.
    + intros H. destruct (IH _ H) as (p' & s' & Hs & Hm).
      exists p', s'. split; [now apply suffix_cons_r | exact Hm].
Qed.

End Reaches.

Lemma after_prefix_contains (ic : bool) (w s t : text) :
  s `suffix_of` t -> is_Some (after_prefix ic w s) -> contains ic w t = true.
Proof.
  intros [u ->] H. apply contains_occurs. now exists u, s.
Qed.

(** A text from which the date is extracted has the heading and a month
    abbreviation with its period, letter for letter. *)
Lemma date_match_exact (t : text) (m : match_obj) :
  date_match t = Some m ->
  contains false (str "Date of Patent:") t = true
  /\ exists mon, In mon months
                 /\ contains false (str mon ++ str ".") t = true.
Proof.
  unfold date_match, search. intros H.
  apply search_from_sound in H. destruct H as (p & s & Hs & H).
  unfold match_at, date_re in H. cbn [cat] in H.
  rewrite run_seq in H. apply run_reaches in H.
  destruct H as (st1 & Hs1 & H). cbn [rest] in Hs1.
  rewrite run_seq in H. apply run_reaches in H.
  destruct H as (st2 & Hs2 & H).
  rewrite run_seq in H. apply run_lits_sound in H.
  destruct H as (p3 & s3 & Hd & H).
  assert (Hsuf2 : rest st2 `suffix_of` t).
  { transitivity (rest st1); [exact Hs2 |]. now transitivity s. }
  split.
  { apply (after_prefix_contains false _ (rest st2)); [exact Hsuf2 |].
    rewrite Hd. eauto. }
  assert (Hsuf3 : s3 `suffix_of` t).
  { transitivity (rest st2); [| exact Hsuf2].
    now apply (after_prefix_suffix false (str "Date of Patent:")). }
  rewrite run_seq in H. apply run_reaches in H.
  destruct H as (st4 & Hs4 & H). cbn [rest] in Hs4.
  rewrite run_group in H. cbn [cat] in H.
  rewrite run_seq in H. cbn [run] in H.
  destruct (at_boundary st4); [| discriminate].
  apply run_alts_sound in H; [| discriminate].
  destruct H as (mon & Hmon & H). exists mon. split; [exact Hmon |].
  rewrite run_seq in H. apply run_lits_sound in H.
  destruct H as (p5 & s5 & Hm & H).
  unfold date_tail in H. cbn [cat] in H.
  rewrite run_seq in H. apply run_lits_sound in H.
  destruct H as (p6 & s6 & Hdot & _). cbn [rest] in Hdot.
  apply (after_prefix_contains false _ (rest st4)).
  - now transitivity s3.
  - rewrite after_prefix_cat, Hm, Hdot. eauto.
Qed.

Lemma first_match_some {A} (f : text -> option A) (t : text) (a : A) :
  first_match f t = Some a -> exists u v, u ++ v = t /\ f v = Some a.
Proof.
  induction t as [| c t IH]; simpl.
  - destruct (f []) eqn:E; [| discriminate]. intros [= ->]. now exists [], [].
  - destruct (f (c :: t)) eqn:E.
    + intros [= ->]. now exists [], (c :: t).
    + intros H. destruct (IH H) as (u & v & <- & Hv). now exists (c :: u), v.
Qed.

(** A text from which the number is extracted has [US] in upper case. *)
Lemma number_match_exact (t : text) (m : match_obj) :
  number_match t = Some m -> contains false (str "US") t = true.
Proof.
  intros H. pose proof (number_match_first t) as Hf. rewrite H in Hf.
  symmetry in Hf. apply first_match_some in Hf.
  destruct Hf as (u & v & <- & Hv).
  apply (after_prefix_contains false _ v); [now exists u |].
  apply number_at_heading. rewrite Hv. eauto.
Qed.

(** C10, at a text on which the claim fails: the number rule tells [us]
    from [US], so the date rule is not the only one that is sensitive to
    case. *)
Lemma number_case_counterexample :
  let t := str "US 10,123,456 B2" in
  let t' := str "us 10,123,456 B2" in
  Forall2 same_letter t t'
  /\ number (parse_patent_info t) = t
  /\ number (parse_patent_info t') = str "PATENT # N/A".
Proof.
  split; [repeat constructor |]. vm_compute. split; reflexivity.
Qed.

(** C10, amended. The date rule and the number rule match case-sensitively:
    the date is extracted only from a text that has [Date of Patent:] and a
    month abbreviation with its period in exactly this capitalization
    (with [DATE OF PATENT:] or [JAN.] the date is [Date N/A]), and the
    number only from a text with [US] in upper case. The title, inventors
    and abstract rules match case-insensitively: on two texts that differ
    by the case of letters they match at the same places, and their spans
    differ by the case of letters only. *)
Theorem case_of_the_rules :
  (forall t m,
     date_match t = Some m ->
     contains false (str "Date of Patent:") t = true
     /\ exists mon, In mon months
                    /\ contains false (str mon ++ str ".") t = true)
  /\ (date (parse_patent_info (str "(45) Date of Patent: Jan. 5, 2021"))
      = str "Jan. 5, 2021"
      /\ date (parse_patent_info (str "(45) DATE OF PATENT: Jan. 5, 2021"))
         = str "Date N/A"
      /\ date (parse_patent_info (str "(45) Date of Patent: JAN. 5, 2021"))
         = str "Date N/A")
  /\ (forall t m,
        number_match t = Some m -> contains false (str "US") t = true)
  /\ (forall t t',
        Forall2 same_letter t t' ->
        option_Forall2 (match_rel same_letter)
          (title_match t) (title_match t')
        /\ option_Forall2 (match_rel same_letter)
             (inventors_match t) (inventors_match t')
        /\ option_Forall2 (match_rel same_letter)
             (abstract_match t) (abstract_match t')).
Proof.
  split; [exact date_match_exact |].
  split; [vm_compute; repeat split; reflexivity |].
  split; [exact number_match_exact |].
  intros t t' Ht. repeat split; now apply search_ignores_case.
Qed.

Lemma case_of_the_rules_witness :
  (exists m,
     date_match (str "(45) Date of Patent: Jan. 5, 2021") = Some m
     /\ contains false (str "Date of Patent:")
          (str "(45) Date of Patent: Jan. 5, 2021") = true)
  /\ (exists m,
        number_match (str "US 10,123,456 B2") = Some m
        /\ contains false (str "US") (str "US 10,123,456 B2") = true)
  /\ (Forall2 same_letter (str "Inventors: Ann Lee") (str "INVENTORS: ann LEE")
      /\ option_Forall2 (match_rel same_letter)
           (inventors_match (str "Inventors: Ann Lee"))
           (inventors_match (str "INVENTORS: ann LEE"))).
Proof.
  destruct case_of_the_rules as (Hdate & _ & Hnumber & Hfold).
  split; [| split].
  - eexists. split; [vm_compute; reflexivity |].
    eapply Hdate. vm_compute. reflexivity.
  - eexists. split; [vm_compute; reflexivity |].
    eapply Hnumber. vm_compute. reflexivity.
  - assert (H : Forall2 same_letter (str "Inventors: Ann Lee")
                                    (str "INVENTORS: ann LEE")).
    { repeat constructor. }
    split; [exact H |]. now apply Hfold.
Defined.

(* ===================================================================== *)
(** ** The files of a run *)
(* ===================================================================== *)

Lemma decimal_digits (i : nat) :
  Forall (fun c => is_digit c = true) (str (decimal i)).
Proof.
  unfold decimal. induction (Nat.to_uint i); simpl; constructor; auto.
Qed.

(** A number and an ending that starts with no digit are read back from
    their concatenation. *)
Lemma digits_app_inj (d1 d2 e1 e2 : text) :
  Forall (fun c => is_digit c = true) d1 ->
  Forall (fun c => is_digit c = true) d2 ->
  (forall c, head e1 = Some c -> is_digit c = false) ->
  (forall c, head e2 = Some c -> is_digit c = false) ->
  d1 ++ e1 = d2 ++ e2 -> d1 = d2 /\ e1 = e2.
Proof.
  intros H1. revert d2.
  induction H1 as [| c d1 Hc H1 IH]; intros d2 H2 He1 He2 E.
  - destruct H2 as [| c d2 Hc H2]; simpl in E; [auto |].
    subst e1. specialize (He1 c eq_refl). congruence.
  - destruct H2 as [| c' d2 Hc' H2]; simpl in E.
    + subst e2. specialize (He2 c eq_refl). congruence.
    + injection E as -> E. destruct (IH d2 H2 He1 He2 E) as [-> ->]. auto.
Qed.

Lemma page_name_endings (i j : nat) (e1 e2 : string) :
  (forall c, head (str e1) = Some c -> is_digit c = false) ->
  (forall c, head (str e2) = Some c -> is_digit c = false) ->
  page_name i e1 = page_name j e2 -> i = j /\ e1 = e2.
Proof.
  intros H1 H2 H. unfold page_name in H. apply (f_equal str) in H.
  rewrite !str_app in H. apply app_inv_head in H.
  apply digits_app_inj in H; auto using decimal_digits.
  destruct H as [Hd He]. split; [now apply decimal_inj, str_inj |].
  now apply str_inj.
Qed.

Lemma endings_head (e : string) (c : ascii) :
  In e endings -> head (str e) = Some c -> is_digit c = false.
Proof.
  intros [<- | [<- | [<- | [<- | []]]]]; simpl; intros [= <-]; reflexivity.
Qed.

(** The files of two pages, and the four files of one page, are pairwise
    distinct. *)
Lemma artifact_inj (output_dir : Path) (i j : nat) (e1 e2 : string) :
  In e1 endings -> In e2 endings ->
  joinpath output_dir (page_name i e1) = joinpath output_dir (page_name j e2) ->
  i = j /\ e1 = e2.
Proof.
  intros H1 H2 H. apply joinpath_inj in H.
  apply page_name_endings in H; eauto using endings_head.
Qed.

Lemma artifact_of_other_page (output_dir : Path) (i j : nat) (e : string) :
  In e endings -> i <> j ->
  joinpath output_dir (page_name i e) ∉ artifacts output_dir j.
Proof.
  intros He Hij Hin. unfold artifacts in Hin.
  apply list_elem_of_fmap in Hin. destruct Hin as (e' & Heq & He').
  apply list_elem_of_In in He'.
  apply artifact_inj in Heq; auto. destruct Heq as [-> _]. contradiction.
Qed.

Section Files.

Variable convert_from_path : Path -> Path -> Z -> result (list Image).
Variable image_to_string : Image -> result text.
Variable writable : Path -> bool.
Variable meipass : option Path.

Local Abbreviation page_run := (process_page image_to_string writable).
Local Abbreviation loop_run := (convert_loop image_to_string writable).

Lemma write_file_frame (path : Path) (f : File) (fs : FS) (r : result unit)
    (fs' : FS) (other : Path) :
  write_file writable path f fs = (r, fs') -> other <> path ->
  fs' !! other = fs !! other.
Proof.
  unfold write_file. destruct (writable path); intros [= <- <-] Hne;
    [now rewrite lookup_insert_ne | reflexivity].
Qed.

Lemma save_image_frame (image : Image) (path : Path) (fs : FS)
    (r : result unit) (fs' : FS) (other : Path) :
  save_image writable image path fs = (r, fs') -> other <> path ->
  fs' !! other = fs !! other.
Proof.
  unfold save_image. destruct (writable path);
    [| now intros [= <- <-]].
  destruct (without_pixels image);
    [| intros [= <- <-] Hne; now rewrite lookup_insert_ne].
  destruct (fs !! path); intros [= <- <-] Hne;
    [now rewrite lookup_insert_ne | reflexivity].
Qed.

Lemma artifacts_elem (output_dir : Path) (i : nat) (e : string) :
  In e endings -> joinpath output_dir (page_name i e) ∈ artifacts output_dir i.
Proof.
  intros He. unfold artifacts. apply list_elem_of_fmap.
  exists e. split; [reflexivity | now apply list_elem_of_In].
Qed.

(** A page, whatever its outcome, writes to its own four files only. *)
Lemma process_page_frame output_dir i image fs r fs' path :
  page_run output_dir i image fs = (r, fs') ->
  path ∉ artifacts output_dir i ->
  fs' !! path = fs !! path.
Proof.
  intros H Hpath.
  assert (Hne : forall e, In e endings ->
                  path <> joinpath output_dir (page_name i e)).
  { intros e He ->. apply Hpath. now apply artifacts_elem. }
  assert (N1 := Hne ".png"%string ltac:(simpl; auto)).
  assert (N2 := Hne "_col1.png"%string ltac:(simpl; auto)).
  assert (N3 := Hne "_col2.png"%string ltac:(simpl; auto)).
  assert (N4 := Hne ".txt"%string ltac:(simpl; auto)).
  revert H.
  unfold process_page, bind, write_text,
    extract_text_from_image, lift, ret. cbv zeta.
  destruct (save_image writable image (joinpath output_dir (page_png i)) fs)
    as [[[] | e] fs1] eqn:W1;
    [| intros [= <- <-]; now apply (save_image_frame _ _ _ _ _ _ W1)].
  apply (save_image_frame _ _ _ _ _ path) in W1; [| exact N1].
  destruct (split_image image) as [[l rr] | e] eqn:Hs;
    [| intros [= <- <-]; exact W1].
  destruct (save_image writable l (joinpath output_dir (page_col1 i)) fs1)
    as [[[] | e] fs2] eqn:W2;
    apply (save_image_frame _ _ _ _ _ path) in W2; try exact N2;
    [| intros [= <- <-]; congruence].
  destruct (save_image writable rr (joinpath output_dir (page_col2 i)) fs2)
    as [[[] | e] fs3] eqn:W3;
    apply (save_image_frame _ _ _ _ _ path) in W3; try exact N3;
    [| intros [= <- <-]; congruence].
  destruct (image_to_string l) as [lt | e] eqn:Hl;
    [| intros [= <- <-]; congruence].
  destruct (image_to_string rr) as [rt | e] eqn:Hr;
    [| intros [= <- <-]; congruence].
  destruct (write_file writable (joinpath output_dir (page_txt i))
              (TextFile (lt ++ [nl; nl] ++ rt)) fs3)
    as [[[] | e] fs4] eqn:W4;
    apply (write_file_frame _ _ _ _ _ path) in W4; try exact N4;
    intros [= <- <-]; congruence.
Qed.

(** The four files that a successful page leaves. *)
Lemma process_page_files output_dir i image fs p t fs' :
  page_run output_dir i image fs = (Ok (p, t), fs') ->
  exists l r,
    split_image image = Ok (l, r)
    /\ fs' !! joinpath output_dir (page_png i) = Some (ImageFile image)
    /\ fs' !! joinpath output_dir (page_col1 i) = Some (ImageFile l)
    /\ fs' !! joinpath output_dir (page_col2 i) = Some (ImageFile r)
    /\ fs' !! joinpath output_dir (page_txt i) = Some (TextFile t).
Proof.
  unfold process_page, bind, write_text,
    extract_text_from_image, lift, ret. cbv zeta.
  destruct (save_image writable image (joinpath output_dir (page_png i)) fs)
    as [[[] | e] fs1] eqn:W1; [| discriminate].
  destruct (split_image image) as [[l rr] | e] eqn:Hs; [| discriminate].
  destruct (save_image writable l (joinpath output_dir (page_col1 i)) fs1)
    as [[[] | e] fs2] eqn:W2; [| discriminate].
  destruct (save_image writable rr (joinpath output_dir (page_col2 i)) fs2)
    as [[[] | e] fs3] eqn:W3; [| discriminate].
  destruct (image_to_string l) as [lt | e] eqn:Hl; [| discriminate].
  destruct (image_to_string rr) as [rt | e] eqn:Hr; [| discriminate].
  destruct (write_file writable (joinpath output_dir (page_txt i))
              (TextFile (lt ++ [nl; nl] ++ rt)) fs3)
    as [[[] | e] fs4] eqn:W4; [| discriminate].
  intros H; inversion H; subst; clear H.
  apply save_image_ok in W1, W2, W3. apply write_file_ok in W4.
  destruct W1 as [-> _], W2 as [-> _], W3 as [-> _]. subst.
  assert (D : forall e1 e2, In e1 endings -> In e2 endings -> e1 <> e2 ->
                joinpath output_dir (page_name i e1)
                <> joinpath output_dir (page_name i e2)).
  { intros e1 e2 H1 H2 Hne E. apply artifact_inj in E; auto.
    destruct E as [_ E]. contradiction. }
  exists l, rr. split; [reflexivity |].
  unfold page_png, page_col1, page_col2, page_txt.
  repeat split.
  - rewrite !lookup_insert_ne by (apply D; simpl; auto; discriminate).
    apply lookup_insert_eq.
  - rewrite !lookup_insert_ne by (apply D; simpl; auto; discriminate).
    apply lookup_insert_eq.
  - rewrite !lookup_insert_ne by (apply D; simpl; auto; discriminate).
    apply lookup_insert_eq.
  - apply lookup_insert_eq.
Qed.

(** The loop, whatever its outcome, writes to the files of its pages only. *)
Lemma convert_loop_frame output_dir images path :
  forall i image_paths texts fs r fs',
    loop_run output_dir (enumerate i images) image_paths texts fs = (r, fs') ->
    (forall j, i <= j < i + length images -> path ∉ artifacts output_dir j) ->
    fs' !! path = fs !! path.
Proof.
  induction images as [| image images IH]; intros i ps ts fs r fs'.
  - simpl. unfold ret. now intros [= <- <-].
  - simpl. unfold bind at 1.
    destruct (page_run output_dir i image fs) as [[[p t] | e] fs1] eqn:Hp.
    + intros H Hpath. rewrite (IH _ _ _ _ _ _ H).
      * apply (process_page_frame _ _ _ _ _ _ _ Hp). apply Hpath. lia.
      * intros j Hj. apply Hpath. lia.
    + intros [= <- <-] Hpath.
      apply (process_page_frame _ _ _ _ _ _ _ Hp). apply Hpath. lia.
Qed.

(** The files of every page are there at the end of a successful loop. *)
Lemma convert_loop_files output_dir images :
  forall i image_paths texts fs ps ts fs',
    loop_run output_dir (enumerate i images) image_paths texts fs
    = (Ok (ps, ts), fs') ->
    forall k image, images !! k = Some image ->
      exists l r,
        split_image image = Ok (l, r)
        /\ fs' !! joinpath output_dir (page_png (i + k))
           = Some (ImageFile image)
        /\ fs' !! joinpath output_dir (page_col1 (i + k))
           = Some (ImageFile l)
        /\ fs' !! joinpath output_dir (page_col2 (i + k))
           = Some (ImageFile r).
Proof.
  induction images as [| image images IH]; intros i ps0 ts0 fs ps ts fs' H k im Hk.
  - now rewrite lookup_nil in Hk.
  - simpl in H. unfold bind at 1 in H.
    destruct (page_run output_dir i image fs) as [[[p t] | e] fs1] eqn:Hp;
      [| discriminate].
    destruct k as [| k].
    + simpl in Hk. injection Hk as <-. rewrite Nat.add_0_r.
      destruct (process_page_files _ _ _ _ _ _ _ Hp)
        as (l & rr & Hs & F1 & F2 & F3 & _).
      exists l, rr. split; [exact Hs |].
      assert (Hfr : forall e, In e endings ->
                fs' !! joinpath output_dir (page_name i e)
                = fs1 !! joinpath output_dir (page_name i e)).
      { intros e He. apply (convert_loop_frame _ _ _ _ _ _ _ _ _ H).
        intros j Hj. apply artifact_of_other_page; [exact He | lia]. }
      unfold page_png, page_col1, page_col2 in *.
      rewrite !Hfr by (simpl; auto). auto.
    + simpl in Hk. replace (i + S k) with (S i + k) by lia.
      now apply (IH _ _ _ _ _ _ _ H).
Qed.

End Files.

(** X1. After a successful run the output directory holds, for every page
    [i] of the document, the page image under [page_{i}.png], its left and
    right columns under [page_{i}_col1.png] and [page_{i}_col2.png], and the
    text of the page under [page_{i}.txt]: no file of a page is overwritten
    by a later page. *)
Theorem convert_pdf_to_images_artifacts
    (convert_from_path : Path -> Path -> Z -> result (list Image))
    (image_to_string : Image -> result text)
    (writable : Path -> bool) (meipass : option Path)
    (pdf_path output_dir : Path) (fs fs' : FS)
    (image_paths : list Path) (texts : list text) :
  convert_pdf_to_images convert_from_path image_to_string writable meipass
    pdf_path output_dir fs = (Ok (image_paths, texts), fs') ->
  exists images,
    convert_from_path pdf_path (poppler_path meipass) 600%Z = Ok images
    /\ forall k image, images !! k = Some image ->
         exists l r t,
           split_image image = Ok (l, r)
           /\ texts !! k = Some t
           /\ fs' !! joinpath output_dir (page_png (S k))
              = Some (ImageFile image)
           /\ fs' !! joinpath output_dir (page_col1 (S k))
              = Some (ImageFile l)
           /\ fs' !! joinpath output_dir (page_col2 (S k))
              = Some (ImageFile r)
           /\ fs' !! joinpath output_dir (page_txt (S k))
              = Some (TextFile t).
Proof.
  intros H.
  destruct (convert_pdf_to_images_ok _ _ _ _ _ _ _ _ _ _ H)
    as (images & Hr & _ & HF & Htxt).
  exists images. split; [exact Hr |]. intros k image Hk.
  revert H. unfold convert_pdf_to_images, bind at 1, lift, show_progress.
  rewrite Hr. intros H.
  destruct (convert_loop_files _ _ _ _ _ _ _ _ _ _ _ H k image Hk)
    as (l & r & Hs & F1 & F2 & F3).
  destruct (Forall2_lookup_l _ _ _ _ _ HF Hk) as (t & Ht & _).
  exists l, r, t. repeat (split; [assumption |]). now apply Htxt.
Qed.

Lemma convert_pdf_to_images_artifacts_witness :
  let run :=
    convert_pdf_to_images Sample.render Sample.recognize Sample.store_accepts
      None ["doc.pdf"%string] ["images"%string] ∅ in
  snd run !! ["images"; "page_2.png"]%string = Some (ImageFile (Sample.page 7))
  /\ snd run !! ["images"; "page_2_col1.png"]%string
     = Some (ImageFile (left_crop (Sample.page 7)))
  /\ snd run !! ["images"; "page_2_col2.png"]%string
     = Some (ImageFile (right_crop (Sample.page 7))).
Proof.
  intros run.
  assert (H1 : fst run
               = Ok ([["images"; "page_1.png"]; ["images"; "page_2.png"]]%string,
                     [str "ab" ++ [nl; nl] ++ str "ab";
                      str "cde" ++ [nl; nl] ++ str "cde"])).
  { lazy. reflexivity. }
  pose proof (surjective_pairing run) as H. rewrite H1 in H.
  destruct (convert_pdf_to_images_artifacts _ _ _ _ _ _ _ _ _ _ H)
    as (images & Hr & Hpages).
  injection Hr as <-.
  destruct (Hpages 1 (Sample.page 7) eq_refl)
    as (l & r & t & Hs & _ & F1 & F2 & F3 & _).
  rewrite split_image_defined in Hs by (unfold width, height; simpl; lia).
  injection Hs as <- <-. auto.
Defined.

(** X2. Whatever its outcome, a run of [convert_pdf_to_images] changes no
    file but the four files [page_{i}.png], [page_{i}_col1.png],
    [page_{i}_col2.png] and [page_{i}.txt] of its pages in the output
    directory: every other path holds after the run what it held before. *)
Theorem convert_pdf_to_images_frame
    (convert_from_path : Path -> Path -> Z -> result (list Image))
    (image_to_string : Image -> result text)
    (writable : Path -> bool) (meipass : option Path)
    (pdf_path output_dir : Path) (fs : FS) (path : Path) :
  (forall i, path ∉ artifacts output_dir i) ->
  snd (convert_pdf_to_images convert_from_path image_to_string writable
         meipass pdf_path output_dir fs) !! path
  = fs !! path.
Proof.
  intros Hpath. unfold convert_pdf_to_images, bind at 1, lift, show_progress.
  destruct (convert_from_path pdf_path (poppler_path meipass) 600%Z)
    as [images | e]; [| reflexivity].
  destruct (convert_loop image_to_string writable output_dir
              (enumerate 1 images) [] [] fs) as [r fs'] eqn:H.
  simpl. eapply convert_loop_frame; [exact H |].
  intros j _. apply Hpath.
Qed.

Lemma convert_pdf_to_images_frame_witness :
  let fs : FS := {[ ["notes"; "todo.txt"]%string := TextFile (str "keep") ]} in
  snd (convert_pdf_to_images Sample.render Sample.recognize
         Sample.store_accepts None ["doc.pdf"%string] ["images"%string] fs)
    !! ["notes"; "todo.txt"]%string
  = Some (TextFile (str "keep")).
Proof.
  intros fs. rewrite convert_pdf_to_images_frame.
  - apply lookup_singleton_eq.
  - intros i Hin. unfold artifacts in Hin.
    apply list_elem_of_fmap in Hin. destruct Hin as (e & Heq & _).
    discriminate.
Defined.

(** X3. When the renderer returns the pages, the recognizer answers on
    every image and the store accepts every write, a run of
    [convert_pdf_to_images] succeeds, with one path and one text per page,
    if every page is at least two pixels wide and one pixel high, and only
    then: a page of width 0 or 1, or of height 0, has no pixels or leaves a
    left column without pixels, which [Image.save] refuses. *)
Theorem convert_pdf_to_images_completes
    (convert_from_path : Path -> Path -> Z -> result (list Image))
    (image_to_string : Image -> result text)
    (writable : Path -> bool) (meipass : option Path)
    (pdf_path output_dir : Path) (images : list Image) (fs : FS) :
  convert_from_path pdf_path (poppler_path meipass) 600%Z = Ok images ->
  (forall path, writable path = true) ->
  (forall image, exists t, image_to_string image = Ok t) ->
  (Forall (fun image => (2 <= width image)%Z /\ (1 <= height image)%Z) images ->
   exists texts fs',
     convert_pdf_to_images convert_from_path image_to_string writable meipass
       pdf_path output_dir fs
     = (Ok (map (fun i => joinpath output_dir (page_png i))
                (seq 1 (length images)), texts), fs')
     /\ length texts = length images)
  /\ (forall r fs',
        convert_pdf_to_images convert_from_path image_to_string writable
          meipass pdf_path output_dir fs = (Ok r, fs') ->
        Forall (fun image => (2 <= width image)%Z /\ (1 <= height image)%Z)
          images).
Proof.
  intros Hr Hw Hocr. split.
  - intros Hsize.
    destruct (convert_pdf_to_images_succeeds convert_from_path image_to_string
                writable meipass pdf_path output_dir images fs Hr Hw Hocr Hsize)
      as (ps & ts & fs' & H).
    destruct (convert_pdf_to_images_ok _ _ _ _ _ _ _ _ _ _ H)
      as (images' & Hr' & -> & HF & _).
    rewrite Hr in Hr'. injection Hr' as <-.
    exists ts, fs'. split; [exact H |].
    symmetry. eapply Forall2_length. exact HF.
  - intros r fs' H. eapply convert_pdf_to_images_sized; [exact Hr | exact H].
Qed.

Lemma convert_pdf_to_images_completes_witness :
  exists texts fs',
    convert_pdf_to_images Sample.render Sample.recognize Sample.store_accepts
      None ["doc.pdf"%string] ["images"%string] ∅
    = (Ok ([["images"; "page_1.png"]; ["images"; "page_2.png"]]%string,
           texts), fs')
    /\ length texts = 2.
Proof.
  apply (convert_pdf_to_images_completes Sample.render Sample.recognize
           Sample.store_accepts None ["doc.pdf"%string] ["images"%string]
           [Sample.page 4; Sample.page 7] ∅).
  - reflexivity.
  - reflexivity.
  - intros image. eexists. reflexivity.
  - repeat constructor; unfold width, height; simpl; lia.
Defined.



Lemma legacy_convert_loop_agrees (image_to_string : Image -> result text)
    (writable : Path -> bool) (output_dir : Path) (images : list Image) :
  forall i image_paths texts fs,
    Legacy.convert_loop image_to_string writable output_dir
      (enumerate i images) image_paths texts fs
    = convert_loop image_to_string writable output_dir
        (enumerate (S i) images) image_paths texts fs.
Proof.
  induction images as [| image images IH]; intros i ps ts fs;
    [reflexivity |].
  simpl. rewrite Nat.add_1_r.
  unfold process_page, bind, write_text,
    extract_text_from_image, lift, ret. cbv zeta.
  destruct (save_image writable image (joinpath output_dir (page_png (S i)))
              fs)
    as [[[] | e] fs1]; [| reflexivity].
  destruct (split_image image) as [[l r] | e]; [| reflexivity].
  destruct (save_image writable l (joinpath output_dir (page_col1 (S i))) fs1)
    as [[[] | e] fs2]; [| reflexivity].
  destruct (save_image writable r (joinpath output_dir (page_col2 (S i))) fs2)
    as [[[] | e] fs3]; [| reflexivity].
  destruct (image_to_string l) as [lt | e]; [| reflexivity].
  destruct (image_to_string r) as [rt | e]; [| reflexivity].
  change (lt ++ [nl; nl] ++ rt) with (lt ++ nl :: nl :: rt).
  destruct (write_file writable (joinpath output_dir (page_txt (S i)))
              (TextFile (lt ++ nl :: nl :: rt)) fs3)
    as [[[] | e] fs4]; [| reflexivity].
  apply IH.
Qed.

(** X5. The converter of the two legacy files and the converter of
    [patent_text_extractor.py] are the same function: on every document,
    environment and file store they return the same result (paths and texts,
    or the same error) and leave the same files. Counting the pages from 0
    and naming them with [i + 1], and appending the text before its file is
    written, changes nothing. *)
Theorem legacy_convert_pdf_to_images_agrees
    (convert_from_path : Path -> Path -> Z -> result (list Image))
    (image_to_string : Image -> result text)
    (writable : Path -> bool) (meipass : option Path)
    (pdf_path output_dir : Path) (fs : FS) :
  Legacy.convert_pdf_to_images convert_from_path image_to_string writable
    meipass pdf_path output_dir fs
  = convert_pdf_to_images convert_from_path image_to_string writable
      meipass pdf_path output_dir fs.
Proof.
  unfold Legacy.convert_pdf_to_images, convert_pdf_to_images,
    show_progress; cbv zeta.
  change (Legacy.poppler_path meipass) with (poppler_path meipass).
  unfold bind, lift.
  destruct (convert_from_path pdf_path (poppler_path meipass) 600%Z)
    as [images | e]; [| reflexivity].
  apply legacy_convert_loop_agrees.
Qed.

(* ===================================================================== *)
(** ** Patterns of fixed shape before [\b] *)
(* ===================================================================== *)

Lemma orelse_none_r {A} (o : option A) : orelse o None = o.
Proof. now destruct o. Qed.

Lemma orelse_last_cons {A} (x : A) (u : list A) (p : option A) :
  orelse (last (x :: u)) p = orelse (last u) (Some x).
Proof. rewrite last_cons. now destruct (last u). Qed.

Lemma orelse_last_app {A} (u1 u2 : list A) (p : option A) :
  orelse (last (u1 ++ u2)) p = orelse (last u2) (orelse (last u1) p).
Proof. rewrite last_app. now destruct (last u2). Qed.

Section FixedLast.

Variable ic : bool.
Context {R : Type}.

(** A repetition of fixed length, with the character it ends on. *)
Lemma rep_greedy_exact_last (a : atom) (n : nat) (p : option ascii)
    (s : text) (k : option ascii -> text -> option R) :
  rep_greedy ic a n (Some n) p s k =
  match split_shape (repeat (atom_match ic a) n) s with
  | Some (u, s') => k (orelse (last u) p) s'
  | None => None
  end.
Proof.
  revert p s. induction n as [| n IH]; intros p s.
  - now rewrite rep_greedy_done.
  - destruct s as [| x s]; [reflexivity |]. simpl.
    destruct (atom_match ic a x); [| reflexivity].
    rewrite IH.
    destruct (split_shape (repeat (atom_match ic a) n) s) as [[u r] |];
      [| reflexivity].
    rewrite orelse_last_cons. now destruct (k _ r).
Qed.

Lemma rep_lazy_exact_last (a : atom) (n : nat) (p : option ascii)
    (s : text) (k : option ascii -> text -> option R) :
  rep_lazy ic a n (Some n) p s k =
  match split_shape (repeat (atom_match ic a) n) s with
  | Some (u, s') => k (orelse (last u) p) s'
  | None => None
  end.
Proof.
  revert p s. induction n as [| n IH]; intros p s.
  - destruct s; simpl; now destruct (k p _).
  - destruct s as [| x s]; [reflexivity |]. simpl.
    destruct (atom_match ic a x); [| reflexivity].
    rewrite IH.
    destruct (split_shape (repeat (atom_match ic a) n) s) as [[u r] |];
      [| reflexivity].
    now rewrite orelse_last_cons.
Qed.

(** A pattern of fixed shape hands its continuation the text after the
    shape and the last character of the shape. *)
Lemma run_fixed_last (r : regex) :
  forall (sh : list (ascii -> bool)) (st : mstate) (k : mstate -> option R),
    fixed ic r = Some sh ->
    run ic r st k =
    match split_shape sh (rest st) with
    | Some (u, s') => k (MState (orelse (last u) (prev st)) s' (grp st))
    | None => None
    end.
Proof.
  induction r as [| a | a lo hi g | r1 IH1 r2 IH2 | | | | |];
    intros sh [p s g0] k Hsh; simpl in Hsh; try discriminate.
  - injection Hsh as <-. reflexivity.
  - injection Hsh as <-. simpl. destruct s as [| x s]; [reflexivity |].
    now destruct (atom_match ic a x).
  - destruct hi as [hi |]; [| discriminate].
    destruct (Nat.eqb_spec lo hi) as [<- |]; [| discriminate].
    injection Hsh as <-. simpl.
    destruct g; [apply rep_greedy_exact_last | apply rep_lazy_exact_last].
  - destruct (fixed ic r1) as [sh1 |] eqn:E1; [| discriminate].
    destruct (fixed ic r2) as [sh2 |] eqn:E2; [| discriminate].
    injection Hsh as <-. simpl.
    rewrite (IH1 sh1 _ _ eq_refl), split_shape_cat. simpl.
    destruct (split_shape sh1 s) as [[u1 s1] |]; [| reflexivity].
    rewrite (IH2 sh2 _ _ eq_refl). simpl.
    destruct (split_shape sh2 s1) as [[u2 s2] |]; [| reflexivity].
    now rewrite orelse_last_app.
Qed.

Lemma run_bound (st : mstate) (k : mstate -> option R) :
  run ic Bound st k = if at_boundary st then k st else None.
Proof. reflexivity. Qed.

(** A pattern of fixed shape that ends on a word character, followed by
    [\b]: the shape, and no word character after it. *)
Lemma run_fixed_bound (r : regex) (sh : list (ascii -> bool))
    (t : ascii -> bool) (st : mstate) (k : mstate -> option R) :
  fixed ic r = Some (sh ++ [t]) ->
  (forall c, t c = true -> is_word c = true) ->
  pins k ->
  run ic (Seq r Bound) st k =
  via (sh ++ [t]) (rest st)
    (fun s' => if word_opt (head s') then None
               else k (MState None s' (grp st))).
Proof.
  intros Hsh Ht Hk. rewrite run_seq, (run_fixed_last r _ _ _ Hsh).
  unfold via. rewrite split_shape_cat.
  destruct (split_shape sh (rest st)) as [[u1 s1] |]; [| reflexivity].
  destruct s1 as [| d s1]; [reflexivity |]. simpl.
  destruct (t d) eqn:Hd; [| reflexivity].
  unfold at_boundary. cbn [prev rest].
  rewrite last_snoc. simpl. rewrite (Ht d Hd). simpl.
  destruct (word_opt (head s1)); [reflexivity |]. now apply Hk.
Qed.

(** One or two characters, the longer run first. *)
Lemma run_rep_1_2 (a : atom) (st : mstate) (k : mstate -> option R) :
  pins k ->
  let f n := via (repeat (atom_match ic a) n) (rest st)
               (fun s' => k (MState None s' (grp st))) in
  run ic (Rep a 1 (Some 2) true) st k = orelse (f 2) (f 1).
Proof.
  intros Hk f. subst f. destruct st as [p s g]. unfold via.
  cbn [run rest grp prev].
  destruct s as [| x [| y s]]; simpl;
    repeat match goal with
           | |- context [if atom_match ic a ?c then _ else _] =>
               destruct (atom_match ic a c); simpl
           end;
    rewrite ?rep_greedy_done;
    rewrite ?(pins_at k (Some x)), ?(pins_at k (Some y)) by exact Hk;
    repeat match goal with
           | |- context [match k ?st with _ => _ end] => destruct (k st); simpl
           end;
    reflexivity.
Qed.

(** The members of an alternation of literals are tried in their order. *)
Lemma run_alts_first (l : list string) (r : regex) (st : mstate)
    (k : mstate -> option R) :
  l <> [] ->
  run ic (Seq (alts l) r) st k
  = first_some (fun mon => run ic (Seq (lits (str mon)) r) st k) l.
Proof.
  induction l as [| mon l IH]; [contradiction |]. intros _.
  destruct l as [| mon' l].
  - simpl. now rewrite orelse_none_r.
  - change (alts (mon :: mon' :: l))
      with (Alt (lits (str mon)) (alts (mon' :: l))).
    rewrite run_seq, run_alt.
    change (first_some ?f (mon :: mon' :: l))
      with (orelse (f mon) (first_some f (mon' :: l))).
    rewrite <- IH by discriminate. reflexivity.
Qed.

(** [\s*] before a continuation that fails on whitespace and looks at the
    character before the position only to see whether it is a word
    character: all the whitespace is skipped. *)
Lemma run_star_space_all (st : mstate) (k : mstate -> option R) :
  (forall p p' s g, word_opt p = word_opt p' ->
                    k (MState p s g) = k (MState p' s g)) ->
  (forall p c s g, is_space c = true -> k (MState p (c :: s) g) = None) ->
  run ic (star Space) st k
  = k (MState (match rest st with
               | c :: _ => if is_space c then None else prev st
               | [] => prev st
               end) (lstrip_ws (rest st)) (grp st)).
Proof.
  intros Hp Hs. destruct st as [p s g]. simpl.
  revert p. induction s as [| c s IH]; intros p; [reflexivity |].
  cbn [rep_greedy hi_zero Nat.eqb atom_match lstrip_ws].
  destruct (is_space c) eqn:Ec; [| reflexivity].
  cbn [hi_pred Nat.pred]. rewrite IH, (Hs p c s g Ec).
  assert (Hw : is_word c = false).
  { revert Ec. generalize c. clear.
    assert (H : forall c, is_space c && is_word c = false).
    { apply (ascii_forall_eq (fun c => is_space c && is_word c)
               (fun _ => false)). vm_compute. reflexivity. }
    intros c Ec. specialize (H c). now rewrite Ec in H. }
  rewrite (Hp _ None (lstrip_ws s) g).
  - now destruct (k _).
  - destruct s as [| d s]; simpl; [exact Hw |].
    destruct (is_space d); [reflexivity | exact Hw].
Qed.

End FixedLast.

(* ===================================================================== *)
(** ** The date rule *)
(* ===================================================================== *)

Lemma fixed_lits (ic : bool) (w : text) :
  fixed ic (lits w) = Some (literal ic w).
Proof.
  induction w as [| c w IH]; simpl; [reflexivity |]. now rewrite IH.
Qed.

Lemma is_digit_word (c : ascii) : is_digit c = true -> is_word c = true.
Proof. intros H. unfold is_word. now rewrite H. Qed.

Lemma is_space_not_word (c : ascii) : is_space c = true -> is_word c = false.
Proof.
  assert (H : forall c, is_space c && is_word c = false).
  { apply (ascii_forall_eq (fun c => is_space c && is_word c)
             (fun _ => false)). vm_compute. reflexivity. }
  intros Ec. specialize (H c). now rewrite Ec in H.
Qed.

Lemma split_shape_literal_exact (w s u r : text) :
  split_shape (literal false w) s = Some (u, r) -> u = w.
Proof.
  revert s u r. induction w as [| c w IH]; intros s u r; simpl.
  - now intros [= <- _].
  - destruct s as [| x s]; [discriminate |]. unfold same_char at 1.
    destruct (bool_decide_reflect (x = c)) as [-> |]; [| discriminate].
    destruct (split_shape (literal false w) s) as [[u' r'] |] eqn:E;
      [| discriminate].
    intros [= <- _]. f_equal. now apply (IH s u' r').
Qed.

Lemma first_some_ext {A B} (f g : A -> option B) (l : list A) :
  (forall a, In a l -> f a = g a) -> first_some f l = first_some g l.
Proof.
  induction l as [| a l IH]; intros H; [reflexivity |]. simpl.
  rewrite (H a) by now left. rewrite IH; [reflexivity |].
  intros b Hb. apply H. now right.
Qed.

Lemma first_some_none {A B} (f : A -> option B) (l : list A) :
  (forall a, In a l -> f a = None) -> first_some f l = None.
Proof.
  induction l as [| a l IH]; intros H; [reflexivity |]. simpl.
  rewrite (H a) by now left. apply IH. intros b Hb. apply H. now right.
Qed.

Lemma first_some_some {A B} (f : A -> option B) (l : list A) (b : B) :
  first_some f l = Some b -> exists a, In a l /\ f a = Some b.
Proof.
  induction l as [| a l IH]; [discriminate |]. simpl.
  destruct (f a) as [b' |] eqn:E.
  - intros [= <-]. exists a. auto.
  - intros H. destruct (IH H) as (a' & Ha & Hf). exists a'. auto.
Qed.

Lemma option_map_first_some {A B C} (h : B -> C) (f : A -> option B)
    (l : list A) :
  option_map h (first_some f l)
  = first_some (fun a => option_map h (f a)) l.
Proof.
  induction l as [| a l IH]; [reflexivity |]. simpl.
  now rewrite option_map_orelse, IH.
Qed.

(** The day, the comma and the year: [\d{1,2},\s\d{4}\b] after [\.\s]. *)
Lemma run_date_tail {R} (st : mstate) (k : mstate -> option R) :
  pins k ->
  let after n :=
    via ([is_char "."; is_space] ++ repeat is_digit n
         ++ [is_char ","; is_space] ++ repeat is_digit 4) (rest st)
      (fun s' => if word_opt (head s') then None
                 else k (MState None s' (grp st))) in
  run false date_tail st k = orelse (after 2) (after 1).
Proof.
  intros Hk after. subst after. unfold date_tail. cbn [cat].
  set (T2 := Seq (lits (str ",")) (Seq (Atom Space) (Seq (times Digit 4) Bound))).
  assert (HT2 : forall st',
    run false T2 st' k
    = via ([is_char ","; is_space] ++ repeat is_digit 4) (rest st')
        (fun s' => if word_opt (head s') then None
                   else k (MState None s' (grp st')))).
  { intros st'.
    change (run false T2 st' k)
      with (run false
              (Seq (Seq (lits (str ",")) (Seq (Atom Space) (times Digit 4)))
                   Bound) st' k).
    apply (run_fixed_bound false _
             [is_char ","; is_space; is_digit; is_digit; is_digit] is_digit);
      [reflexivity | exact is_digit_word | exact Hk]. }
  assert (PT2 : pins (fun st' => run false T2 st' k)).
  { intros st1 st2 Hr Hg. now rewrite !HT2, Hr, Hg. }
  change (run false
            (Seq (lits (str "."))
               (Seq (Atom Space) (Seq (Rep Digit 1 (Some 2) true) T2))) st k)
    with (run false
            (Seq (Seq (lits (str ".")) (Atom Space))
               (Seq (Rep Digit 1 (Some 2) true) T2)) st k).
  rewrite run_seq.
  rewrite (run_fixed_last false (Seq (lits (str ".")) (Atom Space))
             [is_char "."; is_space] _ _ eq_refl).
  rewrite !(via_cat [is_char "."; is_space]). unfold via at 1 3.
  destruct (split_shape [is_char "."; is_space] (rest st)) as [[u s1] |];
    [| reflexivity].
  rewrite run_seq, (run_rep_1_2 false Digit _ _ PT2). cbn [rest grp].
  rewrite !via_cat.
  f_equal; apply via_ext; intros s2; now rewrite HT2.
Qed.

(** A month and what follows it. *)
Lemma run_date_month {R} (mon : string) (st : mstate)
    (k : mstate -> option R) :
  pins k ->
  let after n :=
    via (date_shape mon n) (rest st)
      (fun s' => if word_opt (head s') then None
                 else k (MState None s' (grp st))) in
  run false (Seq (lits (str mon)) date_tail) st k
  = orelse (after 2) (after 1).
Proof.
  intros Hk after. subst after. unfold date_shape.
  rewrite run_seq, (run_fixed_last false _ _ _ _ (fixed_lits false (str mon))).
  rewrite !(via_cat (literal false (str mon))). unfold via at 1 3.
  destruct (split_shape (literal false (str mon)) (rest st)) as [[u s1] |];
    [| reflexivity].
  now rewrite (run_date_tail _ k Hk).
Qed.

(** The text of the group, recovered from the lengths. *)
Lemma date_try_via (s0 s : text) (mon : string) (n : nat) :
  option_map grp1
    (via (date_shape mon n) s
       (fun s' => if word_opt (head s') then None
                  else matched s0
                         (MState None s'
                            (Some (firstn (length s - length s') s)))))
  = date_try mon n s.
Proof.
  unfold via, date_try.
  destruct (split_shape (date_shape mon n) s) as [[w r] |] eqn:E;
    [| reflexivity].
  destruct (word_opt (head r)); [reflexivity |]. simpl. unfold grp1. simpl.
  apply split_shape_app in E. destruct E as [E _].
  now rewrite (take_consumed s w r E).
Qed.

(** The first letter of a date is a letter of its month. *)
Lemma via_date_shape_head {A} (mon : string) (n : nat) (c : ascii) (s : text)
    (k : text -> option A) :
  In mon months -> is_word c = false -> via (date_shape mon n) (c :: s) k = None.
Proof.
  intros Hmon Hc. unfold via, date_shape.
  assert (H : exists x m, str mon = x :: m /\ is_word x = true).
  { simpl in Hmon.
    repeat (destruct Hmon as [<- | Hmon];
            [eexists _, _; split; reflexivity |]).
    contradiction. }
  destruct H as (x & m & -> & Hx). simpl. unfold same_char at 1.
  destruct (bool_decide_reflect (c = x)) as [-> |]; [congruence | reflexivity].
Qed.

(** The capture group of the date pattern at a position. *)
Lemma date_group_at (s0 : text) (p : option ascii) (s : text)
    (g : option text) :
  run false (Group (cat [Bound; alts months; date_tail])) (MState p s g)
    (matched s0)
  = if xorb (word_opt p) (word_opt (head s)) then
      first_some (fun mon =>
        let cut n :=
          via (date_shape mon n) s
            (fun s' => if word_opt (head s') then None
                       else matched s0
                              (MState None s'
                                 (Some (firstn (length s - length s') s)))) in
        orelse (cut 2) (cut 1)) months
    else None.
Proof.
  rewrite run_group. cbn [cat rest]. rewrite run_seq.
  change (run false Bound ?st ?k) with (if at_boundary st then k st else None).
  unfold at_boundary. cbn [prev rest].
  destruct (xorb (word_opt p) (word_opt (head s))); [| reflexivity].
  rewrite run_alts_first by discriminate.
  apply first_some_ext. intros mon _.
  rewrite run_date_month; [reflexivity |].
  intros st st' Hr Hg. now rewrite Hr.
Qed.

Lemma date_group_body (s0 s : text) :
  option_map grp1
    (first_some (fun mon =>
       let cut n :=
         via (date_shape mon n) s
           (fun s' => if word_opt (head s') then None
                      else matched s0
                             (MState None s'
                                (Some (firstn (length s - length s') s)))) in
       orelse (cut 2) (cut 1)) months)
  = date_body s.
Proof.
  rewrite option_map_first_some. unfold date_body.
  apply first_some_ext. intros mon _. cbv zeta.
  now rewrite option_map_orelse, !date_try_via.
Qed.

Lemma date_try_word (mon : string) (n : nat) (s w : text) :
  In mon months -> date_try mon n s = Some w -> word_opt (head s) = true.
Proof.
  intros Hmon H. destruct s as [| c s].
  - unfold date_try, date_shape in H.
    assert (E : exists x m, str mon = x :: m).
    { simpl in Hmon.
      repeat (destruct Hmon as [<- | Hmon]; [eexists _, _; reflexivity |]).
      contradiction. }
    destruct E as (x & m & E). rewrite E in H. discriminate.
  - simpl. destruct (is_word c) eqn:Ec; [reflexivity |].
    pose proof (via_date_shape_head mon n c s
                  (fun r => if word_opt (head r) then None else Some r)
                  Hmon Ec) as Hv.
    unfold via in Hv. unfold date_try in H.
    destruct (split_shape (date_shape mon n) (c :: s)) as [[u r] |];
      [| discriminate].
    destruct (word_opt (head r)); discriminate.
Qed.

Lemma date_body_word (s w : text) :
  date_body s = Some w -> word_opt (head s) = true.
Proof.
  unfold date_body. intros H. apply first_some_some in H.
  destruct H as (mon & Hmon & H).
  destruct (date_try mon 2 s) as [w2 |] eqn:E2.
  - now apply (date_try_word mon 2 s w2).
  - now apply (date_try_word mon 1 s w).
Qed.

(** The date rule at one position of the text. *)
Lemma date_match_at (p : option ascii) (s : text) :
  option_map grp1 (match_at false date_re p s) = date_at s.
Proof.
  unfold match_at, date_re, date_at. cbn [cat].
  set (G := Group (Seq Bound (Seq (alts months) date_tail))).
  assert (HG : forall q s' g,
    run false G (MState q s' g) (matched s)
    = if xorb (word_opt q) (word_opt (head s')) then
        first_some (fun mon =>
          let cut n :=
            via (date_shape mon n) s'
              (fun r => if word_opt (head r) then None
                        else matched s
                               (MState None r
                                  (Some (firstn (length s' - length r) s')))) in
          orelse (cut 2) (cut 1)) months
      else None).
  { intros q s' g. apply (date_group_at s q s' g). }
  rewrite run_seq, (run_fixed_last false _ _ _ _ (fixed_lits false (str "(45)"))).
  cbn [rest prev grp]. unfold after_prefix at 1.
  destruct (split_shape (literal false (str "(45)")) s) as [[u a] |];
    [| reflexivity].
  cbn [option_map snd].
  rewrite run_seq, run_star_space_all.
  - cbn [rest prev grp].
    rewrite run_seq,
      (run_fixed_last false _ _ _ _
         (fixed_lits false (str "Date of Patent:"))).
    cbn [rest prev grp]. unfold after_prefix.
    destruct (split_shape (literal false (str "Date of Patent:"))
                (lstrip_ws a)) as [[u2 b] |] eqn:E2; [| reflexivity].
    apply split_shape_literal_exact in E2. subst u2.
    cbn [option_map snd].
    rewrite run_seq, run_star_space_all.
    + cbn [rest prev grp]. rewrite HG.
      assert (Hp : forall (pv : option ascii) (b' : text),
                word_opt pv = false ->
                word_opt match b' with
                         | [] => pv
                         | c :: _ => if is_space c then None else pv
                         end = false).
      { intros pv [| c b'] H; [exact H |].
        destruct (is_space c); [reflexivity | exact H]. }
      rewrite Hp by reflexivity. cbn [xorb].
      rewrite <- (date_group_body s (lstrip_ws b)).
      destruct (word_opt (head (lstrip_ws b))) eqn:Ew; [reflexivity |].
      destruct (date_body (lstrip_ws b)) as [w |] eqn:Eb.
      * apply date_body_word in Eb. congruence.
      * rewrite date_group_body. now rewrite Eb.
    + intros q q' s' g Hq. now rewrite !HG, Hq.
    + intros q c s' g Hc. rewrite HG.
      destruct (xorb _ _); [| reflexivity].
      apply first_some_none. intros mon Hmon. cbv beta zeta.
      now rewrite !(via_date_shape_head mon _ c s' _ Hmon
                      (is_space_not_word c Hc)).
  - intros q q' [| x s'] g _; reflexivity.
  - intros q c s' g Hc. cbn [run lits str list_ascii_of_string].
    cbn [rest atom_match]. unfold same_char.
    destruct (bool_decide_reflect (c = "D"%char)) as [-> |];
      [discriminate | reflexivity].
Qed.

Lemma date_match_first (t : text) :
  option_map grp1 (date_match t) = first_match date_at t.
Proof. apply search_first_match, date_match_at. Qed.

Lemma date_is_spec (t : text) : date (parse_patent_info t) = date_spec t.
Proof.
  unfold parse_patent_info, date_spec. cbn [date].
  rewrite <- date_match_first. now destruct (date_match t).
Qed.

(** X6. The date is the text matched at the first position, from the left,
    where the text reads [(45)], any whitespace, [Date of Patent:], any
    whitespace, and then a date: one of the twelve month abbreviations, a
    period, one whitespace character, one or two digits, a comma, one
    whitespace character and four digits, with no word character directly
    after them. When no [(45)] comes before the sample line in a text and
    no word character follows it, the date is [Jan. 5, 2021]; without any
    [(45)] it is [Date N/A]. *)
Theorem date_rule :
  (forall t, date (parse_patent_info t) = date_spec t)
  /\ (forall pre post,
        contains false (str "(45)") pre = false ->
        word_opt (head post) = false ->
        date (parse_patent_info (pre ++ date_sample ++ post))
        = str "Jan. 5, 2021")
  /\ (forall t,
        contains false (str "(45)") t = false ->
        date (parse_patent_info t) = str "Date N/A").
Proof.
  split; [exact date_is_spec |]. split.
  - intros pre post Hpre Hpost. rewrite date_is_spec. unfold date_spec.
    rewrite first_match_skip.
    + assert (E : date_at (date_sample ++ post) = Some (str "Jan. 5, 2021")).
      { unfold date_at, date_body, date_try. simpl. now rewrite Hpost. }
      change (date_sample ++ post)
        with ("("%char :: str "45) Date of Patent: Jan. 5, 2021" ++ post) in *.
      cbn [first_match]. now rewrite E.
    + intros u v Huv Hv. unfold date_at.
      change (date_sample ++ post)
        with ("("%char :: str "45) Date of Patent: Jan. 5, 2021" ++ post).
      now rewrite (no_heading_before false (str "(45)") pre "(" _ Hpre
                     ltac:(repeat constructor) u v Huv Hv).
  - intros t Ht. rewrite date_is_spec. unfold date_spec.
    rewrite first_match_none; [reflexivity |].
    intros u v Huv. unfold date_at.
    now rewrite (no_heading_anywhere false _ t Ht u v Huv).
Qed.

Lemma date_rule_witness :
  (contains false (str "(45)") (str "(12) United States Patent ") = false
   /\ word_opt (head (str " (54) TITLE")) = false
   /\ date (parse_patent_info
              (str "(12) United States Patent " ++ date_sample
               ++ str " (54) TITLE"))
      = str "Jan. 5, 2021")
  /\ (contains false (str "(45)") (str "Date of Patent: Jan. 5, 2021") = false
      /\ date (parse_patent_info (str "Date of Patent: Jan. 5, 2021"))
         = str "Date N/A").
Proof.
  destruct date_rule as (_ & Hsample & Hnone).
  split; [split; [reflexivity | split; [reflexivity |]] | split; [reflexivity |]].
  - apply Hsample; reflexivity.
  - apply Hnone. reflexivity.
Defined.

Lemma split_shape_tests (sh : list (ascii -> bool)) (s w r : text) :
  split_shape sh s = Some (w, r) ->
  Forall2 (fun test c => test c = true) sh w.
Proof.
  revert s w r. induction sh as [| test sh IH]; intros s w r; simpl.
  - intros [= <- _]. constructor.
  - destruct s as [| x s]; [discriminate |].
    destruct (test x) eqn:Ex; [| discriminate].
    destruct (split_shape sh s) as [[w' r'] |] eqn:E; [| discriminate].
    intros [= <- _]. constructor; [exact Ex | now apply (IH s w' r')].
Qed.

Lemma tests_repeat (test : ascii -> bool) (n : nat) (w : text) :
  Forall2 (fun test c => test c = true) (repeat test n) w ->
  Forall (fun c => test c = true) w /\ length w = n.
Proof.
  revert w. induction n as [| n IH]; intros w H; simpl in H.
  - apply Forall2_nil_inv_l in H. subst. split; [constructor | reflexivity].
  - apply Forall2_cons_inv_l in H. destruct H as (c & w' & Hc & Hw & ->).
    destruct (IH w' Hw) as [HF <-]. split; [now constructor | reflexivity].
Qed.

Lemma tests_literal (w0 w : text) :
  Forall2 (fun test c => test c = true) (literal false w0) w -> w = w0.
Proof.
  revert w. induction w0 as [| c w0 IH]; intros w H; simpl in H.
  - now apply Forall2_nil_inv_l in H.
  - apply Forall2_cons_inv_l in H. destruct H as (x & w' & Hx & Hw & ->).
    unfold same_char in Hx. apply bool_decide_eq_true in Hx. subst x.
    f_equal. now apply IH.
Qed.

(** The form of a date that [date_try] accepts. *)
Lemma date_try_form (mon : string) (n : nat) (s w : text) :
  date_try mon n s = Some w ->
  exists ws1 day ws2 year r,
    w = str mon ++ "."%char :: ws1 :: day ++ ","%char :: ws2 :: year
    /\ is_space ws1 = true /\ is_space ws2 = true
    /\ Forall (fun c => is_digit c = true) day /\ length day = n
    /\ Forall (fun c => is_digit c = true) year /\ length year = 4
    /\ s = w ++ r.
Proof.
  unfold date_try.
  destruct (split_shape (date_shape mon n) s) as [[w' r] |] eqn:E;
    [| discriminate].
  destruct (word_opt (head r)); [discriminate |]. intros [= ->].
  pose proof (split_shape_app _ _ _ _ E) as [Hs _].
  apply split_shape_tests in E. unfold date_shape in E.
  apply Forall2_app_inv_l in E.
  destruct E as (w1 & k1 & H1 & E & ->). apply tests_literal in H1. subst w1.
  apply Forall2_app_inv_l in E.
  destruct E as (w2 & k2 & H2 & E & ->).
  apply Forall2_cons_inv_l in H2. destruct H2 as (dot & w2' & Hdot & H2 & ->).
  apply Forall2_cons_inv_l in H2. destruct H2 as (ws1 & w2'' & Hws1 & H2 & ->).
  apply Forall2_nil_inv_l in H2. subst w2''.
  apply Forall2_app_inv_l in E.
  destruct E as (day & k3 & H3 & E & ->). apply tests_repeat in H3.
  destruct H3 as [Hday Hlen].
  apply Forall2_app_inv_l in E.
  destruct E as (w4 & year & H4 & E & ->).
  apply Forall2_cons_inv_l in H4. destruct H4 as (com & w4' & Hcom & H4 & ->).
  apply Forall2_cons_inv_l in H4. destruct H4 as (ws2 & w4'' & Hws2 & H4 & ->).
  apply Forall2_nil_inv_l in H4. subst w4''.
  apply tests_repeat in E. destruct E as [Hyear Hlen4].
  unfold is_char in Hdot, Hcom.
  apply bool_decide_eq_true in Hdot, Hcom. subst dot com.
  exists ws1, day, ws2, year, r. simpl. repeat split; assumption.
Qed.

(** X7. A date that [parse_patent_info] extracts (any date but the
    placeholder [Date N/A]) is a part of the text, as it stands there: a
    month abbreviation of the list, a period, one whitespace character, a
    day of one or two digits, a comma, one whitespace character and a year
    of four digits. The day and the year are digits of any value, and the
    whitespace characters are not normalized. *)
Theorem date_form (t : text) :
  date (parse_patent_info t) = str "Date N/A"
  \/ exists mon ws1 day ws2 year u v,
       In mon months
       /\ date (parse_patent_info t)
          = str mon ++ "."%char :: ws1 :: day ++ ","%char :: ws2 :: year
       /\ is_space ws1 = true /\ is_space ws2 = true
       /\ Forall (fun c => is_digit c = true) day
       /\ (length day = 1 \/ length day = 2)
       /\ Forall (fun c => is_digit c = true) year /\ length year = 4
       /\ t = u ++ date (parse_patent_info t) ++ v.
Proof.
  rewrite date_is_spec. unfold date_spec.
  destruct (first_match date_at t) as [w |] eqn:E; [right | now left].
  apply first_match_some in E. destruct E as (u0 & v0 & <- & E).
  unfold date_at in E.
  destruct (after_prefix false (str "(45)") v0) as [a |] eqn:Ea;
    [| discriminate].
  destruct (after_prefix false (str "Date of Patent:") (lstrip_ws a))
    as [b |] eqn:Eb; [| discriminate].
  assert (Hsuf : lstrip_ws b `suffix_of` v0).
  { transitivity b; [apply lstrip_ws_suffix |].
    transitivity (lstrip_ws a); [now apply after_prefix_suffix in Eb |].
    transitivity a; [apply lstrip_ws_suffix |].
    now apply after_prefix_suffix in Ea. }
  destruct Hsuf as [u1 Hu1].
  unfold date_body in E. apply first_some_some in E.
  destruct E as (mon & Hmon & E).
  assert (Hn : exists n, (n = 1 \/ n = 2) /\ date_try mon n (lstrip_ws b) = Some w).
  { destruct (date_try mon 2 (lstrip_ws b)) as [w2 |] eqn:E2.
    - injection E as <-. exists 2. auto.
    - exists 1. auto. }
  destruct Hn as (n & Hn & Ht). apply date_try_form in Ht.
  destruct Ht as (ws1 & day & ws2 & year & r & Hw & H1 & H2 & Hd & Hl & Hy
                  & Hl4 & Hr).
  exists mon, ws1, day, ws2, year, (u0 ++ u1), r.
  repeat (split; [first [assumption | congruence] |]).
  rewrite Hu1, Hr, <- app_assoc. reflexivity.
Qed.

(* ===================================================================== *)
(** ** The abstract rule *)
(* ===================================================================== *)

Lemma look_abstract_stop {R} (st : mstate) (k : mstate -> option R) :
  run true (Look abstract_stop) st k
  = if abstract_end (rest st) then k st else None.
Proof.
  rewrite run_look. unfold abstract_stop, abstract_end.
  rewrite run_alt, look_two_newlines, look_end.
  destruct (at_blank_line (rest st)), (at_end (rest st)); reflexivity.
Qed.

(** The abstract rule at one position of the text. *)
Lemma abstract_match_at (p : option ascii) (s : text) :
  option_map grp1 (match_at true abstract_re p s) = abstract_at s.
Proof.
  unfold match_at, abstract_re, abstract_at. cbn [cat].
  set (body := Seq (star Space)
                 (Seq (Group (lazy_plus any_char)) (Look abstract_stop))).
  assert (Hbody : forall a,
    option_map grp1 (run true body (MState None a None) (matched s))
    = capture abstract_end (Some a)).
  { intros a. unfold body.
    rewrite (run_field_body abstract_stop abstract_end); try reflexivity.
    - apply field_body_group.
    - intros st' k'. apply look_abstract_stop. }
  assert (Hpins : pins (fun st => run true body st (matched s))).
  { apply pins_run; [reflexivity | apply pins_matched]. }
  change (str "Abstract:") with (str "Abstract" ++ str ":").
  rewrite after_prefix_cat.
  rewrite run_seq, run_lits.
  - cbn [rest grp].
    destruct (after_prefix true (str "Abstract") s) as [a |]; [| reflexivity].
    rewrite run_seq, run_opt, option_map_orelse, Hbody.
    f_equal. destruct a as [| x a]; [reflexivity |].
    cbn [run rest grp atom_match].
    change (str ":") with [":"%char].
    rewrite after_prefix_cons, after_prefix_nil.
    destruct (same_char true x ":"); [| reflexivity].
    rewrite (pins_at _ _ _ _ Hpins). apply Hbody.
  - apply pins_run; [reflexivity | apply pins_matched].
Qed.

Lemma abstract_match_first (t : text) :
  option_map grp1 (abstract_match t) = first_match abstract_at t.
Proof. apply search_first_match, abstract_match_at. Qed.

Lemma abstract_is_spec (t : text) :
  abstract (parse_patent_info t) = abstract_spec t.
Proof.
  unfold parse_patent_info, abstract_spec. cbn [abstract].
  rewrite <- abstract_match_first. now destruct (abstract_match t).
Qed.

(** X8. The abstract is the span captured at the first position, from the
    left, where [Abstract] (in any case of the letters) is followed by at
    least one character: a colon directly after the heading belongs to
    the heading when something follows the colon; whitespace (blank
    lines included) is then skipped as long as a character is left, and
    the span runs to the first position after its first character where
    two newlines start or the text ends; a section marker does not end
    it. The span is stripped. A text that starts with [Abstract:] and goes
    on has the stripped span after the colon as its abstract; the text
    [Abstract:] alone has the abstract [:]; without the heading the
    abstract is [Abstract N/A]. *)
Theorem abstract_rule :
  (forall t, abstract (parse_patent_info t) = abstract_spec t)
  /\ (forall c body,
        abstract (parse_patent_info (str "Abstract:" ++ c :: body))
        = strip (span abstract_end (skip_ws (c :: body))))
  /\ abstract (parse_patent_info (str "Abstract:")) = str ":"
  /\ (forall t,
        contains true (str "Abstract") t = false ->
        abstract (parse_patent_info t) = str "Abstract N/A").
Proof.
  split; [exact abstract_is_spec |]. split; [| split].
  - intros c body. rewrite abstract_is_spec. unfold abstract_spec.
    assert (E : abstract_at (str "Abstract:" ++ c :: body)
                = Some (span abstract_end (skip_ws (c :: body)))).
    { unfold abstract_at.
      assert (Ea : after_prefix true (str "Abstract:")
                     (str "Abstract:" ++ c :: body) = Some (c :: body)).
      { vm_compute. reflexivity. }
      rewrite Ea. reflexivity. }
    change (str "Abstract:" ++ c :: body)
      with ("A"%char :: str "bstract:" ++ c :: body) in *.
    cbn [first_match]. now rewrite E.
  - vm_compute. reflexivity.
  - intros t Ht. rewrite abstract_is_spec. unfold abstract_spec.
    rewrite first_match_none; [reflexivity |].
    intros u v Huv. unfold abstract_at.
    change (str "Abstract:") with (str "Abstract" ++ str ":").
    rewrite after_prefix_cat.
    now rewrite (no_heading_anywhere true _ t Ht u v Huv).
Qed.

Lemma abstract_rule_witness :
  contains true (str "Abstract") (str "(57) Summary: a gear train") = false
  /\ abstract (parse_patent_info (str "(57) Summary: a gear train"))
     = str "Abstract N/A".
Proof.
  destruct abstract_rule as (_ & _ & _ & Hnone).
  split; [reflexivity | apply Hnone; reflexivity].
Defined.

(** X9. A text that has none of the headings yields the five placeholders:
    without [(54)], without [US] in upper case, without [(45)], without
    [Inventor] and without [Abstract] (the last two in any case of the
    letters), [parse_patent_info] returns [Title N/A], [PATENT # N/A],
    [Date N/A], [Inventors N/A] and [Abstract N/A]; so it does on the empty
    text. *)
Theorem parse_patent_info_placeholders (t : text) :
  contains true (str "(54)") t = false ->
  contains false (str "US") t = false ->
  contains false (str "(45)") t = false ->
  contains true (str "Inventor") t = false ->
  contains true (str "Abstract") t = false ->
  parse_patent_info t
  = mkPatentInfo (str "Title N/A") (str "PATENT # N/A") (str "Date N/A")
      (str "Inventors N/A") (str "Abstract N/A").
Proof.
  intros Ht Hn Hd Hi Ha.
  assert (E : parse_patent_info t
              = mkPatentInfo (title (parse_patent_info t))
                  (number (parse_patent_info t)) (date (parse_patent_info t))
                  (inventors (parse_patent_info t))
                  (abstract (parse_patent_info t))) by reflexivity.
  rewrite E. f_equal.
  - rewrite title_is_spec. unfold title_spec.
    rewrite first_match_none; [reflexivity |].
    intros u v Huv. unfold title_at.
    now rewrite (no_heading_anywhere true _ t Ht u v Huv).
  - rewrite number_is_spec. unfold number_spec.
    rewrite first_match_none; [reflexivity |].
    intros u v Huv.
    destruct (number_at v) as [w |] eqn:Ew; [| reflexivity].
    assert (Hs : is_Some (after_prefix false (str "US") v)).
    { apply number_at_heading. rewrite Ew. eauto. }
    rewrite (no_heading_anywhere false _ t Hn u v Huv) in Hs.
    now destruct Hs.
  - rewrite date_is_spec. unfold date_spec.
    rewrite first_match_none; [reflexivity |].
    intros u v Huv. unfold date_at.
    now rewrite (no_heading_anywhere false _ t Hd u v Huv).
  - rewrite inventors_is_spec. unfold inventors_spec.
    rewrite first_match_none; [reflexivity |].
    intros u v Huv. unfold inventors_at.
    change (str "Inventors:") with (str "Inventor" ++ str "s:").
    change (str "Inventor:") with (str "Inventor" ++ str ":").
    rewrite !after_prefix_cat.
    now rewrite (no_heading_anywhere true _ t Hi u v Huv).
  - rewrite abstract_is_spec. unfold abstract_spec.
    rewrite first_match_none; [reflexivity |].
    intros u v Huv. unfold abstract_at.
    change (str "Abstract:") with (str "Abstract" ++ str ":").
    rewrite after_prefix_cat.
    now rewrite (no_heading_anywhere true _ t Ha u v Huv).
Qed.

Lemma parse_patent_info_placeholders_witness :
  parse_patent_info []
  = mkPatentInfo (str "Title N/A") (str "PATENT # N/A") (str "Date N/A")
      (str "Inventors N/A") (str "Abstract N/A")
  /\ parse_patent_info (str "United States Patent")
     = mkPatentInfo (str "Title N/A") (str "PATENT # N/A") (str "Date N/A")
         (str "Inventors N/A") (str "Abstract N/A").
Proof.
  split; apply parse_patent_info_placeholders; reflexivity.
Defined.

(* ===================================================================== *)
(** ** The patent line and [find] *)
(* ===================================================================== *)

Lemma find_from_skip (sub pre s : text) :
  (forall u v, u ++ v = pre -> v <> [] ->
               after_prefix false sub (v ++ s) = None) ->
  forall i, find_from i sub (pre ++ s)
            = find_from (i + Z.of_nat (length pre)) sub s.
Proof.
  induction pre as [| x pre IH]; intros H i.
  - simpl. now rewrite Z.add_0_r.
  - pose proof (H [] (x :: pre) eq_refl ltac:(discriminate)) as H0.
    simpl in H0. cbn [app find_from]. rewrite H0.
    rewrite IH by (intros u v <- Hv; now apply (H (x :: u) v)).
    f_equal. rewrite length_cons. lia.
Qed.

Lemma find_from_here (sub s : text) (i : Z) : find_from i sub (sub ++ s) = i.
Proof.
  assert (E : after_prefix false sub (sub ++ s) = Some s)
    by now apply after_prefix_exact.
  destruct (sub ++ s); simpl; now rewrite E.
Qed.

(** A text that occurs after a prefix none of whose characters is its own
    first character is found right after the prefix. *)
Lemma find_after (pre : text) (x : ascii) (w s : text) :
  Forall (fun c => same_char false c x = false) pre ->
  find (pre ++ (x :: w) ++ s) (x :: w) = Z.of_nat (length pre).
Proof.
  intros Hpre. unfold find. rewrite find_from_skip, find_from_here; [lia |].
  intros u v <- Hv. destruct v as [| c v]; [contradiction |].
  apply Forall_app in Hpre. destruct Hpre as [_ Hv'].
  apply Forall_cons in Hv'. destruct Hv' as [Hc _].
  simpl. now rewrite after_prefix_cons, Hc.
Qed.

Lemma number_at_us (s w : text) :
  number_at s = Some w -> exists w', w = "U"%char :: "S"%char :: w'.
Proof.
  unfold number_at. intros H.
  assert (Hn : exists n r, split_shape (number_shape n) s = Some (w, r)).
  { destruct (split_shape (number_shape 3) s) as [[w3 r3] |] eqn:E3;
      [injection H as <-; eauto |].
    destruct (split_shape (number_shape 2) s) as [[w2 r2] |] eqn:E2;
      [injection H as <-; eauto |].
    destruct (split_shape (number_shape 1) s) as [[w1 r1] |] eqn:E1;
      [injection H as <-; eauto | discriminate]. }
  destruct Hn as (n & r & E). apply split_shape_tests in E.
  unfold number_shape in E. simpl in E.
  apply Forall2_cons_inv_l in E. destruct E as (c1 & w1 & H1 & E & ->).
  apply Forall2_cons_inv_l in E. destruct E as (c2 & w2 & H2 & E & ->).
  unfold is_char in H1, H2. apply bool_decide_eq_true in H1, H2. subst.
  now exists w2.
Qed.

(** The number of a page is the placeholder or starts with [US]. *)
Lemma number_cases (t : text) :
  number (parse_patent_info t) = str "PATENT # N/A"
  \/ exists w', number (parse_patent_info t) = "U"%char :: "S"%char :: w'.
Proof.
  rewrite number_is_spec. unfold number_spec.
  destruct (first_match number_at t) as [w |] eqn:E; [right | now left].
  apply first_match_some in E. destruct E as (u & v & _ & E).
  now apply number_at_us in E.
Qed.

Lemma find_number (t : text) :
  find (patent_line (parse_patent_info t)) (number (parse_patent_info t))
  = 10%Z.
Proof.
  unfold patent_line. destruct (number_cases t) as [E | [w' E]]; rewrite E.
  - reflexivity.
  - apply (find_after (str "PATENT #: ") "U" ("S"%char :: w')).
    repeat constructor.
Qed.

Lemma characters_after (pre w s : text) :
  characters (Z.of_nat (length pre) + 1) (len w) (pre ++ w ++ s) = w.
Proof.
  unfold characters, len.
  replace (Z.of_nat (length pre) + 1 - 1)%Z with (Z.of_nat (length pre)) by lia.
  rewrite !Nat2Z.id, drop_app_length. apply take_app_length.
Qed.

(** X10. On every page the patent line [PATENT #: <number>     <date>] has
    the number at index 10, so that [find] never returns -1 and the range
    made bold, [Characters(11, len(number))], is the number and nothing
    else; the range made bold in [INVENTORS: <inventors>],
    [Characters(12, len(inventors))], is the inventors field and nothing
    else. The first holds when PowerPoint returns the text of the line as
    it was assigned. *)
Theorem bold_ranges (Text_read_back : text -> text) (t : text) :
  let info := parse_patent_info t in
  Text_read_back (patent_line info) = patent_line info ->
  find (patent_line info) (number info) = 10%Z
  /\ patent_bold Text_read_back info = [(11%Z, len (number info))]
  /\ characters 11 (len (number info)) (patent_line info) = number info
  /\ inventors_bold info = [(12%Z, len (inventors info))]
  /\ characters 12 (len (inventors info)) (inventors_line info)
     = inventors info.
Proof.
  intros info Hback. subst info.
  split; [apply find_number |]. split; [| split; [| split]].
  - unfold patent_bold. now rewrite Hback, find_number.
  - apply (characters_after (str "PATENT #: ")).
  - reflexivity.
  - unfold inventors_line.
    rewrite <- (app_nil_r (inventors (parse_patent_info t))) at 2.
    apply (characters_after (str "INVENTORS: ")).
Qed.

Lemma bold_ranges_witness :
  let info := parse_patent_info (str "Patent US 10,123,456 B2 of Ann Lee") in
  patent_bold Desk.as_assigned info = [(11%Z, 16%Z)]
  /\ characters 11 16 (patent_line info) = str "US 10,123,456 B2".
Proof.
  intros info.
  destruct (bold_ranges Desk.as_assigned
              (str "Patent US 10,123,456 B2 of Ann Lee") eq_refl)
    as (_ & Hb & Hc & _).
  assert (Hn : number info = str "US 10,123,456 B2") by (vm_compute; reflexivity).
  fold info in Hb, Hc. rewrite Hn in Hb, Hc. split; [exact Hb | exact Hc].
Defined.

(* ===================================================================== *)
(** ** The slides *)
(* ===================================================================== *)

Lemma range_down_snoc (n : nat) :
  range_down (S (S n)) 1 = S (S n) :: range_down (S n) 1.
Proof.
  unfold range_down.
  replace (S (S n) - 1) with (S n) by lia.
  replace (S n - 1) with n by lia.
  now rewrite seq_S, rev_app_distr.
Qed.

(** The first loop of [modify_active_ppt] deletes the slides from the last
    one down to the second one: every index it uses is in range, and the
    first slide is what is left. *)
Lemma delete_loop (slides : list Slide) (saved : option (list Slide)) :
  for_each (range_down (length slides) 1) Delete
    (mkPresentation slides saved)
  = (Returned tt, mkPresentation (take 1 slides) saved).
Proof.
  induction slides as [| x slides IH] using rev_ind; [reflexivity |].
  rewrite length_app. simpl. rewrite Nat.add_1_r.
  destruct slides as [| y slides]; [reflexivity |].
  simpl length. rewrite range_down_snoc. cbn [for_each].
  unfold bindD at 1. unfold Delete at 1. cbn [Slides SavedSlides].
  rewrite length_app. simpl length.
  replace (S (length slides) + 1) with (S (S (length slides))) by lia.
  rewrite Nat.leb_refl. cbn [Nat.leb andb Nat.sub].
  change (S (length slides)) with (length (y :: slides)).
  rewrite delete_middle, app_nil_r. exact IH.
Qed.

Section Deck.

Variable win32 : bool.
Variable picture_loads : Path -> bool.
Variable Text_read_back : text -> text.
Variable Top_read_back Height_read_back : Shape -> Q.

Local Abbreviation slide_of :=
  (patent_slide Text_read_back Top_read_back Height_read_back).
Local Abbreviation add_one :=
  (add_patent_slide picture_loads Text_read_back Top_read_back
     Height_read_back).
Local Abbreviation update :=
  (update_presentation picture_loads Text_read_back Top_read_back
     Height_read_back).

Lemma on_slide_last (slides : list Slide) (x : Slide) (f : Slide -> Slide)
    (saved : option (list Slide)) :
  on_slide (S (length slides)) f (mkPresentation (slides ++ [x]) saved)
  = (Returned tt, mkPresentation (slides ++ [f x]) saved).
Proof.
  unfold on_slide. cbn [Slides SavedSlides Nat.sub]. rewrite Nat.sub_0_r.
  rewrite list_lookup_middle by reflexivity.
  rewrite insert_app_r_alt by lia. now rewrite Nat.sub_diag.
Qed.

Lemma bind_on_slide_last {B} (slides : list Slide) (x : Slide)
    (f : Slide -> Slide) (saved : option (list Slide))
    (k : unit -> D B) :
  bindD (on_slide (S (length slides)) f) k
    (mkPresentation (slides ++ [x]) saved)
  = k tt (mkPresentation (slides ++ [f x]) saved).
Proof. unfold bindD. now rewrite on_slide_last. Qed.

(** The body of the second loop appends one slide: the slide of the page
    when the picture is loaded; a slide with its background only, and a
    COM error, when it is not. *)
Lemma add_patent_slide_run (image_path : Path) (t : text)
    (slides : list Slide) (saved : option (list Slide)) :
  add_one image_path t (mkPresentation slides saved)
  = if picture_loads image_path then
      (Returned tt, mkPresentation (slides ++ [slide_of image_path t]) saved)
    else
      (Raised com_error, mkPresentation (slides ++ [bare_slide]) saved).
Proof.
  unfold add_patent_slide. unfold bindD at 1, Count. cbn [Slides].
  unfold bindD at 1, Add. cbn [Slides SavedSlides].
  rewrite Nat.add_1_r, Nat.leb_refl. cbn [Nat.leb andb Nat.sub].
  rewrite Nat.sub_0_r, firstn_all, drop_all.
  rewrite !bind_on_slide_last. unfold AddPicture.
  destruct (picture_loads image_path).
  - rewrite !bind_on_slide_last. now rewrite on_slide_last.
  - reflexivity.
Qed.

Lemma add_loop_run (pairs : list (Path * text)) :
  Forall (fun pair => picture_loads (fst pair) = true) pairs ->
  forall slides saved,
    for_each pairs (fun '(image_path, t) => add_one image_path t)
      (mkPresentation slides saved)
    = (Returned tt,
       mkPresentation
         (slides ++ map (fun '(image_path, t) => slide_of image_path t) pairs)
         saved).
Proof.
  intros H. induction H as [| [p t] pairs Hp _ IH]; intros slides saved.
  - simpl. now rewrite app_nil_r.
  - cbn [for_each map]. unfold bindD at 1.
    rewrite add_patent_slide_run. simpl in Hp. rewrite Hp, IH.
    now rewrite <- app_assoc.
Qed.

Lemma add_loop_fails (good : list (Path * text)) (image_path : Path)
    (t : text) (pairs : list (Path * text)) :
  Forall (fun pair => picture_loads (fst pair) = true) good ->
  picture_loads image_path = false ->
  forall slides saved,
    for_each (good ++ (image_path, t) :: pairs)
      (fun '(image_path, t) => add_one image_path t)
      (mkPresentation slides saved)
    = (Raised com_error,
       mkPresentation
         (slides ++ map (fun '(image_path, t) => slide_of image_path t) good
          ++ [bare_slide]) saved).
Proof.
  intros H Hbad. induction H as [| [p t'] good Hp _ IH]; intros slides saved.
  - cbn [app for_each map]. unfold bindD at 1.
    now rewrite add_patent_slide_run, Hbad.
  - cbn [app for_each map]. unfold bindD at 1.
    rewrite add_patent_slide_run. simpl in Hp. rewrite Hp, IH.
    now rewrite <- app_assoc.
Qed.

Lemma update_presentation_run (images : list Path) (texts : list text)
    (pres : Presentation) :
  Forall (fun pair => picture_loads (fst pair) = true) (zip images texts) ->
  let slides :=
    take 1 (Slides pres)
    ++ map (fun '(image_path, t) => slide_of image_path t)
           (zip images texts) in
  update images texts pres
  = (Returned tt, mkPresentation slides (Some slides)).
Proof.
  intros H slides. subst slides. destruct pres as [old saved].
  unfold update_presentation, show_progress.
  unfold bindD at 1, Count. cbn [Slides].
  unfold bindD at 1. rewrite delete_loop.
  unfold bindD at 1. now rewrite (add_loop_run _ H).
Qed.

Lemma update_presentation_fails (images : list Path) (texts : list text)
    (pres : Presentation) (good : list (Path * text)) (image_path : Path)
    (t : text) (pairs : list (Path * text)) :
  zip images texts = good ++ (image_path, t) :: pairs ->
  Forall (fun pair => picture_loads (fst pair) = true) good ->
  picture_loads image_path = false ->
  update images texts pres
  = (Raised com_error,
     mkPresentation
       (take 1 (Slides pres)
        ++ map (fun '(image_path, t) => slide_of image_path t) good
        ++ [bare_slide])
       (SavedSlides pres)).
Proof.
  intros Hz H Hbad. destruct pres as [old saved].
  unfold update_presentation, show_progress.
  unfold bindD at 1, Count. cbn [Slides].
  unfold bindD at 1. rewrite delete_loop.
  unfold bindD at 1. now rewrite Hz, (add_loop_fails _ _ _ _ H Hbad).
Qed.

End Deck.

Lemma modify_active_ppt_run (picture_loads : Path -> bool)
    (Text_read_back : text -> text) (Top_read_back Height_read_back : Shape -> Q)
    (images : list Path) (texts : list text) (pres : Presentation) :
  Forall (fun pair => picture_loads (fst pair) = true) (zip images texts) ->
  let slides :=
    take 1 (Slides pres)
    ++ map (fun '(image_path, t) =>
              patent_slide Text_read_back Top_read_back Height_read_back
                image_path t) (zip images texts) in
  modify_active_ppt true picture_loads Text_read_back Top_read_back
    Height_read_back images texts (Some pres)
  = (Returned tt, Some (mkPresentation slides (Some slides))).
Proof.
  intros H slides. unfold modify_active_ppt. cbn [negb].
  now rewrite (update_presentation_run _ _ _ _ _ _ _ H).
Qed.

Lemma zip_loads (picture_loads : Path -> bool) (images : list Path)
    (texts : list text) :
  (forall path, In path images -> picture_loads path = true) ->
  Forall (fun pair => picture_loads (fst pair) = true) (zip images texts).
Proof.
  intros H. apply Forall_forall. intros [p t] Hin.
  apply elem_of_zip_l in Hin. apply H. now apply list_elem_of_In.
Qed.

Lemma new_slide_lookup {A} (f : Path -> text -> A) (images : list Path)
    (texts : list text) (k : nat) (path : Path) (t : text) :
  images !! k = Some path -> texts !! k = Some t ->
  map (fun '(image_path, t) => f image_path t) (zip images texts) !! k
  = Some (f path t).
Proof.
  intros Hi Ht. rewrite list_lookup_fmap.
  assert (E : zip images texts !! k = Some (path, t)).
  { apply lookup_zip_with_Some. now exists path, t. }
  now rewrite E.
Qed.

(** X11. When win32com is there, a presentation is active and every picture
    can be loaded, [modify_active_ppt] returns and leaves the presentation
    with its first slide (when it had one) followed by one new slide per
    pair of an image and a text, in their order, as many as the shorter of
    the two lists has; the slides that came after the first are gone. The
    k-th new slide has the blank layout, shows the k-th image and has three
    text boxes: the title, [PATENT #: <number>     <date>] and
    [INVENTORS: <inventors>] of the k-th text. The presentation is saved as
    it then stands. No slide index is ever out of range. *)
Theorem modify_active_ppt_slides (picture_loads : Path -> bool)
    (Text_read_back : text -> text) (Top_read_back Height_read_back : Shape -> Q)
    (images : list Path) (texts : list text) (pres : Presentation) :
  (forall path, In path images -> picture_loads path = true) ->
  exists pres' new,
    modify_active_ppt true picture_loads Text_read_back Top_read_back
      Height_read_back images texts (Some pres)
    = (Returned tt, Some pres')
    /\ Slides pres' = take 1 (Slides pres) ++ new
    /\ length new = min (length images) (length texts)
    /\ (forall k path t,
          images !! k = Some path -> texts !! k = Some t ->
          exists sl,
            new !! k = Some sl
            /\ Layout sl = 12%Z
            /\ pictures sl = [path]
            /\ box_texts sl
               = [title (parse_patent_info t);
                  patent_line (parse_patent_info t);
                  inventors_line (parse_patent_info t)])
    /\ SavedSlides pres' = Some (Slides pres').
Proof.
  intros Hload.
  eexists _, _. split.
  { apply modify_active_ppt_run. now apply zip_loads. }
  cbn [Slides SavedSlides]. split; [reflexivity |].
  split; [now rewrite length_map, length_zip |].
  split; [| reflexivity].
  intros k path t Hk Ht. eexists. split.
  { apply (new_slide_lookup
             (patent_slide Text_read_back Top_read_back Height_read_back));
      eassumption. }
  repeat split.
Qed.

Lemma modify_active_ppt_slides_witness :
  exists pres',
    modify_active_ppt true Desk.loads Desk.as_assigned Desk.top_of
      Desk.height_of
      [["images"; "page_1.png"]; ["images"; "page_2.png"]]%string
      [str "(54) A GEAR"; str "(54) A LEVER"; str "(54) A WHEEL"]
      (Some Desk.deck)
    = (Returned tt, Some pres')
    /\ map pictures (Slides pres')
       = [[]; [["images"; "page_1.png"]]; [["images"; "page_2.png"]]]%string
    /\ SavedSlides pres' = Some (Slides pres').
Proof.
  destruct (modify_active_ppt_slides Desk.loads Desk.as_assigned Desk.top_of
              Desk.height_of
              [["images"; "page_1.png"]; ["images"; "page_2.png"]]%string
              [str "(54) A GEAR"; str "(54) A LEVER"; str "(54) A WHEEL"]
              Desk.deck)
    as (pres' & new & Hrun & Hslides & Hlen & Hnew & Hsaved).
  - reflexivity.
  - exists pres'. split; [exact Hrun |]. split; [| exact Hsaved].
    rewrite Hslides.
    destruct (Hnew 0 _ _ eq_refl eq_refl) as (s1 & H1 & _ & P1 & _).
    destruct (Hnew 1 _ _ eq_refl eq_refl) as (s2 & H2 & _ & P2 & _).
    destruct new as [| x1 [| x2 [| x3 new]]]; try discriminate.
    injection H1 as ->. injection H2 as ->. simpl.
    now rewrite P1, P2.
Defined.

(** X12. The failures of [modify_active_ppt]. Without win32com it raises
    [RuntimeError] before it touches PowerPoint; without an active
    presentation the COM call fails. When the picture of pair k (counted
    from 0) is the first that cannot be loaded, the call fails there: by
    then the old slides after the first are deleted and the slides of the k
    pairs before it are complete, each with the blank layout, the picture of
    its pair and the three text boxes of its text, as a run without failure
    makes them; one more slide has its background and no shape, and nothing
    of this is saved. *)
Theorem modify_active_ppt_failures (picture_loads : Path -> bool)
    (Text_read_back : text -> text) (Top_read_back Height_read_back : Shape -> Q)
    (images : list Path) (texts : list text) :
  (forall app,
     modify_active_ppt false picture_loads Text_read_back Top_read_back
       Height_read_back images texts app
     = (Raised (RuntimeError "win32com is required for PowerPoint automation"),
        app))
  /\ modify_active_ppt true picture_loads Text_read_back Top_read_back
       Height_read_back images texts None
     = (Raised com_error, None)
  /\ (forall pres k path,
        images !! k = Some path -> k < length texts ->
        picture_loads path = false ->
        (forall j p, j < k -> images !! j = Some p ->
                     picture_loads p = true) ->
        exists pres' done,
          modify_active_ppt true picture_loads Text_read_back Top_read_back
            Height_read_back images texts (Some pres)
          = (Raised com_error, Some pres')
          /\ Slides pres' = take 1 (Slides pres) ++ done ++ [bare_slide]
          /\ length done = k
          /\ done
             = map (fun '(image_path, t) =>
                      patent_slide Text_read_back Top_read_back
                        Height_read_back image_path t)
                   (take k (zip images texts))
          /\ (forall j p t,
                j < k -> images !! j = Some p -> texts !! j = Some t ->
                exists sl,
                  done !! j = Some sl
                  /\ Layout sl = 12%Z
                  /\ pictures sl = [p]
                  /\ box_texts sl
                     = [title (parse_patent_info t);
                        patent_line (parse_patent_info t);
                        inventors_line (parse_patent_info t)])
          /\ Layout bare_slide = 12%Z
          /\ BackgroundRGB bare_slide = Some 0x1C1C1C%Z
          /\ Shapes bare_slide = []
          /\ SavedSlides pres' = SavedSlides pres).
Proof.
  split; [reflexivity |]. split; [reflexivity |].
  intros pres k path Hk Hlt Hbad Hgood.
  destruct (lookup_lt_is_Some_2 texts k Hlt) as [t Ht].
  assert (E : zip images texts !! k = Some (path, t)).
  { apply lookup_zip_with_Some. now exists path, t. }
  pose proof (take_drop_middle _ _ _ E) as Hz. symmetry in Hz.
  assert (HF : Forall (fun pair => picture_loads (fst pair) = true)
                 (take k (zip images texts))).
  { apply Forall_lookup. intros j [p t'] Hj.
    apply lookup_take_Some in Hj. destruct Hj as [Hj Hjk].
    apply lookup_zip_with_Some in Hj.
    destruct Hj as (p' & t'' & [= -> ->] & Hp & _).
    now apply (Hgood j). }
  eexists _, _. split.
  { unfold modify_active_ppt. cbn [negb].
    now rewrite (update_presentation_fails _ _ _ _ _ _ _ _ _ _ _ Hz HF Hbad). }
  cbn [Slides SavedSlides]. split; [reflexivity |].
  split; [rewrite length_map, length_take; apply lookup_lt_Some in E; lia |].
  split; [reflexivity |].
  split; [| repeat split].
  intros j p t' Hj Hp Ht'. eexists. split.
  { rewrite list_lookup_fmap, lookup_take_lt by exact Hj.
    assert (Ej : zip images texts !! j = Some (p, t')).
    { apply lookup_zip_with_Some. now exists p, t'. }
    now rewrite Ej. }
  repeat split.
Qed.

Lemma modify_active_ppt_failures_witness :
  exists pres',
    modify_active_ppt true
      (fun path => bool_decide (path = ["images"; "page_1.png"]%string))
      Desk.as_assigned Desk.top_of Desk.height_of
      [["images"; "page_1.png"]; ["images"; "page_2.png"]]%string
      [str "(54) A GEAR"; str "(54) A LEVER"]
      (Some Desk.deck)
    = (Raised com_error, Some pres')
    /\ map pictures (Slides pres')
       = [[]; [["images"; "page_1.png"]]; []]%string
    /\ SavedSlides pres' = None.
Proof.
  destruct (modify_active_ppt_failures
              (fun path => bool_decide (path = ["images"; "page_1.png"]%string))
              Desk.as_assigned Desk.top_of Desk.height_of
              [["images"; "page_1.png"]; ["images"; "page_2.png"]]%string
              [str "(54) A GEAR"; str "(54) A LEVER"])
    as (_ & _ & H).
  destruct (H Desk.deck 1 ["images"; "page_2.png"]%string)
    as (pres' & done & Hrun & Hslides & _ & Hdone & _ & _ & _ & _ & Hsaved).
  - reflexivity.
  - simpl. lia.
  - reflexivity.
  - intros [| j] p Hj Hp; [| lia]. simpl in Hp. now injection Hp as <-.
  - exists pres'. split; [exact Hrun |]. split; [| exact Hsaved].
    rewrite Hslides, Hdone. reflexivity.
Defined.

(* ===================================================================== *)
(** ** [main] *)
(* ===================================================================== *)

Section Written.

Variable convert_from_path : Path -> Path -> Z -> result (list Image).
Variable image_to_string : Image -> result text.
Variable writable : Path -> bool.
Variable meipass : option Path.

(** A path holds after the loop what it held before, or it is a file of
    one of the pages of the loop. *)
Lemma convert_loop_written output_dir images path :
  forall i image_paths texts fs r fs',
    convert_loop image_to_string writable output_dir (enumerate i images)
      image_paths texts fs = (r, fs') ->
    fs' !! path = fs !! path
    \/ exists j, i <= j < i + length images /\ path ∈ artifacts output_dir j.
Proof.
  induction images as [| image images IH]; intros i ps ts fs r fs'.
  - simpl. unfold ret. intros [= <- <-]. now left.
  - simpl. unfold bind at 1.
    destruct (process_page image_to_string writable output_dir i image fs)
      as [[[p t] | e] fs1] eqn:Hp.
    + intros H.
      destruct (decide (path ∈ artifacts output_dir i)) as [Hin | Hout];
        [right; exists i; split; [lia | exact Hin] |].
      destruct (IH _ _ _ _ _ _ H) as [E | (j & Hj & E)].
      * left. rewrite E. eapply process_page_frame; eassumption.
      * right. exists j. split; [lia | exact E].
    + intros [= <- <-].
      destruct (decide (path ∈ artifacts output_dir i)) as [Hin | Hout];
        [right; exists i; split; [lia | exact Hin] | left].
      eapply process_page_frame; eassumption.
Qed.

Lemma convert_pdf_to_images_written pdf_path output_dir fs path :
  snd (convert_pdf_to_images convert_from_path image_to_string writable
         meipass pdf_path output_dir fs) !! path = fs !! path
  \/ exists images j,
       convert_from_path pdf_path (poppler_path meipass) 600%Z = Ok images
       /\ 1 <= j <= length images /\ path ∈ artifacts output_dir j.
Proof.
  unfold convert_pdf_to_images, bind at 1, lift, show_progress.
  destruct (convert_from_path pdf_path (poppler_path meipass) 600%Z)
    as [images | e]; [| now left].
  destruct (convert_loop image_to_string writable output_dir
              (enumerate 1 images) [] [] fs) as [r fs'] eqn:H.
  simpl. destruct (convert_loop_written _ _ path _ _ _ _ _ _ H)
    as [E | (j & Hj & E)]; [now left | right].
  exists images, j. split; [reflexivity |]. split; [lia | exact E].
Qed.

End Written.

Lemma artifacts_under (output_dir : Path) (i : nat) (path : Path) :
  path ∈ artifacts output_dir i -> output_dir `prefix_of` path.
Proof.
  unfold artifacts. intros H. apply list_elem_of_fmap in H.
  destruct H as (e & -> & _). now exists [page_name i e].
Qed.

(** The files of the world once the output directory is set up. *)
Lemma cleared_under (output_dir : Path) (w : World) (path : Path) :
  (forall p, output_dir `prefix_of` p -> is_Some (files w !! p) ->
             output_dir ∈ directories w) ->
  output_dir `prefix_of` path -> files (cleared output_dir w) !! path = None.
Proof.
  intros Hdir Hp. unfold cleared.
  destruct (bool_decide_reflect (output_dir ∈ directories w)) as [Hin | Hout];
    cbn [files].
  - apply map_lookup_filter_None_2. right. intros f _ Hn. now apply Hn.
  - destruct (files w !! path) as [f |] eqn:E; [| reflexivity].
    exfalso. apply Hout, (Hdir path Hp). rewrite E. eauto.
Qed.

Lemma cleared_outside (output_dir : Path) (w : World) (path : Path) :
  ~ output_dir `prefix_of` path ->
  files (cleared output_dir w) !! path = files w !! path.
Proof.
  intros Hp. unfold cleared.
  destruct (bool_decide (output_dir ∈ directories w)); cbn [files];
    [| reflexivity].
  destruct (files w !! path) as [f |] eqn:E.
  - now apply map_lookup_filter_Some_2.
  - apply map_lookup_filter_None_2. now left.
Qed.

Lemma cleared_directory (output_dir : Path) (w : World) :
  output_dir ∈ directories (cleared output_dir w).
Proof.
  unfold cleared.
  destruct (bool_decide (output_dir ∈ directories w)); cbn [directories];
    apply elem_of_union; left; now apply elem_of_singleton.
Qed.

Lemma cleared_powerpoint (output_dir : Path) (w : World) :
  powerpoint (cleared output_dir w) = powerpoint w
  /\ stdout (cleared output_dir w) = stdout w.
Proof.
  unfold cleared. now destruct (bool_decide (output_dir ∈ directories w)).
Qed.

(** [rmtree] where no entry of the tree survives, and where one does. *)
Lemma rmtree_removes (survives : Path -> bool) (path : Path) (w : World) :
  (forall p, path `prefix_of` p ->
             is_Some (files w !! p) \/ p ∈ directories w ->
             survives p = false) ->
  filter (fun entry => stuck survives path (fst entry)) (files w) = ∅
  /\ filter (stuck survives path) (directories w) = ∅.
Proof.
  intros Hfree. split.
  - apply map_empty. intros p. apply map_lookup_filter_None_2.
    destruct (files w !! p) as [f |] eqn:E; [right | now left].
    intros f' _ [Hp Hs]. cbn [fst] in *.
    rewrite (Hfree p Hp) in Hs; [discriminate | left; rewrite E; eauto].
  - apply elem_of_equiv_empty_L. intros d [[Hp Hs] Hd]%elem_of_filter.
    rewrite (Hfree d Hp) in Hs; [discriminate | now right].
Qed.

Lemma rmtree_refused (survives : Path -> bool) (path : Path) (w : World)
    (p : Path) :
  path `prefix_of` p -> survives p = true -> is_Some (files w !! p) ->
  ~ (filter (fun entry => stuck survives path (fst entry)) (files w) = ∅
     /\ filter (stuck survives path) (directories w) = ∅).
Proof.
  intros Hp Hs [f Hf] [E _].
  assert (H : filter (fun entry => stuck survives path (fst entry)) (files w)
              !! p = Some f).
  { apply map_lookup_filter_Some_2; [exact Hf | now split]. }
  rewrite E in H. now rewrite lookup_empty in H.
Qed.

(** The first three statements of [main]: when [images] is no regular
    file and no removal is refused, they do not raise, and they leave the
    world cleared. *)
Lemma main_setup (survives : Path -> bool) (output_dir : Path)
    (k : St World unit) (w : World) :
  files w !! output_dir = None ->
  (forall p, output_dir `prefix_of` p ->
             is_Some (files w !! p) \/ p ∈ directories w ->
             survives p = false) ->
  bindD (path_exists output_dir)
    (fun there =>
       bindD (if there then rmtree survives output_dir else retD tt)
         (fun _ => bindD (mkdir output_dir) (fun _ => k))) w
  = k (cleared output_dir w).
Proof.
  intros Hfile Hfree. unfold bindD at 1, path_exists. rewrite Hfile.
  unfold cleared.
  destruct (bool_decide_reflect (output_dir ∈ directories w)) as [Hin | Hout];
    cbn [orb].
  - unfold bindD at 1, rmtree. rewrite (bool_decide_eq_true_2 _ Hin).
    rewrite (bool_decide_eq_true_2 _ (rmtree_removes _ _ _ Hfree)).
    unfold bindD at 1, mkdir. cbn [files directories powerpoint stdout].
    rewrite bool_decide_eq_false_2.
    + rewrite bool_decide_eq_false_2; [reflexivity |].
      intros [f Hf]. apply map_lookup_filter_Some in Hf.
      destruct Hf as [_ Hn]. now apply Hn.
    + intros Hf. apply elem_of_filter in Hf. destruct Hf as [Hn _].
      now apply Hn.
  - replace (bool_decide (is_Some (@None File))) with false
      by (symmetry; apply bool_decide_eq_false_2; intros [f Hf]; discriminate).
    unfold bindD at 1, retD. unfold bindD at 1, mkdir.
    rewrite (bool_decide_eq_false_2 _ Hout), Hfile.
    replace (bool_decide (is_Some (@None File))) with false
      by (symmetry; apply bool_decide_eq_false_2; intros [f Hf]; discriminate).
    reflexivity.
Qed.

(** X13. When the file dialog is cancelled, [main] returns without
    converting or presenting anything, but the output directory has been
    set up all the same: every file that was under [images] is gone,
    [images] is a directory, the files elsewhere and the presentation are
    untouched, and the line [No file selected. Exiting.] is printed. This
    holds when [images] is no regular file (removing it would raise), a
    file under [images] means that [images] is a directory, and the
    operating system refuses no removal under [images] (a refusal stops
    [main] before the dialog). *)
Theorem main_cancelled
    (convert_from_path : Path -> Path -> Z -> result (list Image))
    (image_to_string : Image -> result text)
    (writable : Path -> bool) (meipass : option Path) (win32 : bool)
    (picture_loads : Path -> bool) (Text_read_back : text -> text)
    (Top_read_back Height_read_back : Shape -> Q)
    (Path_of : string -> Path) (survives : Path -> bool) (w : World) :
  files w !! ["images"%string] = None ->
  (forall p, ["images"%string] `prefix_of` p -> is_Some (files w !! p) ->
             ["images"%string] ∈ directories w) ->
  (forall p, ["images"%string] `prefix_of` p ->
             is_Some (files w !! p) \/ p ∈ directories w ->
             survives p = false) ->
  exists w',
    main convert_from_path image_to_string writable meipass win32
      picture_loads Text_read_back Top_read_back Height_read_back
      "" Path_of survives w
    = (Returned tt, w')
    /\ (forall p, ["images"%string] `prefix_of` p -> files w' !! p = None)
    /\ (forall p, ~ ["images"%string] `prefix_of` p ->
                  files w' !! p = files w !! p)
    /\ ["images"%string] ∈ directories w'
    /\ powerpoint w' = powerpoint w
    /\ stdout w' = stdout w ++ ["No file selected. Exiting."%string].
Proof.
  intros Hfile Hdir Hfree. eexists. split.
  { unfold main. cbv zeta. rewrite main_setup by assumption.
    unfold bindD, select_pdf_file, retD, print. simpl. reflexivity. }
  cbn [files directories powerpoint stdout].
  split; [intros p Hp; now apply cleared_under |].
  split; [intros p Hp; now apply cleared_outside |].
  split; [apply cleared_directory |].
  destruct (cleared_powerpoint ["images"%string] w) as [-> ->]. auto.
Qed.

Lemma desk_images_no_file : files Desk.world !! ["images"%string] = None.
Proof.
  unfold Desk.world. cbn [files].
  rewrite lookup_insert_ne by discriminate.
  now rewrite lookup_singleton_ne by discriminate.
Qed.

Lemma desk_images_directory : ["images"%string] ∈ directories Desk.world.
Proof.
  unfold Desk.world. cbn [directories].
  apply elem_of_union. left. now apply elem_of_singleton.
Qed.

Lemma desk_page_9 :
  files Desk.world !! ["images"; "page_9.txt"]%string
  = Some (TextFile (str "stale")).
Proof. unfold Desk.world. cbn [files]. apply lookup_insert_eq. Qed.

Lemma main_cancelled_witness :
  exists w',
    main Sample.render Sample.recognize Sample.store_accepts None true
      Desk.loads Desk.as_assigned Desk.top_of Desk.height_of
      "" Desk.parts Desk.removes_all Desk.world
    = (Returned tt, w')
    /\ files w' !! ["images"; "page_9.txt"]%string = None
    /\ files w' !! ["notes"; "todo.txt"]%string = Some (TextFile (str "keep"))
    /\ powerpoint w' = Some Desk.deck.
Proof.
  destruct (main_cancelled Sample.render Sample.recognize
              Sample.store_accepts None true Desk.loads Desk.as_assigned
              Desk.top_of Desk.height_of Desk.parts Desk.removes_all
              Desk.world)
    as (w' & Hrun & Hunder & Hout & _ & Hp & _).
  - exact desk_images_no_file.
  - intros p _ _. exact desk_images_directory.
  - reflexivity.
  - exists w'. split; [exact Hrun |]. split; [| split; [| exact Hp]].
    + apply Hunder. now exists ["page_9.txt"%string].
    + rewrite Hout by (intros [k Hk]; discriminate).
      unfold Desk.world. cbn [files].
      rewrite lookup_insert_ne by discriminate.
      apply lookup_singleton_eq.
Defined.

(** [main] after its first three statements. *)
Lemma main_unfold
    (convert_from_path : Path -> Path -> Z -> result (list Image))
    (image_to_string : Image -> result text)
    (writable : Path -> bool) (meipass : option Path) (win32 : bool)
    (picture_loads : Path -> bool) (Text_read_back : text -> text)
    (Top_read_back Height_read_back : Shape -> Q)
    (askopenfilename : string) (Path_of : string -> Path)
    (survives : Path -> bool) (w : World) :
  files w !! ["images"%string] = None ->
  (forall p, ["images"%string] `prefix_of` p ->
             is_Some (files w !! p) \/ p ∈ directories w ->
             survives p = false) ->
  main convert_from_path image_to_string writable meipass win32
    picture_loads Text_read_back Top_read_back Height_read_back
    askopenfilename Path_of survives w
  = if (askopenfilename =? "")%string then
      print "No file selected. Exiting." (cleared ["images"%string] w)
    else
      bindD (call_convert_pdf_to_images convert_from_path image_to_string
               writable meipass (Path_of askopenfilename) ["images"%string])
        (fun '(image_paths, texts) =>
           call_modify_active_ppt win32 picture_loads Text_read_back
             Top_read_back Height_read_back image_paths texts)
        (cleared ["images"%string] w).
Proof.
  intros Hfile Hfree. unfold main. cbv zeta.
  rewrite main_setup by assumption.
  unfold bindD at 1, select_pdf_file, retD.
  now destruct (askopenfilename =? "")%string.
Qed.

(** [main] when a file under [images] survives the removal: [rmtree]
    raises, and [main] with it, before the directory is made and the dialog
    is opened. *)
Lemma main_refused
    (convert_from_path : Path -> Path -> Z -> result (list Image))
    (image_to_string : Image -> result text)
    (writable : Path -> bool) (meipass : option Path) (win32 : bool)
    (picture_loads : Path -> bool) (Text_read_back : text -> text)
    (Top_read_back Height_read_back : Shape -> Q)
    (askopenfilename : string) (Path_of : string -> Path)
    (survives : Path -> bool) (w : World) (p : Path) :
  ["images"%string] ∈ directories w ->
  ["images"%string] `prefix_of` p -> survives p = true ->
  is_Some (files w !! p) ->
  main convert_from_path image_to_string writable meipass win32
    picture_loads Text_read_back Top_read_back Height_read_back
    askopenfilename Path_of survives w
  = (Raised OSError,
     mkWorld
       (filter (fun entry => ~ ["images"%string] `prefix_of` fst entry
                             \/ survives (fst entry) = true) (files w))
       (filter (fun d => ~ ["images"%string] `prefix_of` d
                         \/ survives d = true \/ d = ["images"%string])
          (directories w))
       (powerpoint w) (stdout w)).
Proof.
  intros Hin Hp Hs Hf. unfold main. cbv zeta.
  unfold bindD at 1, path_exists.
  rewrite (bool_decide_eq_true_2 _ Hin). cbn [orb].
  unfold bindD at 1, rmtree. rewrite (bool_decide_eq_true_2 _ Hin).
  now rewrite (bool_decide_eq_false_2 _ (rmtree_refused _ _ _ _ Hp Hs Hf)).
Qed.

(** X14. Unless the operating system refuses a removal under [images],
    no file of an earlier run is left in the output directory, whatever the
    outcome of [main] after that: a file that is under [images] when [main]
    is through is one of the files [page_{i}.png], [page_{i}_col1.png],
    [page_{i}_col2.png], [page_{i}.txt] of a page [i] of the document of
    this run, and the files outside [images] are as they were. When a file
    under [images] survives the removal, [main] raises [OSError] before the
    dialog: the file is there as it was, nothing is printed, and the
    presentation is untouched. This holds when [images] is no regular file
    and a file under [images] means that [images] is a directory. *)
Theorem main_output_fresh
    (convert_from_path : Path -> Path -> Z -> result (list Image))
    (image_to_string : Image -> result text)
    (writable : Path -> bool) (meipass : option Path) (win32 : bool)
    (picture_loads : Path -> bool) (Text_read_back : text -> text)
    (Top_read_back Height_read_back : Shape -> Q)
    (askopenfilename : string) (Path_of : string -> Path)
    (survives : Path -> bool) (w : World) :
  files w !! ["images"%string] = None ->
  (forall p, ["images"%string] `prefix_of` p -> is_Some (files w !! p) ->
             ["images"%string] ∈ directories w) ->
  let run :=
    main convert_from_path image_to_string writable meipass win32
      picture_loads Text_read_back Top_read_back Height_read_back
      askopenfilename Path_of survives w in
  let w' := snd run in
  ((forall p, ["images"%string] `prefix_of` p ->
              is_Some (files w !! p) \/ p ∈ directories w ->
              survives p = false) ->
   (forall p f, ["images"%string] `prefix_of` p -> files w' !! p = Some f ->
      exists images i,
        convert_from_path (Path_of askopenfilename) (poppler_path meipass)
          600%Z = Ok images
        /\ 1 <= i <= length images
        /\ p ∈ artifacts ["images"%string] i)
   /\ (forall p, ~ ["images"%string] `prefix_of` p ->
                 files w' !! p = files w !! p))
  /\ (forall p, ["images"%string] `prefix_of` p -> survives p = true ->
                is_Some (files w !! p) ->
        fst run = Raised OSError
        /\ files w' !! p = files w !! p
        /\ powerpoint w' = powerpoint w
        /\ stdout w' = stdout w).
Proof.
  intros Hfile Hdir run w'. split.
  2: { intros p Hp Hs Hf. subst w' run.
       rewrite (main_refused _ _ _ _ _ _ _ _ _ _ _ _ _ _ (Hdir p Hp Hf) Hp Hs Hf).
       cbn [fst snd files powerpoint stdout].
       split; [reflexivity |]. split; [| split; reflexivity].
       destruct Hf as [f Hf]. rewrite Hf.
       apply map_lookup_filter_Some_2; [exact Hf | now right]. }
  intros Hfree. subst w' run. rewrite main_unfold by assumption.
  set (w1 := cleared ["images"%string] w).
  assert (Hfiles : forall p,
    files (snd
      (if (askopenfilename =? "")%string then
         print "No file selected. Exiting." w1
       else
         bindD (call_convert_pdf_to_images convert_from_path image_to_string
                  writable meipass (Path_of askopenfilename)
                  ["images"%string])
           (fun '(image_paths, texts) =>
              call_modify_active_ppt win32 picture_loads Text_read_back
                Top_read_back Height_read_back image_paths texts) w1)) !! p
    = files w1 !! p
    \/ exists images j,
         convert_from_path (Path_of askopenfilename) (poppler_path meipass)
           600%Z = Ok images
         /\ 1 <= j <= length images /\ p ∈ artifacts ["images"%string] j).
  { intros p. destruct (askopenfilename =? "")%string; [now left |].
    unfold bindD, call_convert_pdf_to_images.
    pose proof (convert_pdf_to_images_written convert_from_path
                  image_to_string writable meipass (Path_of askopenfilename)
                  ["images"%string] (files w1) p) as Hw.
    destruct (convert_pdf_to_images convert_from_path image_to_string
                writable meipass (Path_of askopenfilename)
                ["images"%string] (files w1)) as [[[ps ts] | e] fs1];
      cbn [snd] in Hw; [| exact Hw].
    unfold call_modify_active_ppt. cbn [files directories powerpoint stdout].
    destruct (modify_active_ppt win32 picture_loads Text_read_back
                Top_read_back Height_read_back ps ts (powerpoint w1))
      as [r1 app1].
    exact Hw. }
  split.
  - intros p f Hp Hf. destruct (Hfiles p) as [E | E]; [| exact E].
    rewrite E in Hf. unfold w1 in Hf.
    now rewrite (cleared_under _ _ _ Hdir Hp) in Hf.
  - intros p Hp. destruct (Hfiles p) as [E | (images & j & _ & _ & E)].
    + rewrite E. now apply cleared_outside.
    + apply artifacts_under in E. contradiction.
Qed.

Lemma main_output_fresh_witness :
  let w' :=
    snd (main Sample.render Sample.recognize Sample.store_accepts None true
           Desk.loads Desk.as_assigned Desk.top_of Desk.height_of
           "patent.pdf" Desk.parts Desk.removes_all Desk.world) in
  let refused :=
    main Sample.render Sample.recognize Sample.store_accepts None true
      Desk.loads Desk.as_assigned Desk.top_of Desk.height_of
      "patent.pdf" Desk.parts Desk.keeps_page_9 Desk.world in
  files w' !! ["images"; "page_9.txt"]%string = None
  /\ files w' !! ["notes"; "todo.txt"]%string = Some (TextFile (str "keep"))
  /\ fst refused = Raised OSError
  /\ files (snd refused) !! ["images"; "page_9.txt"]%string
     = Some (TextFile (str "stale")).
Proof.
  intros w' refused.
  destruct (main_output_fresh Sample.render Sample.recognize
              Sample.store_accepts None true Desk.loads Desk.as_assigned
              Desk.top_of Desk.height_of "patent.pdf" Desk.parts
              Desk.removes_all Desk.world
              desk_images_no_file
              (fun p _ _ => desk_images_directory))
    as [Hfresh _].
  destruct (Hfresh (fun p _ _ => eq_refl)) as [Hunder Hout].
  destruct (main_output_fresh Sample.render Sample.recognize
              Sample.store_accepts None true Desk.loads Desk.as_assigned
              Desk.top_of Desk.height_of "patent.pdf" Desk.parts
              Desk.keeps_page_9 Desk.world
              desk_images_no_file
              (fun p _ _ => desk_images_directory))
    as [_ Hrefused].
  destruct (Hrefused ["images"; "page_9.txt"]%string
              ltac:(now exists ["page_9.txt"%string]) eq_refl
              ltac:(rewrite desk_page_9; eauto))
    as (Hraise & Hkept & _).
  fold w' in Hunder, Hout. fold refused in Hraise, Hkept.
  split; [| split; [| split; [exact Hraise |]]].
  - destruct (files w' !! ["images"; "page_9.txt"]%string) as [f |] eqn:E;
      [| reflexivity].
    destruct (Hunder _ f ltac:(now exists ["page_9.txt"%string]) E)
      as (images & i & Hr & Hi & Hin).
    injection Hr as <-. simpl in Hi. exfalso. revert Hin.
    apply (artifact_of_other_page ["images"%string] 9 i ".txt");
      [simpl; auto | lia].
  - rewrite Hout by (intros [k Hk]; discriminate).
    unfold Desk.world. cbn [files].
    rewrite lookup_insert_ne by discriminate.
    apply lookup_singleton_eq.
  - rewrite Hkept. exact desk_page_9.
Defined.

(** X15. A complete run of [main]. When a file is chosen, the operating
    system refuses no removal under [images], the document is rendered,
    every page is at least two pixels wide and one pixel high, the
    recognizer answers, the writes are accepted, win32com is there, a
    presentation is active and the pictures can be loaded, [main] returns,
    and the presentation then has its first slide followed by one slide per
    page of the document, in the order of the pages: the slide of page [i]
    shows [images/page_{i}.png] and the title, the patent line and the
    inventors line of the text of page [i], the string that was written to
    [images/page_{i}.txt]. The presentation is saved. *)
Theorem main_presents
    (convert_from_path : Path -> Path -> Z -> result (list Image))
    (image_to_string : Image -> result text)
    (writable : Path -> bool) (meipass : option Path)
    (picture_loads : Path -> bool) (Text_read_back : text -> text)
    (Top_read_back Height_read_back : Shape -> Q)
    (askopenfilename : string) (Path_of : string -> Path)
    (survives : Path -> bool) (w : World)
    (images : list Image) (pres : Presentation) :
  askopenfilename <> ""%string ->
  files w !! ["images"%string] = None ->
  (forall p, ["images"%string] `prefix_of` p ->
             is_Some (files w !! p) \/ p ∈ directories w ->
             survives p = false) ->
  powerpoint w = Some pres ->
  convert_from_path (Path_of askopenfilename) (poppler_path meipass) 600%Z
  = Ok images ->
  (forall path, writable path = true) ->
  (forall image, exists t, image_to_string image = Ok t) ->
  Forall (fun image => (2 <= width image)%Z /\ (1 <= height image)%Z) images ->
  (forall path, picture_loads path = true) ->
  exists w' pres' new texts,
    main convert_from_path image_to_string writable meipass true
      picture_loads Text_read_back Top_read_back Height_read_back
      askopenfilename Path_of survives w
    = (Returned tt, w')
    /\ powerpoint w' = Some pres'
    /\ Slides pres' = take 1 (Slides pres) ++ new
    /\ length new = length images
    /\ Forall2 (page_text image_to_string) images texts
    /\ (forall k sl, new !! k = Some sl ->
          exists t,
            texts !! k = Some t
            /\ files w' !! ["images"%string; page_txt (S k)]
               = Some (TextFile t)
            /\ pictures sl = [["images"%string; page_png (S k)]]
            /\ box_texts sl
               = [title (parse_patent_info t);
                  patent_line (parse_patent_info t);
                  inventors_line (parse_patent_info t)])
    /\ SavedSlides pres' = Some (Slides pres').
Proof.
  intros Hname Hfile Hfree Hpres Hrender Hw Hocr Hsize Hload.
  rewrite main_unfold by assumption.
  apply String.eqb_neq in Hname. rewrite Hname.
  destruct (cleared_powerpoint ["images"%string] w) as [Hpp _].
  set (w1 := cleared ["images"%string] w) in *.
  destruct (convert_pdf_to_images_succeeds convert_from_path image_to_string
              writable meipass (Path_of askopenfilename) ["images"%string]
              images (files w1) Hrender Hw Hocr Hsize)
    as (ps & ts & fs' & Hrun).
  destruct (convert_pdf_to_images_ok _ _ _ _ _ _ _ _ _ _ Hrun)
    as (images' & Hr' & Hps & HF & Htxt).
  rewrite Hrender in Hr'. injection Hr' as <-.
  pose proof (Forall2_length _ _ _ HF) as Hlen.
  unfold bindD, call_convert_pdf_to_images. rewrite Hrun.
  unfold call_modify_active_ppt. cbn [files directories powerpoint stdout].
  rewrite Hpp, Hpres.
  rewrite (modify_active_ppt_run picture_loads Text_read_back Top_read_back
             Height_read_back ps ts pres)
    by (apply zip_loads; intros path _; apply Hload).
  eexists _, _, _, ts. split; [reflexivity |].
  cbn [files powerpoint Slides SavedSlides].
  split; [reflexivity |]. split; [reflexivity |].
  split.
  { rewrite length_map, length_zip, Hps, length_map, length_seq. lia. }
  split; [exact HF |].
  split; [| reflexivity].
  intros k sl Hk. rewrite list_lookup_fmap in Hk.
  destruct (zip ps ts !! k) as [[p t] |] eqn:Ez; [| discriminate].
  injection Hk as <-.
  apply lookup_zip_with_Some in Ez.
  destruct Ez as (p' & t' & [= <- <-] & Hp & Ht).
  exists t. split; [exact Ht |]. split; [now apply Htxt |].
  split; [| reflexivity].
  rewrite Hps, list_lookup_fmap in Hp.
  destruct (seq 1 (length images) !! k) as [j |] eqn:Ej; [| discriminate].
  apply lookup_seq in Ej. destruct Ej as [-> _].
  injection Hp as <-. reflexivity.
Qed.

Lemma main_presents_witness :
  exists w' pres',
    main Sample.render Sample.recognize Sample.store_accepts None true
      Desk.loads Desk.as_assigned Desk.top_of Desk.height_of
      "patent.pdf" Desk.parts Desk.removes_all Desk.world
    = (Returned tt, w')
    /\ powerpoint w' = Some pres'
    /\ length (Slides pres') = 3
    /\ SavedSlides pres' = Some (Slides pres').
Proof.
  destruct (main_presents Sample.render Sample.recognize
              Sample.store_accepts None Desk.loads Desk.as_assigned
              Desk.top_of Desk.height_of "patent.pdf" Desk.parts
              Desk.removes_all Desk.world
              [Sample.page 4; Sample.page 7] Desk.deck)
    as (w' & pres' & new & texts & Hrun & Hpp & Hslides & Hlen & _ & _
        & Hsaved).
  - discriminate.
  - exact desk_images_no_file.
  - reflexivity.
  - reflexivity.
  - reflexivity.
  - reflexivity.
  - intros image. eexists. reflexivity.
  - repeat constructor; unfold width, height; simpl; lia.
  - reflexivity.
  - exists w', pres'. split; [exact Hrun |]. split; [exact Hpp |].
    split; [| exact Hsaved].
    rewrite Hslides, length_app, Hlen. reflexivity.
Defined.

(* ===================================================================== *)
(** ** The abstract rule of [CVRT3.0.py] *)
(* ===================================================================== *)

Lemma cvrt3_abstract_match_at (p : option ascii) (s : text) :
  option_map grp1 (match_at true CVRT3_0.abstract_re p s)
  = cvrt3_abstract_at s.
Proof.
  unfold match_at, CVRT3_0.abstract_re, cvrt3_abstract_at. cbn [cat].
  set (body := Seq (star Space)
                 (Seq (Group (lazy_plus any_char)) (Look abstract_stop))).
  assert (Hbody : forall a,
    option_map grp1 (run true body (MState None a None) (matched s))
    = capture abstract_end (Some a)).
  { intros a. unfold body.
    rewrite (run_field_body abstract_stop abstract_end); try reflexivity.
    - apply field_body_group.
    - intros st' k'. apply look_abstract_stop. }
  assert (Hpins : pins (fun st => run true body st (matched s))).
  { apply pins_run; [reflexivity | apply pins_matched]. }
  change (str "Abstract") with (str "Abstrac" ++ str "t").
  rewrite after_prefix_cat.
  rewrite run_seq, run_lits.
  - cbn [rest grp].
    destruct (after_prefix true (str "Abstrac") s) as [a |]; [| reflexivity].
    rewrite run_seq, run_opt, option_map_orelse, Hbody.
    f_equal. destruct a as [| x a]; [reflexivity |].
    cbn [run rest grp atom_match].
    change (str "t") with ["t"%char].
    rewrite after_prefix_cons, after_prefix_nil.
    destruct (same_char true x "t"); [| reflexivity].
    rewrite (pins_at _ _ _ _ Hpins). apply Hbody.
  - apply pins_run; [reflexivity | apply pins_matched].
Qed.

Lemma cvrt3_abstract_is_spec (t : text) :
  abstract_of (CVRT3_0.parse_patent_info t) = cvrt3_abstract_spec t.
Proof.
  unfold CVRT3_0.parse_patent_info, cvrt3_abstract_spec, abstract_of.
  cbn [snd].
  pose proof (search_first_match true CVRT3_0.abstract_re cvrt3_abstract_at
                grp1 cvrt3_abstract_match_at None t) as H.
  unfold search. rewrite <- H.
  now destruct (search_from true CVRT3_0.abstract_re None t).
Qed.

Lemma lstrip_ws_snoc (l : text) (c : ascii) :
  is_space c = false -> lstrip_ws (l ++ [c]) = lstrip_ws l ++ [c].
Proof.
  intros Hc. induction l as [| x l IH]; simpl; [now rewrite Hc |].
  now destruct (is_space x).
Qed.

Lemma strip_cons (c : ascii) (s : text) :
  is_space c = false -> exists tail, strip (c :: s) = c :: tail.
Proof.
  intros Hc. unfold strip. simpl. rewrite Hc. simpl.
  rewrite lstrip_ws_snoc by exact Hc. rewrite rev_app_distr. simpl. eauto.
Qed.

(** X16. The abstract rule of [CVRT3.0.py], [Abstract?\s*(...)], takes the
    heading [Abstract] (or [Abstrac] when nothing follows a [t]) and never a
    colon: its abstract is the stripped span that starts right after the
    heading. So for every text that starts with [Abstract:] the abstract of
    [CVRT3.0.py] starts with the colon; and for a text without [Abstrac]
    (in any case of the letters) it is [Abstract N/A], as in the two other
    files. *)
Theorem cvrt3_abstract_rule :
  (forall t, abstract_of (CVRT3_0.parse_patent_info t) = cvrt3_abstract_spec t)
  /\ (forall body,
        exists tail,
          abstract_of (CVRT3_0.parse_patent_info (str "Abstract:" ++ body))
          = ":"%char :: tail)
  /\ (forall t,
        contains true (str "Abstrac") t = false ->
        abstract_of (CVRT3_0.parse_patent_info t) = str "Abstract N/A"
        /\ abstract (parse_patent_info t) = str "Abstract N/A").
Proof.
  split; [exact cvrt3_abstract_is_spec |]. split.
  - intros body. rewrite cvrt3_abstract_is_spec. unfold cvrt3_abstract_spec.
    assert (E : cvrt3_abstract_at (str "Abstract:" ++ body)
                = Some (":"%char :: until abstract_end body)).
    { unfold cvrt3_abstract_at.
      assert (Ea : after_prefix true (str "Abstract")
                     (str "Abstract:" ++ body) = Some (":"%char :: body)).
      { vm_compute. reflexivity. }
      rewrite Ea. reflexivity. }
    change (str "Abstract:" ++ body)
      with ("A"%char :: str "bstract:" ++ body) in *.
    cbn [first_match]. rewrite E. now apply strip_cons.
  - intros t Ht. split.
    + rewrite cvrt3_abstract_is_spec. unfold cvrt3_abstract_spec.
      rewrite first_match_none; [reflexivity |].
      intros u v Huv. unfold cvrt3_abstract_at.
      change (str "Abstract") with (str "Abstrac" ++ str "t").
      rewrite after_prefix_cat.
      now rewrite (no_heading_anywhere true _ t Ht u v Huv).
    + rewrite abstract_is_spec. unfold abstract_spec.
      rewrite first_match_none; [reflexivity |].
      intros u v Huv. unfold abstract_at.
      change (str "Abstract:") with (str "Abstrac" ++ str "t:").
      change (str "Abstract") with (str "Abstrac" ++ str "t").
      rewrite !after_prefix_cat.
      now rewrite (no_heading_anywhere true _ t Ht u v Huv).
Qed.

Lemma cvrt3_abstract_rule_witness :
  contains true (str "Abstrac") (str "(57) Summary") = false
  /\ abstract_of (CVRT3_0.parse_patent_info (str "(57) Summary"))
     = str "Abstract N/A".
Proof.
  destruct cvrt3_abstract_rule as (_ & _ & Hnone).
  split; [reflexivity |]. now apply Hnone.
Defined.

(* ===================================================================== *)
(** ** A run that fails *)
(* ===================================================================== *)

Section Failure.

Variable convert_from_path : Path -> Path -> Z -> result (list Image).
Variable image_to_string : Image -> result text.
Variable writable : Path -> bool.
Variable meipass : option Path.

(** The files of a complete page. *)
Lemma process_page_complete output_dir i image fs p t fs' :
  process_page image_to_string writable output_dir i image fs
  = (Ok (p, t), fs') ->
  forall e, In e endings ->
    is_Some (fs' !! joinpath output_dir (page_name i e)).
Proof.
  intros H e He.
  destruct (process_page_files _ _ _ _ _ _ _ _ _ H)
    as (l & r & _ & F1 & F2 & F3 & F4).
  unfold page_png, page_col1, page_col2, page_txt in *.
  destruct He as [<- | [<- | [<- | [<- | []]]]]; eauto.
Qed.

(** A loop that fails has failed at one page; the files of the pages
    before it are all there. *)
Lemma convert_loop_fails output_dir images :
  forall i image_paths texts fs e fs',
    convert_loop image_to_string writable output_dir (enumerate i images)
      image_paths texts fs = (Err e, fs') ->
    exists k image fs_k,
      images !! k = Some image
      /\ process_page image_to_string writable output_dir (i + k) image fs_k
         = (Err e, fs')
      /\ forall j ending, j < k -> In ending endings ->
           is_Some (fs' !! joinpath output_dir (page_name (i + j) ending)).
Proof.
  induction images as [| image images IH]; intros i ps ts fs e fs'.
  - simpl. unfold ret. discriminate.
  - simpl. unfold bind at 1.
    destruct (process_page image_to_string writable output_dir i image fs)
      as [[[p t] | e'] fs1] eqn:Hp.
    + intros H. destruct (IH _ _ _ _ _ _ H) as (k & im & fs_k & Hk & Hf & Hb).
      exists (S k), im, fs_k. split; [exact Hk |].
      replace (i + S k) with (S i + k) by lia. split; [exact Hf |].
      intros [| j] ending Hj He.
      * rewrite Nat.add_0_r.
        erewrite convert_loop_frame; [| exact H |].
        -- eapply process_page_complete; eassumption.
        -- intros j' Hj'. apply artifact_of_other_page; [exact He | lia].
      * replace (i + S j) with (S i + j) by lia. apply Hb; [lia | exact He].
    + intros [= <- <-]. exists 0, image, fs. rewrite Nat.add_0_r.
      split; [reflexivity |]. split; [exact Hp |]. intros j ending Hj. lia.
Qed.

End Failure.

(** X17. A run of [convert_pdf_to_images] that fails does not undo what it
    has written. Either the renderer has failed, and no file is changed;
    or the run has failed at one page [k] of the document with the error
    raised there, and then the four files of every page before [k] are in
    the output directory, together with what page [k] wrote before its
    error. *)
Theorem convert_pdf_to_images_no_rollback
    (convert_from_path : Path -> Path -> Z -> result (list Image))
    (image_to_string : Image -> result text)
    (writable : Path -> bool) (meipass : option Path)
    (pdf_path output_dir : Path) (fs fs' : FS) (e : error) :
  convert_pdf_to_images convert_from_path image_to_string writable meipass
    pdf_path output_dir fs = (Err e, fs') ->
  (convert_from_path pdf_path (poppler_path meipass) 600%Z = Err e
   /\ fs' = fs)
  \/ exists images k image fs_k,
       convert_from_path pdf_path (poppler_path meipass) 600%Z = Ok images
       /\ images !! k = Some image
       /\ process_page image_to_string writable output_dir (S k) image fs_k
          = (Err e, fs')
       /\ forall j ending, j < k -> In ending endings ->
            is_Some (fs' !! joinpath output_dir (page_name (S j) ending)).
Proof.
  unfold convert_pdf_to_images, bind at 1, lift, show_progress.
  destruct (convert_from_path pdf_path (poppler_path meipass) 600%Z)
    as [images | e0].
  - intros H. right. apply convert_loop_fails in H.
    destruct H as (k & image & fs_k & Hk & Hf & Hb).
    exists images, k, image, fs_k. auto.
  - intros [= <- <-]. now left.
Qed.

Lemma convert_pdf_to_images_no_rollback_witness :
  let recognize image :=
    if (width image <=? 2)%Z then Ok (str "ab")
    else Err RecognitionUnavailable in
  let run :=
    convert_pdf_to_images Sample.render recognize Sample.store_accepts None
      ["doc.pdf"%string] ["images"%string] ∅ in
  fst run = Err RecognitionUnavailable
  /\ is_Some (snd run !! ["images"; "page_1.txt"]%string).
Proof.
  intros recognize run.
  assert (H1 : fst run = Err RecognitionUnavailable) by (lazy; reflexivity).
  split; [exact H1 |].
  pose proof (surjective_pairing run) as H. rewrite H1 in H.
  apply convert_pdf_to_images_no_rollback in H.
  destruct H as [[Hr _] | (images & k & image & fs_k & Hr & Hk & Hf & Hb)];
    [discriminate |].
  injection Hr as <-.
  destruct k as [| [| k]]; [| | discriminate].
  - injection Hk as <-. exfalso. revert Hf.
    unfold process_page, bind, save_image, write_text, write_file,
      extract_text_from_image, lift, ret. simpl. discriminate.
  - apply (Hb 0 ".txt"%string); [lia | simpl; auto].
Defined.

(* ===================================================================== *)
(** ** The abstract box of [Patent-anim2.py] *)
(* ===================================================================== *)

(** X18. The loop of [Patent-anim2.py] that shrinks the abstract ends,
    whatever heights PowerPoint reports: from a font size of 8 or more it
    takes at most [size - 8] rounds (six from the size 14 that the code
    sets), and the font size it leaves is between 8 and the size it started
    from; it is the largest size from the start down at which the box is
    not higher than 200 points, and it is 8 when the box is too high at
    every size. *)
Theorem patent_anim2_abstract_fits (Height_at : Z -> Q) (fuel : nat) :
  forall size,
    (8 <= size)%Z -> (size - 8 <= Z.of_nat fuel)%Z ->
    exists s,
      Patent_anim2_slides.shrink Height_at fuel size = Some s
      /\ (8 <= s <= size)%Z
      /\ ((Height_at s <= 200)%Q \/ s = 8%Z)
      /\ forall s', (s < s' <= size)%Z -> ~ (Height_at s' <= 200)%Q.
Proof.
  induction fuel as [| fuel IH]; intros size Hlo Hfuel.
  - assert (size = 8%Z) by lia. subst size. exists 8%Z.
    simpl. unfold Patent_anim2_slides.overflows. simpl.
    rewrite andb_false_r.
    split; [reflexivity |]. split; [lia |].
    split; [now right | intros s' Hs'; lia].
  - simpl. unfold Patent_anim2_slides.overflows at 1. cbv zeta.
    destruct (Qle_bool (Height_at size) 200) eqn:Efit; simpl.
    + exists size. split; [reflexivity |]. split; [lia |].
      split; [left; now apply Qle_bool_iff | intros s' Hs'; lia].
    + destruct (Z.ltb_spec 8 size) as [Hgt | Hle].
      * destruct (IH (size - 1)%Z ltac:(lia) ltac:(lia))
          as (s & Hs & Hrange & Hfit & Hover).
        exists s. split; [exact Hs |]. split; [lia |]. split; [exact Hfit |].
        intros s' Hs'. destruct (Z.eq_dec s' size) as [-> | Hne].
        -- intros Hq. apply Qle_bool_iff in Hq. congruence.
        -- apply Hover. lia.
      * assert (size = 8%Z) by lia. subst size. exists 8%Z.
        split; [reflexivity |]. split; [lia |].
        split; [now right | intros s' Hs'; lia].
Qed.

Lemma patent_anim2_abstract_fits_witness :
  Patent_anim2_slides.shrink (fun size => inject_Z (20 * size)) 6 14
  = Some 10%Z.
Proof.
  destruct (patent_anim2_abstract_fits (fun size => inject_Z (20 * size))
              6 14 ltac:(lia) ltac:(lia))
    as (s & Hs & _).
  rewrite Hs. vm_compute in Hs. now injection Hs as <-.
Defined.
